(** * WetHumidGasPvt: construction and completion of the PVT tables

    A shallow embedding of [WetHumidGasPvt<Scalar>::initFromState],
    [extendPvtgwTable_] and [extendPvtgTable_] (opm-common, black-oil PVT
    of wet and humid gas), with the properties of the table-completion
    engine stated over it.

    The class is a template over [Scalar]: the embedding is a Section over a
    scalar type with its arithmetic, which is the type of the table columns
    as well (as in [WetHumidGasPvt<double>]); it is instantiated with IEEE
    binary64. Counts and indices ([size_t], [unsigned]) are natural
    numbers. Exceptions, failed assertions and
    accesses outside a container end a run with an [Error]. The types the
    sources at hand only use (the tables of the input deck, the tabulated
    functions, the schedule) are modelled by what [initFromState] does with
    them.

    With it, [FileExtension::restart] of the restart output streams. *)

From Stdlib Require Import ZArith Floats Ascii String.
From stdpp Require Import base tactics option list strings pretty.

(** ** Scalars *)

(** What the code needs of [Scalar]: the literals [0.0], [1.0], [2.0] and
    the four operations; the comparison [<] is the one in which the order of
    a ratio axis is stated. *)
Class ScalarOps (Scalar : Type) := {
  s_zero : Scalar;
  s_one : Scalar;
  s_two : Scalar;
  s_add : Scalar → Scalar → Scalar;
  s_sub : Scalar → Scalar → Scalar;
  s_mul : Scalar → Scalar → Scalar;
  s_div : Scalar → Scalar → Scalar;
  s_ltb : Scalar → Scalar → bool
}.

Declare Scope scalar_scope.
Delimit Scope scalar_scope with Sc.
Notation "a + b" := (s_add a b) : scalar_scope.
Notation "a - b" := (s_sub a b) : scalar_scope.
Notation "a * b" := (s_mul a b) : scalar_scope.
Notation "a / b" := (s_div a b) : scalar_scope.

(** ** Exceptions *)

(** The three input tables a message of [initFromState] can name. *)
Inductive TableName := RWGSALT | PVTGW | PVTG.

(** The ways a run of [initFromState] can end without a finished object.
    The first three are the [std::runtime_error]s of the source, under the
    names the specification gives them:
    - [TableMismatch t n d]: "Table sizes mismatch. t: n, Density: d";
    - [InsufficientData t]: "Saturated t table must have at least 2 rows."
      ("atleast" for RWGSALT and PVTG);
    - [ExtrapolationImpossible t]: "t tables are invalid: The last table must
      exhibit at least one entry for undersaturated gas!".
    [AssertionFailed] is a failed [assert]; [OutOfRange] is an access outside
    a container ([operator[]], [back()] of an empty vector, a table number
    that does not exist), which the source does not guard. *)
Inductive Error :=
  | TableMismatch (table : TableName) (tables density : nat)
  | InsufficientData (table : TableName)
  | ExtrapolationImpossible (table : TableName)
  | AssertionFailed
  | OutOfRange.

Inductive Result (A : Type) :=
  | Ok (a : A)
  | Raise (e : Error).
Arguments Ok {A} a.
Arguments Raise {A} e.

#[global] Instance Result_ret : MRet Result := @Ok.
#[global] Instance Result_bind : MBind Result := λ A B f r,
  match r with
  | Ok a => f a
  | Raise e => Raise e
  end.

Definition isOk {A} (r : Result A) : Prop := ∃ a, r = Ok a.

(** [assert(b)] *)
Definition assert (b : bool) : Result unit :=
  if b then Ok () else Raise AssertionFailed.

(** [v[i]] of a [std::vector]. *)
Definition at_index {A} (v : list A) (i : nat) : Result A :=
  match v !! i with
  | Some a => Ok a
  | None => Raise OutOfRange
  end.

(** [v.back()] *)
Definition back {A} (v : list A) : Result A :=
  match last v with
  | Some a => Ok a
  | None => Raise OutOfRange
  end.

(** The exceptions of the accesses and assertions, as opposed to the three
    [std::runtime_error]s of [initFromState]. *)
Definition lowLevel (e : Error) : Prop := e = AssertionFailed ∨ e = OutOfRange.

(** [for (idx = i; idx < i + n; ++idx) body(idx)] over a threaded state. *)
Fixpoint forRange {St : Type} (body : nat → St → Result St) (i n : nat)
    (s : St) : Result St :=
  match n with
  | 0 => Ok s
  | S n' => s' ← body i s; forRange body (S i) n' s'
  end.

Section WetHumidGasPvt.

Context {Scalar : Type} `{ScalarOps Scalar}.

(** ** Input tables *)

(** A row of the saturated table of PVTGW or PVTG: columns PG, RW (PVTGW) or
    RV (PVTG), BG, MUG. *)
Record SaturatedRow := {
  sat_PG : Scalar;
  sat_R : Scalar;
  sat_BG : Scalar;
  sat_MUG : Scalar
}.

(** A row of an undersaturated table: columns RW (PVTGW) or RV (PVTG), BG,
    MUG. *)
Record UnderSaturatedRow := {
  R : Scalar;
  BG : Scalar;
  MUG : Scalar
}.

(** [SimpleTable]: the rows in order; [numRows] is the length, [getColumn]
    a projection mapped over the rows. *)
Abbreviation SimpleTable := (list UnderSaturatedRow) (only parsing).

Definition numRows {A} (t : list A) : nat := length t.

(** Modelled from the spec: [PvtxTable] (its declaration is not part of the
    sources at hand): a saturated sub-table and, per saturated row, an
    undersaturated sub-table reached by its row number. *)
Record PvtxTable := {
  getSaturatedTable : list SaturatedRow;
  underSaturatedTables : list SimpleTable
}.

Definition getUnderSaturatedTable (t : PvtxTable) (tableNumber : nat)
    : Result SimpleTable :=
  at_index (underSaturatedTables t) tableNumber.

(** Modelled from the spec: [RwgsaltTable]: a saturated sub-table with the
    column PG and undersaturated sub-tables with the columns C_SALT and
    RVW. *)
Record RwgsaltRow := {
  C_SALT : Scalar;
  RVW : Scalar
}.

Record RwgsaltTable := {
  salt_getSaturatedTable : list Scalar; (* column PG *)
  salt_underSaturatedTables : list (list RwgsaltRow)
}.

Definition salt_getUnderSaturatedTable (t : RwgsaltTable) (tableNumber : nat)
    : Result (list RwgsaltRow) :=
  at_index (salt_underSaturatedTables t) tableNumber.

Record DensityRecord := {
  oil : Scalar;
  water : Scalar;
  gas : Scalar
}.

(** What [initFromState] reads of [EclipseState] (through its table
    manager). *)
Record EclipseState := {
  getPvtgwTables : list PvtxTable;
  getPvtgTables : list PvtxTable;
  getDensityTable : list DensityRecord;
  getRwgSaltTables : list RwgsaltTable
}.

(** What [initFromState] reads of [Schedule]: [schedule[step].oilvap()]. *)
Inductive OilVaporization := VAP_UNDEFINED | VAPPARS | DRDT.

Record OilVaporizationProperties := {
  getType : OilVaporization;
  vap1 : Scalar;
  vap2 : Scalar
}.

Record ScheduleState := {
  oilvap : OilVaporizationProperties
}.

Definition Schedule := list ScheduleState.

(** ** Tabulated functions *)

(** Modelled from the spec: [Tabulated1DFunction] stores the (x, y) arrays
    in column order; [setXYArrays] and [setXYContainers] replace both. *)
Record Tabulated1D := {
  xValues : list Scalar;
  yValues : list Scalar
}.

Definition setXYContainers (x y : list Scalar) (_ : Tabulated1D) : Tabulated1D :=
  {| xValues := x; yValues := y |}.

Definition setXYArrays (nSamples : nat) (x y : list Scalar) (_ : Tabulated1D)
    : Tabulated1D :=
  {| xValues := take nSamples x; yValues := take nSamples y |}.

(** Modelled from the spec: [UniformXTabulated2DFunction]: the outer axis is
    the ordered list of x positions; each carries its inner samples (y,
    value) in the order they were appended. *)
Abbreviation Tabulated2D := (list (Scalar * list (Scalar * Scalar))) (only parsing).

Definition numX (t : Tabulated2D) : nat := length t.

Definition numY (t : Tabulated2D) (i : nat) : nat :=
  match t !! i with
  | Some node => length node.2
  | None => 0
  end.

Definition appendXPos (x : Scalar) (t : Tabulated2D) : Tabulated2D :=
  t ++ [(x, [])].

(** [appendSamplePoint(i, y, value)]: the sample goes to the end of the
    branch of the x position [i], which has to exist. *)
Definition appendSamplePoint (i : nat) (y value : Scalar) (t : Tabulated2D)
    : Result Tabulated2D :=
  if bool_decide (i < numX t)
  then Ok (alter (λ node, (node.1, node.2 ++ [(y, value)])) i t)
  else Raise OutOfRange.

(** ** extendPvtgwTable_ and extendPvtgTable_ *)

(** The two functions differ in the name of the ratio column (RW, RV) and in
    the pair of member tables they extend ([inverseGasBRvSat_] and
    [gasMuRvSat_], [inverseGasBRvwSat_] and [gasMuRvwSat_]); [extendTable_]
    is their common text, on the pair of tables of the region. *)
Record Extension := {
  RvArray : list Scalar;
  gasBArray : list Scalar;
  gasMuArray : list Scalar;
  invGasB : Tabulated2D;
  gasMu : Tabulated2D
}.

(** One iteration of the loop over [newRowIdx]: [prev] is the row
    [newRowIdx - 1] of the master table and [new] the row [newRowIdx]. *)
Definition extendStep (xIdx : nat) (prev new : UnderSaturatedRow)
    (e : Extension) : Result Extension :=
  (* compute the gas pressure for the new entry *)
  let diffRv := (R new - R prev)%Sc in
  lastRv ← back (RvArray e);
  let newRv := (lastRv + diffRv)%Sc in
  (* calculate the compressibility of the master table *)
  let B1 := BG new in
  let B2 := BG prev in
  let x := ((B1 - B2) / ((B1 + B2) / s_two))%Sc in
  lastB ← back (gasBArray e);
  let newBg := (lastB * (s_one + x / s_two) / (s_one - x / s_two))%Sc in
  (* calculate the "viscosibility" of the master table *)
  let mu1 := MUG new in
  let mu2 := MUG prev in
  let xMu := ((mu1 - mu2) / ((mu1 + mu2) / s_two))%Sc in
  lastMu ← back (gasMuArray e);
  let newMug := (lastMu * (s_one + xMu / s_two) / (s_one - xMu / s_two))%Sc in
  invB ← appendSamplePoint xIdx newRv (s_one / newBg)%Sc (invGasB e);
  mu ← appendSamplePoint xIdx newRv newMug (gasMu e);
  mret {| RvArray := RvArray e ++ [newRv];
          gasBArray := gasBArray e ++ [newBg];
          gasMuArray := gasMuArray e ++ [newMug];
          invGasB := invB;
          gasMu := mu |}.

(** [for (newRowIdx = 1; newRowIdx < masterTable.numRows(); ++newRowIdx)]:
    [rows] is the master table from the row [newRowIdx - 1] on. *)
Fixpoint extendRows (xIdx : nat) (rows : SimpleTable) (e : Extension)
    : Result Extension :=
  match rows with
  | prev :: rest =>
      match rest with
      | new :: _ => e' ← extendStep xIdx prev new e; extendRows xIdx rest e'
      | [] => Ok e
      end
  | [] => Ok e
  end.

Definition extendTable_ (xIdx : nat) (curTable masterTable : SimpleTable)
    (invGasB0 gasMu0 : Tabulated2D) : Result (Tabulated2D * Tabulated2D) :=
  e ← extendRows xIdx masterTable
        {| RvArray := R <$> curTable;
           gasBArray := BG <$> curTable;
           gasMuArray := MUG <$> curTable;
           invGasB := invGasB0;
           gasMu := gasMu0 |};
  mret (invGasB e, gasMu e).

(** ** The body of initFromState for one region and one family *)

(** The loops over PVTGW and over PVTG have the same text up to the names of
    the ratio column and of the member tables; [name] is the table the
    messages mention. The tables of the region the loop body holds by
    reference are threaded through it. *)
Record FamilyTables := {
  f_gasMu : Tabulated2D;           (* gasMuRvSat_ / gasMuRvwSat_ *)
  f_invGasB : Tabulated2D;         (* inverseGasBRvSat_ / inverseGasBRvwSat_ *)
  f_invSatGasB : Tabulated1D;      (* inverseSaturatedGasB_ *)
  f_invSatGasBMu : Tabulated1D;    (* inverseSaturatedGasBMu_ *)
  f_vaporizationFac : Tabulated1D  (* saturated{Water,Oil}VaporizationFactorTable_ *)
}.

(** [if (saturatedTable.numRows() < 2) OPM_THROW(...)] *)
Definition requireTwoRows {A} (name : TableName) (saturatedTable : list A)
    : Result unit :=
  if bool_decide (numRows saturatedTable < 2)
  then Raise (InsufficientData name)
  else Ok ().

Record Extraction := {
  x_invGasB : Tabulated2D;
  x_gasMu : Tabulated2D;
  invSatGasBArray : list Scalar;
  invSatGasBMuArray : list Scalar
}.

(** The loop over [innerIdx]. *)
Definition appendUnderSaturated (outerIdx : nat)
    (underSaturatedTable : SimpleTable) (innerIdx : nat)
    (t : Tabulated2D * Tabulated2D) : Result (Tabulated2D * Tabulated2D) :=
  row ← at_index underSaturatedTable innerIdx;
  invB ← appendSamplePoint outerIdx (R row) (s_one / BG row)%Sc t.1;
  mu ← appendSamplePoint outerIdx (R row) (MUG row) t.2;
  mret (invB, mu).

(** The loop over [outerIdx]: extract the table for the gas viscosity and
    formation volume factors. *)
Definition extractRow (pvtTable : PvtxTable) (outerIdx : nat) (a : Extraction)
    : Result Extraction :=
  row ← at_index (getSaturatedTable pvtTable) outerIdx;
  let pg := sat_PG row in
  let B := sat_BG row in
  let mu := sat_MUG row in
  let invB := appendXPos pg (x_invGasB a) in
  let gasMu := appendXPos pg (x_gasMu a) in
  let invArr := invSatGasBArray a ++ [(s_one / B)%Sc] in
  let invMuArr := invSatGasBMuArray a ++ [(s_one / (mu * B))%Sc] in
  assert (bool_decide (numX invB = outerIdx + 1));;
  assert (bool_decide (numX gasMu = outerIdx + 1));;
  underSaturatedTable ← getUnderSaturatedTable pvtTable outerIdx;
  t ← forRange (appendUnderSaturated outerIdx underSaturatedTable)
        0 (numRows underSaturatedTable) (invB, gasMu);
  mret {| x_invGasB := t.1; x_gasMu := t.2;
          invSatGasBArray := invArr; invSatGasBMuArray := invMuArr |}.

(** [for (; masterTableIdx < saturatedTable.numRows(); ++masterTableIdx)]
    with its [break]; [n] is the number of indices left below
    [saturatedTable.numRows()]. The result is the value of [masterTableIdx]
    after the loop. *)
Fixpoint scanMaster (pvtTable : PvtxTable) (masterTableIdx n : nat)
    : Result nat :=
  match n with
  | 0 => Ok masterTableIdx
  | S n' =>
      t ← getUnderSaturatedTable pvtTable masterTableIdx;
      if bool_decide (1 < numRows t)
      then Ok masterTableIdx
      else scanMaster pvtTable (S masterTableIdx) n'
  end.

Definition findMasterTableIdx (pvtTable : PvtxTable) (xIdx : nat) : Result nat :=
  scanMaster pvtTable (xIdx + 1)
    (numRows (getSaturatedTable pvtTable) - (xIdx + 1)).

(** The body of the loop over [xIdx]: make sure to have at least two sample
    points per gas pressure value. The pair is (inverse gas B, gas mu). *)
Definition completeNode (name : TableName) (pvtTable : PvtxTable) (xIdx : nat)
    (t : Tabulated2D * Tabulated2D) : Result (Tabulated2D * Tabulated2D) :=
  (* a single sample point is definitely needed *)
  assert (bool_decide (0 < numY t.1 xIdx));;
  if bool_decide (1 < numY t.1 xIdx) then Ok t else
  masterTableIdx ← findMasterTableIdx pvtTable xIdx;
  if bool_decide (numRows (getSaturatedTable pvtTable) ≤ masterTableIdx)
  then Raise (ExtrapolationImpossible name)
  else
    curTable ← getUnderSaturatedTable pvtTable xIdx;
    masterTable ← getUnderSaturatedTable pvtTable masterTableIdx;
    extendTable_ xIdx curTable masterTable t.1 t.2.

(** The extrapolation step of one region: the whole loop over [xIdx]. Its
    bound [numX()] is the same in every iteration: an extension appends
    samples, not x positions. *)
Definition completeTable (name : TableName) (pvtTable : PvtxTable)
    (t : Tabulated2D * Tabulated2D) : Result (Tabulated2D * Tabulated2D) :=
  forRange (completeNode name pvtTable) 0 (numX t.1) t.

(** The loop body after the row check. *)
Definition fillFamilyTables (name : TableName) (pvtTable : PvtxTable)
    (ft : FamilyTables) : Result FamilyTables :=
  let saturatedTable := getSaturatedTable pvtTable in
  let vaporizationFac :=
    setXYArrays (numRows saturatedTable) (sat_PG <$> saturatedTable)
      (sat_R <$> saturatedTable) (f_vaporizationFac ft) in
  a ← forRange (extractRow pvtTable) 0 (numRows saturatedTable)
        {| x_invGasB := f_invGasB ft; x_gasMu := f_gasMu ft;
           invSatGasBArray := []; invSatGasBMuArray := [] |};
  let tmpPressure := sat_PG <$> saturatedTable in
  let invSatGasB :=
    setXYContainers tmpPressure (invSatGasBArray a) (f_invSatGasB ft) in
  let invSatGasBMu :=
    setXYContainers tmpPressure (invSatGasBMuArray a) (f_invSatGasBMu ft) in
  t ← completeTable name pvtTable (x_invGasB a, x_gasMu a);
  mret {| f_gasMu := t.2; f_invGasB := t.1;
          f_invSatGasB := invSatGasB; f_invSatGasBMu := invSatGasBMu;
          f_vaporizationFac := vaporizationFac |}.

(** ** The object *)

(** The members [initFromState] writes, one entry per region in each
    vector. *)
Record WetHumidGasPvt := {
  gasReferenceDensity_ : list Scalar;
  oilReferenceDensity_ : list Scalar;
  waterReferenceDensity_ : list Scalar;
  inverseGasBRvwSat_ : list Tabulated2D;
  inverseGasBRvSat_ : list Tabulated2D;
  gasMuRvwSat_ : list Tabulated2D;
  gasMuRvSat_ : list Tabulated2D;
  inverseSaturatedGasB_ : list Tabulated1D;
  inverseSaturatedGasBMu_ : list Tabulated1D;
  saturatedWaterVaporizationFactorTable_ : list Tabulated1D;
  saturatedWaterVaporizationSaltFactorTable_ : list Tabulated2D;
  saturatedOilVaporizationFactorTable_ : list Tabulated1D;
  vapPar1_ : Scalar;
  enableRwgSalt_ : bool
}.

Definition emptyTabulated1D : Tabulated1D := {| xValues := []; yValues := [] |}.

(** Modelled from the spec: [setNumRegions] (declared in the header, which is
    not part of the sources at hand) sets the region count: every per-region
    vector gets [numRegions] entries, with empty tables. *)
Definition setNumRegions (numRegions : nat) : WetHumidGasPvt :=
  {| gasReferenceDensity_ := replicate numRegions s_zero;
     oilReferenceDensity_ := replicate numRegions s_zero;
     waterReferenceDensity_ := replicate numRegions s_zero;
     inverseGasBRvwSat_ := replicate numRegions [];
     inverseGasBRvSat_ := replicate numRegions [];
     gasMuRvwSat_ := replicate numRegions [];
     gasMuRvSat_ := replicate numRegions [];
     inverseSaturatedGasB_ := replicate numRegions emptyTabulated1D;
     inverseSaturatedGasBMu_ := replicate numRegions emptyTabulated1D;
     saturatedWaterVaporizationFactorTable_ :=
       replicate numRegions emptyTabulated1D;
     saturatedWaterVaporizationSaltFactorTable_ := replicate numRegions [];
     saturatedOilVaporizationFactorTable_ :=
       replicate numRegions emptyTabulated1D;
     vapPar1_ := s_zero;
     enableRwgSalt_ := false |}.

(** Modelled from the spec: the region count of the object. *)
Definition numRegions (st : WetHumidGasPvt) : nat :=
  length (inverseGasBRvSat_ st).

(** Modelled from the spec: [setReferenceDensities] copies the reference
    densities of one region. *)
Definition setReferenceDensities (regionIdx : nat) (rhoRefO rhoRefG rhoRefW : Scalar)
    (st : WetHumidGasPvt) : WetHumidGasPvt :=
  {| gasReferenceDensity_ := <[regionIdx := rhoRefG]> (gasReferenceDensity_ st);
     oilReferenceDensity_ := <[regionIdx := rhoRefO]> (oilReferenceDensity_ st);
     waterReferenceDensity_ := <[regionIdx := rhoRefW]> (waterReferenceDensity_ st);
     inverseGasBRvwSat_ := inverseGasBRvwSat_ st;
     inverseGasBRvSat_ := inverseGasBRvSat_ st;
     gasMuRvwSat_ := gasMuRvwSat_ st;
     gasMuRvSat_ := gasMuRvSat_ st;
     inverseSaturatedGasB_ := inverseSaturatedGasB_ st;
     inverseSaturatedGasBMu_ := inverseSaturatedGasBMu_ st;
     saturatedWaterVaporizationFactorTable_ :=
       saturatedWaterVaporizationFactorTable_ st;
     saturatedWaterVaporizationSaltFactorTable_ :=
       saturatedWaterVaporizationSaltFactorTable_ st;
     saturatedOilVaporizationFactorTable_ :=
       saturatedOilVaporizationFactorTable_ st;
     vapPar1_ := vapPar1_ st;
     enableRwgSalt_ := enableRwgSalt_ st |}.

Definition set_enableRwgSalt (b : bool) (st : WetHumidGasPvt) : WetHumidGasPvt :=
  {| gasReferenceDensity_ := gasReferenceDensity_ st;
     oilReferenceDensity_ := oilReferenceDensity_ st;
     waterReferenceDensity_ := waterReferenceDensity_ st;
     inverseGasBRvwSat_ := inverseGasBRvwSat_ st;
     inverseGasBRvSat_ := inverseGasBRvSat_ st;
     gasMuRvwSat_ := gasMuRvwSat_ st;
     gasMuRvSat_ := gasMuRvSat_ st;
     inverseSaturatedGasB_ := inverseSaturatedGasB_ st;
     inverseSaturatedGasBMu_ := inverseSaturatedGasBMu_ st;
     saturatedWaterVaporizationFactorTable_ :=
       saturatedWaterVaporizationFactorTable_ st;
     saturatedWaterVaporizationSaltFactorTable_ :=
       saturatedWaterVaporizationSaltFactorTable_ st;
     saturatedOilVaporizationFactorTable_ :=
       saturatedOilVaporizationFactorTable_ st;
     vapPar1_ := vapPar1_ st;
     enableRwgSalt_ := b |}.

Definition set_vapPar1 (v : Scalar) (st : WetHumidGasPvt) : WetHumidGasPvt :=
  {| gasReferenceDensity_ := gasReferenceDensity_ st;
     oilReferenceDensity_ := oilReferenceDensity_ st;
     waterReferenceDensity_ := waterReferenceDensity_ st;
     inverseGasBRvwSat_ := inverseGasBRvwSat_ st;
     inverseGasBRvSat_ := inverseGasBRvSat_ st;
     gasMuRvwSat_ := gasMuRvwSat_ st;
     gasMuRvSat_ := gasMuRvSat_ st;
     inverseSaturatedGasB_ := inverseSaturatedGasB_ st;
     inverseSaturatedGasBMu_ := inverseSaturatedGasBMu_ st;
     saturatedWaterVaporizationFactorTable_ :=
       saturatedWaterVaporizationFactorTable_ st;
     saturatedWaterVaporizationSaltFactorTable_ :=
       saturatedWaterVaporizationSaltFactorTable_ st;
     saturatedOilVaporizationFactorTable_ :=
       saturatedOilVaporizationFactorTable_ st;
     vapPar1_ := v;
     enableRwgSalt_ := enableRwgSalt_ st |}.

Definition set_saltFactorTable (regionIdx : nat) (t : Tabulated2D)
    (st : WetHumidGasPvt) : WetHumidGasPvt :=
  {| gasReferenceDensity_ := gasReferenceDensity_ st;
     oilReferenceDensity_ := oilReferenceDensity_ st;
     waterReferenceDensity_ := waterReferenceDensity_ st;
     inverseGasBRvwSat_ := inverseGasBRvwSat_ st;
     inverseGasBRvSat_ := inverseGasBRvSat_ st;
     gasMuRvwSat_ := gasMuRvwSat_ st;
     gasMuRvSat_ := gasMuRvSat_ st;
     inverseSaturatedGasB_ := inverseSaturatedGasB_ st;
     inverseSaturatedGasBMu_ := inverseSaturatedGasBMu_ st;
     saturatedWaterVaporizationFactorTable_ :=
       saturatedWaterVaporizationFactorTable_ st;
     saturatedWaterVaporizationSaltFactorTable_ :=
       <[regionIdx := t]> (saturatedWaterVaporizationSaltFactorTable_ st);
     saturatedOilVaporizationFactorTable_ :=
       saturatedOilVaporizationFactorTable_ st;
     vapPar1_ := vapPar1_ st;
     enableRwgSalt_ := enableRwgSalt_ st |}.

(** The tables of a region the PVTGW loop holds by reference: read ... *)
Definition get_pvtgw (regionIdx : nat) (st : WetHumidGasPvt) : Result FamilyTables :=
  gasMuRvSat ← at_index (gasMuRvSat_ st) regionIdx;
  invGasBRvSat ← at_index (inverseGasBRvSat_ st) regionIdx;
  invSatGasB ← at_index (inverseSaturatedGasB_ st) regionIdx;
  invSatGasBMu ← at_index (inverseSaturatedGasBMu_ st) regionIdx;
  waterVaporizationFac ←
    at_index (saturatedWaterVaporizationFactorTable_ st) regionIdx;
  mret {| f_gasMu := gasMuRvSat; f_invGasB := invGasBRvSat;
          f_invSatGasB := invSatGasB; f_invSatGasBMu := invSatGasBMu;
          f_vaporizationFac := waterVaporizationFac |}.

(** ... and written. *)
Definition set_pvtgw (regionIdx : nat) (ft : FamilyTables) (st : WetHumidGasPvt)
    : WetHumidGasPvt :=
  {| gasReferenceDensity_ := gasReferenceDensity_ st;
     oilReferenceDensity_ := oilReferenceDensity_ st;
     waterReferenceDensity_ := waterReferenceDensity_ st;
     inverseGasBRvwSat_ := inverseGasBRvwSat_ st;
     inverseGasBRvSat_ := <[regionIdx := f_invGasB ft]> (inverseGasBRvSat_ st);
     gasMuRvwSat_ := gasMuRvwSat_ st;
     gasMuRvSat_ := <[regionIdx := f_gasMu ft]> (gasMuRvSat_ st);
     inverseSaturatedGasB_ :=
       <[regionIdx := f_invSatGasB ft]> (inverseSaturatedGasB_ st);
     inverseSaturatedGasBMu_ :=
       <[regionIdx := f_invSatGasBMu ft]> (inverseSaturatedGasBMu_ st);
     saturatedWaterVaporizationFactorTable_ :=
       <[regionIdx := f_vaporizationFac ft]>
         (saturatedWaterVaporizationFactorTable_ st);
     saturatedWaterVaporizationSaltFactorTable_ :=
       saturatedWaterVaporizationSaltFactorTable_ st;
     saturatedOilVaporizationFactorTable_ :=
       saturatedOilVaporizationFactorTable_ st;
     vapPar1_ := vapPar1_ st;
     enableRwgSalt_ := enableRwgSalt_ st |}.

(** The same for the PVTG loop. *)
Definition get_pvtg (regionIdx : nat) (st : WetHumidGasPvt) : Result FamilyTables :=
  gasMuRvwSat ← at_index (gasMuRvwSat_ st) regionIdx;
  invGasBRvwSat ← at_index (inverseGasBRvwSat_ st) regionIdx;
  invSatGasB ← at_index (inverseSaturatedGasB_ st) regionIdx;
  invSatGasBMu ← at_index (inverseSaturatedGasBMu_ st) regionIdx;
  oilVaporizationFac ←
    at_index (saturatedOilVaporizationFactorTable_ st) regionIdx;
  mret {| f_gasMu := gasMuRvwSat; f_invGasB := invGasBRvwSat;
          f_invSatGasB := invSatGasB; f_invSatGasBMu := invSatGasBMu;
          f_vaporizationFac := oilVaporizationFac |}.

Definition set_pvtg (regionIdx : nat) (ft : FamilyTables) (st : WetHumidGasPvt)
    : WetHumidGasPvt :=
  {| gasReferenceDensity_ := gasReferenceDensity_ st;
     oilReferenceDensity_ := oilReferenceDensity_ st;
     waterReferenceDensity_ := waterReferenceDensity_ st;
     inverseGasBRvwSat_ := <[regionIdx := f_invGasB ft]> (inverseGasBRvwSat_ st);
     inverseGasBRvSat_ := inverseGasBRvSat_ st;
     gasMuRvwSat_ := <[regionIdx := f_gasMu ft]> (gasMuRvwSat_ st);
     gasMuRvSat_ := gasMuRvSat_ st;
     inverseSaturatedGasB_ :=
       <[regionIdx := f_invSatGasB ft]> (inverseSaturatedGasB_ st);
     inverseSaturatedGasBMu_ :=
       <[regionIdx := f_invSatGasBMu ft]> (inverseSaturatedGasBMu_ st);
     saturatedWaterVaporizationFactorTable_ :=
       saturatedWaterVaporizationFactorTable_ st;
     saturatedWaterVaporizationSaltFactorTable_ :=
       saturatedWaterVaporizationSaltFactorTable_ st;
     saturatedOilVaporizationFactorTable_ :=
       <[regionIdx := f_vaporizationFac ft]>
         (saturatedOilVaporizationFactorTable_ st);
     vapPar1_ := vapPar1_ st;
     enableRwgSalt_ := enableRwgSalt_ st |}.

(** Modelled from the spec: [initEnd] (declared in the header) is the
    finalize step: it freezes the state it is given. *)
Definition initEnd (st : WetHumidGasPvt) : WetHumidGasPvt := st.

(** ** initFromState *)

(** The loop over [innerIdx] of the RWGSALT block. *)
Definition appendSalt (outerIdx : nat) (underSaturatedTable : list RwgsaltRow)
    (innerIdx : nat) (waterVaporizationFac : Tabulated2D) : Result Tabulated2D :=
  row ← at_index underSaturatedTable innerIdx;
  let saltConcentration := C_SALT row in
  let rvwSat := RVW row in
  appendSamplePoint outerIdx saltConcentration rvwSat waterVaporizationFac.

(** The loop over [outerIdx] of the RWGSALT block. *)
Definition saltRow (rwgsaltTable : RwgsaltTable) (outerIdx : nat)
    (waterVaporizationFac : Tabulated2D) : Result Tabulated2D :=
  underSaturatedTable ← salt_getUnderSaturatedTable rwgsaltTable outerIdx;
  pg ← at_index (salt_getSaturatedTable rwgsaltTable) outerIdx;
  forRange (appendSalt outerIdx underSaturatedTable)
    0 (numRows underSaturatedTable) (appendXPos pg waterVaporizationFac).

(** The body of the loop over the regions of the RWGSALT block. *)
Definition saltRegion (rwgsaltTables : list RwgsaltTable) (regionIdx : nat)
    (st : WetHumidGasPvt) : Result WetHumidGasPvt :=
  rwgsaltTable ← at_index rwgsaltTables regionIdx;
  let saturatedTable := salt_getSaturatedTable rwgsaltTable in
  requireTwoRows RWGSALT saturatedTable;;
  waterVaporizationFac ←
    at_index (saturatedWaterVaporizationSaltFactorTable_ st) regionIdx;
  t ← forRange (saltRow rwgsaltTable) 0 (numRows saturatedTable)
        waterVaporizationFac;
  mret (set_saltFactorTable regionIdx t st).

(** The body of the loop "Table PVTGW". *)
Definition pvtgwRegion (pvtgwTables : list PvtxTable) (regionIdx : nat)
    (st : WetHumidGasPvt) : Result WetHumidGasPvt :=
  pvtgwTable ← at_index pvtgwTables regionIdx;
  requireTwoRows PVTGW (getSaturatedTable pvtgwTable);;
  ft ← get_pvtgw regionIdx st;
  ft' ← fillFamilyTables PVTGW pvtgwTable ft;
  mret (set_pvtgw regionIdx ft' st).

(** The body of the loop "Table PVTG". *)
Definition pvtgRegion (pvtgTables : list PvtxTable) (regionIdx : nat)
    (st : WetHumidGasPvt) : Result WetHumidGasPvt :=
  pvtgTable ← at_index pvtgTables regionIdx;
  requireTwoRows PVTG (getSaturatedTable pvtgTable);;
  ft ← get_pvtg regionIdx st;
  ft' ← fillFamilyTables PVTG pvtgTable ft;
  mret (set_pvtg regionIdx ft' st).

(** The body of the first loop over the regions. *)
Definition densityRegion (densityTable : list DensityRecord) (regionIdx : nat)
    (st : WetHumidGasPvt) : Result WetHumidGasPvt :=
  d ← at_index densityTable regionIdx;
  let rhoRefO := oil d in
  let rhoRefG := gas d in
  let rhoRefW := water d in
  mret (setReferenceDensities regionIdx rhoRefO rhoRefG rhoRefW st).

(** The end of [initFromState]: the vaporization parameter of the first
    report step. *)
Definition readVapPars (schedule : Schedule) (st : WetHumidGasPvt)
    : Result WetHumidGasPvt :=
  let st := set_vapPar1 s_zero st in
  step ← at_index schedule 0;
  let oilVap := oilvap step in
  mret (match getType oilVap with
        | VAPPARS => set_vapPar1 (vap1 oilVap) st
        | _ => st
        end).

(** [initFromState], on a newly constructed object. *)
Definition initFromState (eclState : EclipseState) (schedule : Schedule)
    : Result WetHumidGasPvt :=
  let pvtgwTables := getPvtgwTables eclState in
  let pvtgTables := getPvtgTables eclState in
  let densityTable := getDensityTable eclState in
  if bool_decide (length pvtgwTables ≠ length densityTable)
  then Raise (TableMismatch PVTGW (length pvtgwTables) (length densityTable))
  else
  if bool_decide (length pvtgTables ≠ length densityTable)
  then Raise (TableMismatch PVTG (length pvtgTables) (length densityTable))
  else
  let numRegions := length pvtgwTables in
  let st := setNumRegions numRegions in
  st ← forRange (densityRegion densityTable) 0 numRegions st;
  let enableRwgSalt := negb (bool_decide (getRwgSaltTables eclState = [])) in
  let st := set_enableRwgSalt enableRwgSalt st in
  st ← (if enableRwgSalt
        then forRange (saltRegion (getRwgSaltTables eclState)) 0 numRegions st
        else Ok st);
  st ← forRange (pvtgwRegion pvtgwTables) 0 numRegions st;
  st ← forRange (pvtgRegion pvtgTables) 0 numRegions st;
  st ← readVapPars schedule st;
  mret (initEnd st).

End WetHumidGasPvt.

Arguments SaturatedRow Scalar : clear implicits.
Arguments UnderSaturatedRow Scalar : clear implicits.
Arguments PvtxTable Scalar : clear implicits.
Arguments RwgsaltRow Scalar : clear implicits.
Arguments RwgsaltTable Scalar : clear implicits.
Arguments DensityRecord Scalar : clear implicits.
Arguments EclipseState Scalar : clear implicits.
Arguments OilVaporizationProperties Scalar : clear implicits.
Arguments ScheduleState Scalar : clear implicits.
Arguments Schedule Scalar : clear implicits.
Arguments Tabulated1D Scalar : clear implicits.
Arguments FamilyTables Scalar : clear implicits.
Arguments Extension Scalar : clear implicits.
Arguments Extraction Scalar : clear implicits.
Arguments WetHumidGasPvt Scalar : clear implicits.


Abbreviation SimpleTable := (list (UnderSaturatedRow _)) (only parsing).
Abbreviation Tabulated2D := (list (_ * list (_ * _))) (only parsing).

(** ** The arithmetic *)

(** IEEE 754 binary64, the arithmetic of [WetHumidGasPvt<double>]. *)
#[global] Instance double_ops : ScalarOps float := {|
  s_zero := 0%float;
  s_one := 1%float;
  s_two := 2%float;
  s_add := PrimFloat.add;
  s_sub := PrimFloat.sub;
  s_mul := PrimFloat.mul;
  s_div := PrimFloat.div;
  s_ltb := PrimFloat.ltb
|}.

(** ** The vocabulary of the specification *)

Section Vocabulary.

Context {Scalar : Type} `{ScalarOps Scalar}.

Local Abbreviation Tabulated2D :=
  (list (Scalar * list (Scalar * Scalar))) (only parsing).

(** The inner samples of the outer node [i]. *)
Definition branch (t : Tabulated2D) (i : nat) : list (Scalar * Scalar) :=
  match t !! i with
  | Some node => node.2
  | None => []
  end.

(** The number of inner samples of every outer node. *)
Definition shape (t : Tabulated2D) : list nat :=
  (λ node : Scalar * list (Scalar * Scalar), length node.2) <$> t.

(** No degenerate branch: every outer node has at least two inner samples. *)
Definition complete (t : Tabulated2D) : Prop :=
  Forall (λ node : Scalar * list (Scalar * Scalar), 2 ≤ length node.2) t.

(** [t] with the samples [pts] added at the end of the branch of node [i]. *)
Definition appendSamples (i : nat) (pts : list (Scalar * Scalar))
    (t : Tabulated2D) : Tabulated2D :=
  alter (λ node, (node.1, node.2 ++ pts)) i t.

(** Each element is below the next one. *)
Fixpoint increasing (l : list Scalar) : Prop :=
  match l with
  | a :: rest =>
      match rest with
      | b :: _ => s_ltb a b = true ∧ increasing rest
      | [] => True
      end
  | [] => True
  end.

(** The ratios the extension computes for a node whose last ratio is
    [last], along the ratio column [ratios] of the master table: each is the
    one before it plus the step of the master, [lastRv + diffRv]. *)
Fixpoint synthesizedRatios (last : Scalar) (ratios : list Scalar)
    : list Scalar :=
  match ratios with
  | r0 :: rest =>
      match rest with
      | r1 :: _ =>
          let newRv := (last + (r1 - r0))%Sc in
          newRv :: synthesizedRatios newRv rest
      | [] => []
      end
  | [] => []
  end.

(** No step is absorbed: each [lastRv + diffRv], as the arithmetic of
    [Scalar] computes it, is above [lastRv]. *)
Fixpoint stepsKept (last : Scalar) (ratios : list Scalar) : Prop :=
  match ratios with
  | r0 :: rest =>
      match rest with
      | r1 :: _ =>
          let newRv := (last + (r1 - r0))%Sc in
          s_ltb last newRv = true ∧ stepsKept newRv rest
      | [] => True
      end
  | [] => True
  end.

(** The relative change [x = (v1 - v0) / ((v0 + v1) / 2)] between two
    consecutive samples of the master branch, as the specification writes
    it. *)
Definition relativeChange (v0 v1 : Scalar) : Scalar :=
  ((v1 - v0) / ((v0 + v1) / s_two))%Sc.

(** The point the specification synthesizes from the last known point
    [last] of the node and the consecutive master samples [m0], [m1]:
    [newRatio = r + (r1 - r0)], [newB = B * (1 + x/2) / (1 - x/2)],
    [newMu = mu * (1 + xMu/2) / (1 - xMu/2)]. *)
Definition extrapolatedPoint (last m0 m1 : UnderSaturatedRow Scalar)
    : UnderSaturatedRow Scalar :=
  let x := relativeChange (BG m0) (BG m1) in
  let xMu := relativeChange (MUG m0) (MUG m1) in
  {| R := (R last + (R m1 - R m0))%Sc;
     BG := (BG last * (s_one + x / s_two) / (s_one - x / s_two))%Sc;
     MUG := (MUG last * (s_one + xMu / s_two) / (s_one - xMu / s_two))%Sc |}.

(** The rule applied per consecutive master pair, each point accumulating
    from the one synthesized before it. *)
Fixpoint extrapolatedBranch (last : UnderSaturatedRow Scalar)
    (master : SimpleTable)
    : list (UnderSaturatedRow Scalar) :=
  match master with
  | m0 :: rest =>
      match rest with
      | m1 :: _ =>
          let p := extrapolatedPoint last m0 m1 in
          p :: extrapolatedBranch p rest
      | [] => []
      end
  | [] => []
  end.

(** The sample a point gives to the inverse-B table and to the viscosity
    table. *)
Definition inverseBSample (p : UnderSaturatedRow Scalar) : Scalar * Scalar :=
  (R p, (s_one / BG p)%Sc).

Definition viscositySample (p : UnderSaturatedRow Scalar) : Scalar * Scalar :=
  (R p, MUG p).

(** The saturated curves 1/B and 1/(mu B) over the pressure, from the
    columns PG, BG and MUG of the saturated table of [pvtTable]. *)
Definition saturatedInverseB (pvtTable : PvtxTable Scalar) : Tabulated1D Scalar :=
  {| xValues := sat_PG <$> getSaturatedTable pvtTable;
     yValues := (λ row, (s_one / sat_BG row)%Sc) <$> getSaturatedTable pvtTable |}.

Definition saturatedInverseBMu (pvtTable : PvtxTable Scalar)
    : Tabulated1D Scalar :=
  {| xValues := sat_PG <$> getSaturatedTable pvtTable;
     yValues := (λ row, (s_one / (sat_MUG row * sat_BG row))%Sc)
                  <$> getSaturatedTable pvtTable |}.

(** The branches of the regions below [k] are complete, and from [k] on the
    inverse-B table and the viscosity table of a region have the same
    numbers of samples. *)
Definition completedBelow (k : nat) (invB mu : list Tabulated2D) : Prop :=
  (∀ r t, r < k → invB !! r = Some t → complete t) ∧
  (∀ r t, r < k → mu !! r = Some t → complete t) ∧
  (∀ r a b, k ≤ r → invB !! r = Some a → mu !! r = Some b → shape a = shape b).

(** The 2-D tables (inverse B, viscosity) with the measured samples only: a
    node per saturated row, with the samples of its undersaturated table. *)
Definition rawTables (pvtTable : PvtxTable Scalar)
    : Tabulated2D * Tabulated2D :=
  (zip_with (λ row t, (sat_PG row, inverseBSample <$> t))
     (getSaturatedTable pvtTable) (underSaturatedTables pvtTable),
   zip_with (λ row t, (sat_PG row, viscositySample <$> t))
     (getSaturatedTable pvtTable) (underSaturatedTables pvtTable)).

(** A table as the input deck gives it: one undersaturated table per row of
    the saturated table, each with one row at least. *)
Definition wellFormed (pvtTable : PvtxTable Scalar) : Prop :=
  length (underSaturatedTables pvtTable)
    = numRows (getSaturatedTable pvtTable) ∧
  Forall (λ t : list (UnderSaturatedRow Scalar), 0 < numRows t)
    (underSaturatedTables pvtTable).

(** The last row of the saturated table has an undersaturated table with two
    rows or more. *)
Definition lastNodeMeasured (pvtTable : PvtxTable Scalar) : Prop :=
  ∃ k last,
    numRows (getSaturatedTable pvtTable) = S k ∧
    getUnderSaturatedTable pvtTable k = Ok last ∧
    1 < numRows last.

End Vocabulary.

(** ** Sample inputs *)

Definition usRow {Scalar} (r b mu : Scalar) : UnderSaturatedRow Scalar :=
  {| R := r; BG := b; MUG := mu |}.

Definition satRow {Scalar} (pg r b mu : Scalar) : SaturatedRow Scalar :=
  {| sat_PG := pg; sat_R := r; sat_BG := b; sat_MUG := mu |}.

Definition step {Scalar} (type : OilVaporization) (v1 v2 : Scalar)
    : ScheduleState Scalar :=
  {| oilvap := {| getType := type; vap1 := v1; vap2 := v2 |} |}.

(** Inputs in [double]. *)
Module Sample.

Local Open Scope float_scope.

(** The single sample of a degenerate node, and the rows of its master. *)
Definition s1 : UnderSaturatedRow float := usRow 1 0.5 3.
Definition m0 : UnderSaturatedRow float := usRow 1.5 0.25 4.
Definition m1 : UnderSaturatedRow float := usRow 2 0.5 5.
Definition m2 : UnderSaturatedRow float := usRow 3 0.75 6.

(** Three pressure nodes, each with measured undersaturated samples. *)
Definition full : PvtxTable float :=
  {| getSaturatedTable :=
       [satRow 10 0.5 1 2; satRow 20 1 0.5 3; satRow 30 1.5 0.25 4];
     underSaturatedTables :=
       [[usRow 0.5 1 2; usRow 0.75 2 2.5];
        [usRow 1 0.5 3; usRow 1.25 0.625 3.5];
        [m0; m1; m2]] |}.

(** The same with a single sample at the node 1: the node 2 is its master. *)
Definition degenerate : PvtxTable float :=
  {| getSaturatedTable :=
       [satRow 10 0.5 1 2; satRow 20 1 0.5 3; satRow 30 1.5 0.25 4];
     underSaturatedTables :=
       [[usRow 0.5 1 2; usRow 0.75 2 2.5];
        [s1];
        [m0; m1; m2]] |}.

(** Two pressure nodes, the last one with a single sample. *)
Definition lastDegenerate : PvtxTable float :=
  {| getSaturatedTable := [satRow 10 0.5 1 2; satRow 20 1 0.5 3];
     underSaturatedTables :=
       [[usRow 0.5 1 2; usRow 0.75 2 2.5]; [s1]] |}.

(** A saturated table with one row, whose node has a single sample. *)
Definition oneRow : PvtxTable float :=
  {| getSaturatedTable := [satRow 10 0.5 1 2];
     underSaturatedTables := [[usRow 0.5 1 2]] |}.

Definition salt : RwgsaltTable float :=
  {| salt_getSaturatedTable := [10; 20];
     salt_underSaturatedTables :=
       [[{| C_SALT := 0; RVW := 0.5 |}; {| C_SALT := 1; RVW := 0.25 |}];
        [{| C_SALT := 0; RVW := 0.75 |}]] |}.

Definition density : DensityRecord float :=
  {| oil := 800; water := 1000; gas := 1 |}.

Definition firstStep : ScheduleState float := step VAPPARS 0.5 0.
Definition secondStep : ScheduleState float := step DRDT 4 8.

Definition schedule : Schedule float := [firstStep; secondStep].

(** Two regions without salt tables. *)
Definition eclState : EclipseState float :=
  {| getPvtgwTables := [full; degenerate];
     getPvtgTables := [degenerate; full];
     getDensityTable := [density; density];
     getRwgSaltTables := [] |}.

(** One region, two salt tables. *)
Definition twoSaltTables : EclipseState float :=
  {| getPvtgwTables := [full];
     getPvtgTables := [full];
     getDensityTable := [density];
     getRwgSaltTables := [salt; salt] |}.

(** Two regions, one salt table. *)
Definition oneSaltTable : EclipseState float :=
  {| getPvtgwTables := [full; full];
     getPvtgTables := [full; full];
     getDensityTable := [density; density];
     getRwgSaltTables := [salt] |}.

(** One region: the last node of PVTGW has a single sample, and the
    saturated table of PVTG has one row. *)
Definition twoDefects : EclipseState float :=
  {| getPvtgwTables := [lastDegenerate];
     getPvtgTables := [oneRow];
     getDensityTable := [density];
     getRwgSaltTables := [] |}.

(** One region whose PVTGW table has a saturated table with one row. *)
Definition oneRowState : EclipseState float :=
  {| getPvtgwTables := [oneRow];
     getPvtgTables := [full];
     getDensityTable := [density];
     getRwgSaltTables := [] |}.

(** Three regions of PVTGW for two density records. *)
Definition mismatch : EclipseState float :=
  {| getPvtgwTables := [full; full; full];
     getPvtgTables := [full; full];
     getDensityTable := [density; density];
     getRwgSaltTables := [] |}.

(** The object [initFromState] makes of [eclState]. *)
Definition finished : WetHumidGasPvt float :=
  Eval vm_compute in
    match initFromState eclState schedule with
    | Ok st => st
    | Raise _ => setNumRegions 0
    end.

Definition emptyTables : FamilyTables float :=
  {| f_gasMu := []; f_invGasB := [];
     f_invSatGasB := emptyTabulated1D; f_invSatGasBMu := emptyTabulated1D;
     f_vaporizationFac := emptyTabulated1D |}.

(** A node with the single sample of ratio 2^53, and a master branch with the
    ratios 0 and 1. *)
Definition large : UnderSaturatedRow float := usRow 9007199254740992 1 1.

Definition unitMaster : list (UnderSaturatedRow float) :=
  [usRow 0 1 1; usRow 1 2 2].

End Sample.

(** ** The vocabulary of the finished object *)

Section FinishedObject.

Context {Scalar : Type} `{ScalarOps Scalar}.

Local Abbreviation Tabulated2D :=
  (list (Scalar * list (Scalar * Scalar))) (only parsing).

(** The tables of a region the loop body of a family finds in a new object:
    [setNumRegions] has made them empty. *)
Definition newFamilyTables : FamilyTables Scalar :=
  {| f_gasMu := []; f_invGasB := [];
     f_invSatGasB := emptyTabulated1D; f_invSatGasBMu := emptyTabulated1D;
     f_vaporizationFac := emptyTabulated1D |}.

(** Where a 2-D table has its samples: the x positions, each with the y
    positions of its branch. *)
Definition positions (t : Tabulated2D) : list (Scalar * list Scalar) :=
  (λ node : Scalar * list (Scalar * Scalar), (node.1, node.2.*1)) <$> t.

(** [t'] is [t] with samples added at the end of branches that had fewer than
    two: the x positions and the samples of [t] are kept, in their order. *)
Definition extendsBranches (t t' : Tabulated2D) : Prop :=
  numX t' = numX t ∧
  ∀ i x samples, t !! i = Some (x, samples) →
    ∃ pts, t' !! i = Some (x, samples ++ pts) ∧
           (2 ≤ length samples → pts = []).

(** The node [xIdx] of [pvtTable] has a single undersaturated row and no
    node after it has two or more. *)
Definition masterless (pvtTable : PvtxTable Scalar) (xIdx : nat) : Prop :=
  xIdx < numRows (getSaturatedTable pvtTable) ∧
  (∃ single, getUnderSaturatedTable pvtTable xIdx = Ok [single]) ∧
  ∀ j, xIdx < j < numRows (getSaturatedTable pvtTable) →
    ∃ tj, getUnderSaturatedTable pvtTable j = Ok tj ∧ numRows tj ≤ 1.

(** The node [m] is the master of the node [xIdx]: the first node after it
    whose undersaturated table, [masterTable], has two rows or more. *)
Definition masterOf (pvtTable : PvtxTable Scalar) (xIdx m : nat)
    (masterTable : SimpleTable) : Prop :=
  xIdx < m < numRows (getSaturatedTable pvtTable) ∧
  getUnderSaturatedTable pvtTable m = Ok masterTable ∧
  1 < numRows masterTable ∧
  ∀ j, xIdx < j < m →
    ∃ tj, getUnderSaturatedTable pvtTable j = Ok tj ∧ numRows tj ≤ 1.

(** The saturated ratio (RW of PVTGW, RV of PVTG) over the pressure. *)
Definition saturatedRatio (pvtTable : PvtxTable Scalar) : Tabulated1D Scalar :=
  {| xValues := sat_PG <$> getSaturatedTable pvtTable;
     yValues := sat_R <$> getSaturatedTable pvtTable |}.

(** The samples of a salt table: a node per saturated row, with the pairs
    (C_SALT, RVW) of its undersaturated table. *)
Definition saltSample (row : RwgsaltRow Scalar) : Scalar * Scalar :=
  (C_SALT row, RVW row).

Definition saltSamples (rwgsaltTable : RwgsaltTable Scalar) : Tabulated2D :=
  zip_with (λ pg t, (pg, saltSample <$> t))
    (salt_getSaturatedTable rwgsaltTable)
    (salt_underSaturatedTables rwgsaltTable).

(** A salt table with an undersaturated table per saturated row. *)
Definition saltWellFormed (rwgsaltTable : RwgsaltTable Scalar) : Prop :=
  length (salt_underSaturatedTables rwgsaltTable)
    = numRows (salt_getSaturatedTable rwgsaltTable).

(** An input deck whose tables are well formed: the PVTGW and PVTG tables
    are, and there is no salt table or a well-formed one for every region. *)
Definition wellFormedDeck (eclState : EclipseState Scalar) : Prop :=
  Forall wellFormed (getPvtgwTables eclState) ∧
  Forall wellFormed (getPvtgTables eclState) ∧
  (getRwgSaltTables eclState = [] ∨
   length (getPvtgwTables eclState) ≤ length (getRwgSaltTables eclState) ∧
   Forall saltWellFormed (getRwgSaltTables eclState)).

(** The exception [e] tells a defect of the table of the family [name]:
    fewer than two saturated rows, or two or more and a masterless node. *)
Definition faulty (name : TableName) (pvtTable : PvtxTable Scalar) (e : Error)
    : Prop :=
  e = InsufficientData name ∧ numRows (getSaturatedTable pvtTable) < 2 ∨
  e = ExtrapolationImpossible name ∧
  2 ≤ numRows (getSaturatedTable pvtTable) ∧
  ∃ xIdx, masterless pvtTable xIdx.

(** A table without these defects. *)
Definition accepted (pvtTable : PvtxTable Scalar) : Prop :=
  2 ≤ numRows (getSaturatedTable pvtTable) ∧
  ∀ xIdx, ¬ masterless pvtTable xIdx.

(** The salt tables have passed: there is none, or every region has one
    with two saturated rows or more. *)
Definition saltAccepted (eclState : EclipseState Scalar) : Prop :=
  getRwgSaltTables eclState = [] ∨
  ∀ r, r < length (getPvtgwTables eclState) →
    ∃ rwgsaltTable,
      getRwgSaltTables eclState !! r = Some rwgsaltTable ∧
      2 ≤ numRows (salt_getSaturatedTable rwgsaltTable).

(** The two comparisons of counts at the head of [initFromState] pass. *)
Definition countsAgree (eclState : EclipseState Scalar) : Prop :=
  length (getPvtgwTables eclState) = length (getDensityTable eclState) ∧
  length (getPvtgTables eclState) = length (getDensityTable eclState).

(** A salt table without a defect: an undersaturated table per saturated
    row, and two saturated rows or more. *)
Definition saltPasses (rwgsaltTable : RwgsaltTable Scalar) : Prop :=
  saltWellFormed rwgsaltTable ∧
  2 ≤ numRows (salt_getSaturatedTable rwgsaltTable).

(** The RWGSALT block has nothing to object to: there is no salt table, or
    every region has one without a defect. *)
Definition saltStagePasses (eclState : EclipseState Scalar) : Prop :=
  getRwgSaltTables eclState = [] ∨
  ∀ r, r < length (getPvtgwTables eclState) →
    ∃ rwgsaltTable,
      getRwgSaltTables eclState !! r = Some rwgsaltTable ∧
      saltPasses rwgsaltTable.

(** A PVTGW or PVTG table without a defect: well formed, two saturated rows
    or more, and measured undersaturated samples at the last node. *)
Definition passes (pvtTable : PvtxTable Scalar) : Prop :=
  wellFormed pvtTable ∧
  2 ≤ numRows (getSaturatedTable pvtTable) ∧
  lastNodeMeasured pvtTable.

End FinishedObject.

(** Further inputs in [double], and the objects [initFromState] makes. *)
Module SampleMore.

(** The object [initFromState] makes of [Sample.twoSaltTables]. *)
Definition finishedSalt : WetHumidGasPvt float :=
  Eval vm_compute in
    match initFromState Sample.twoSaltTables Sample.schedule with
    | Ok st => st
    | Raise _ => setNumRegions 0
    end.

(** One region whose PVTG table has a saturated table with one row. *)
Definition shortPvtg : EclipseState float :=
  {| getPvtgwTables := [Sample.full];
     getPvtgTables := [Sample.oneRow];
     getDensityTable := [Sample.density];
     getRwgSaltTables := [] |}.

(** Four pressure nodes, the nodes 1 and 2 with a single sample: the master
    of both is the node 3, which the scan from the node 1 reaches after the
    node 2. *)
Definition twoDegenerate : PvtxTable float :=
  {| getSaturatedTable :=
       [satRow 10 0.5 1 2; satRow 20 1 0.5 3; satRow 25 1.25 0.375 3.5;
        satRow 30 1.5 0.25 4]%float;
     underSaturatedTables :=
       [[usRow 0.5 1 2; usRow 0.75 2 2.5]%float;
        [Sample.s1];
        [usRow 1.25 0.375 3.5]%float;
        [Sample.m0; Sample.m1; Sample.m2]] |}.

(** Two regions: the PVTGW table of the region 1 has a single sample at its
    last node. *)
Definition masterlessSecond : EclipseState float :=
  {| getPvtgwTables := [Sample.full; Sample.lastDegenerate];
     getPvtgTables := [Sample.full; Sample.full];
     getDensityTable := [Sample.density; Sample.density];
     getRwgSaltTables := [] |}.

(** Two regions: the PVTG table of the region 1 has a saturated table with
    one row. *)
Definition shortSecond : EclipseState float :=
  {| getPvtgwTables := [Sample.full; Sample.degenerate];
     getPvtgTables := [Sample.full; Sample.oneRow];
     getDensityTable := [Sample.density; Sample.density];
     getRwgSaltTables := [] |}.

(** A salt table with one saturated row. *)
Definition shortSalt : RwgsaltTable float :=
  {| salt_getSaturatedTable := [10]%float;
     salt_underSaturatedTables :=
       [[{| C_SALT := 0; RVW := 0.5 |}]]%float |}.

(** Two regions: the salt table of the region 1 has one saturated row, and
    the PVTGW table of the region 0 a saturated table with one row. *)
Definition shortSaltSecond : EclipseState float :=
  {| getPvtgwTables := [Sample.oneRow; Sample.full];
     getPvtgTables := [Sample.full; Sample.full];
     getDensityTable := [Sample.density; Sample.density];
     getRwgSaltTables := [Sample.salt; shortSalt] |}.

(** A PVTG table whose saturated table differs from the one of
    [Sample.full] in its number of rows and in every column. *)
Definition humid : PvtxTable float :=
  {| getSaturatedTable :=
       [satRow 15 0.125 2 1.5; satRow 25 0.25 4 2.5]%float;
     underSaturatedTables :=
       [[usRow 0.125 2 1.5; usRow 0.25 2.5 1.75];
        [usRow 0.25 4 2.5; usRow 0.5 4.5 3]]%float |}.

(** One region with the PVTGW table [Sample.full] and the PVTG table
    [humid]. *)
Definition twoFamilies : EclipseState float :=
  {| getPvtgwTables := [Sample.full];
     getPvtgTables := [humid];
     getDensityTable := [Sample.density];
     getRwgSaltTables := [] |}.

(** The object [initFromState] makes of [twoFamilies]. *)
Definition finishedFamilies : WetHumidGasPvt float :=
  Eval vm_compute in
    match initFromState twoFamilies Sample.schedule with
    | Ok st => st
    | Raise _ => setNumRegions 0
    end.

End SampleMore.

(** ** The extensions of the restart files *)

(** [FileExtension::restart] of [OutputStream.cpp], which names the restart
    file of a report step. The report step, an [int], is an integer; the
    stream writes it in decimal digits, a minus sign in front of a negative
    one. *)

Module OutputStream.

(** [os << std::setfill(c) << std::setw(w) << s], with the adjustment to the
    right of a new stream: [c] is written in front of [s] until the width
    [w] is reached. *)
Definition setw_setfill (w : nat) (c : ascii) (s : string) : string :=
  Nat.iter (w - String.length s) (String c) s.

(** [FileExtension::restart] *)
Definition restart (rptStep : Z) (formatted unified : bool) : string :=
  if unified then (if formatted then "FUNRST" else "UNRST")
  else
    String (if formatted then "F" else "X")%char
      (setw_setfill 4 "0" (pretty rptStep)).

End OutputStream.

(** * Properties *)

(** ** Exceptions and loops *)

Lemma bind_Ok {A B} (m : Result A) (f : A → Result B) (b : B) :
  m ≫= f = Ok b ↔ ∃ a, m = Ok a ∧ f a = Ok b.
Proof.
  destruct m as [a|e]; simpl; split.
  - intros Hf. by exists a.
  - by intros (a' & [= <-] & Hf).
  - discriminate.
  - by intros (a' & [=] & _).
Qed.

Lemma bind_Raise {A B} (m : Result A) (f : A → Result B) (e : Error) :
  m ≫= f = Raise e ↔ m = Raise e ∨ ∃ a, m = Ok a ∧ f a = Raise e.
Proof.
  destruct m as [a|e']; simpl; split.
  - intros Hf. right. by exists a.
  - by intros [[=] | (a' & [= <-] & Hf)].
  - intros [= <-]. by left.
  - by intros [[= <-] | (a' & [=] & _)].
Qed.

Lemma Ok_bind {A B} (a : A) (f : A → Result B) : Ok a ≫= f = f a.
Proof. done. Qed.

Lemma isOk_bind {A B} (m : Result A) (f : A → Result B) :
  isOk (m ≫= f) → isOk m.
Proof. intros [b (a & Hm & _)%bind_Ok]. by exists a. Qed.

Lemma not_isOk_Raise {A} (e : Error) : ¬ isOk (@Raise A e).
Proof. by intros [a [=]]. Qed.

Lemma assert_Ok (b : bool) (u : unit) : assert b = Ok u ↔ b = true.
Proof. destruct b, u; simpl; split; congruence. Qed.

Lemma at_index_Ok {A} (v : list A) (i : nat) (a : A) :
  at_index v i = Ok a ↔ v !! i = Some a.
Proof. unfold at_index. destruct (v !! i); split; congruence. Qed.

Lemma at_index_lt {A} (v : list A) (i : nat) :
  i < length v → ∃ a, at_index v i = Ok a ∧ v !! i = Some a.
Proof.
  intros [a Ha]%lookup_lt_is_Some. exists a. by rewrite at_index_Ok.
Qed.

Lemma at_index_ge {A} (v : list A) (i : nat) :
  length v ≤ i → at_index v i = Raise OutOfRange.
Proof. intros Hi. unfold at_index. by rewrite lookup_ge_None_2. Qed.

(** Decompose a hypothesis [m ≫= f = Ok b] as far as it goes. *)
Ltac inv_Ok H :=
  repeat match type of H with
  | _ ≫= _ = Ok _ =>
      let a := fresh "a" in
      let Ha := fresh "Ha" in
      apply bind_Ok in H as (a & Ha & H)
  end.

Lemma forRange_app {St} (body : nat → St → Result St) (i n m : nat) (s : St) :
  forRange body i (n + m) s = forRange body i n s ≫= forRange body (i + n) m.
Proof.
  revert i s. induction n as [|n IH]; intros i s; simpl.
  - by rewrite Nat.add_0_r.
  - destruct (body i s) as [s1|e]; simpl; [|done].
    rewrite IH. by replace (S i + n) with (i + S n) by lia.
Qed.

(** The invariant rule of the counted loop. *)
Lemma forRange_inv {St} (P : nat → St → Prop) (body : nat → St → Result St)
    (i n : nat) (s s' : St) :
  P i s →
  (∀ k s1 s2, i ≤ k < i + n → P k s1 → body k s1 = Ok s2 → P (S k) s2) →
  forRange body i n s = Ok s' →
  P (i + n) s'.
Proof.
  revert i s. induction n as [|n IH]; intros i s HP Hstep Hrun; simpl in *.
  - injection Hrun as <-. by rewrite Nat.add_0_r.
  - apply bind_Ok in Hrun as (s1 & Hb & Hrun).
    replace (i + S n) with (S i + n) by lia.
    apply (IH (S i) s1); [|intros k s2 s3 Hk; apply Hstep; lia|done].
    apply (Hstep i s); [lia|done..].
Qed.

(** An iteration that cannot complete stops the loop. *)
Lemma forRange_not_Ok {St} (body : nat → St → Result St) (i n k : nat) (s : St) :
  i ≤ k < i + n →
  (∀ s1, ¬ isOk (body k s1)) →
  ¬ isOk (forRange body i n s).
Proof.
  revert i s. induction n as [|n IH]; intros i s Hk Hbad [s' Hrun]; [lia|].
  simpl in Hrun. apply bind_Ok in Hrun as (s1 & Hb & Hrun).
  destruct (decide (i = k)) as [->|Hne].
  - apply (Hbad s). by exists s1.
  - apply (IH (S i) s1); [lia|done|by exists s'].
Qed.

(** The exception of the first failing iteration is the one of the loop. *)
Lemma forRange_Raise_at {St} (body : nat → St → Result St) (i n k : nat)
    (s s1 : St) (e : Error) :
  i ≤ k < i + n →
  forRange body i (k - i) s = Ok s1 →
  body k s1 = Raise e →
  forRange body i n s = Raise e.
Proof.
  intros Hk Hpre Hb.
  replace n with ((k - i) + S (n - S (k - i))) by lia.
  rewrite forRange_app, Hpre. simpl.
  replace (i + (k - i)) with k by lia. by rewrite Hb.
Qed.

(** A completed loop has completed each of its iterations. *)
Lemma forRange_Ok_at {St} (body : nat → St → Result St) (i n k : nat)
    (s s' : St) :
  forRange body i n s = Ok s' →
  i ≤ k < i + n →
  ∃ s1 s2, forRange body i (k - i) s = Ok s1 ∧ body k s1 = Ok s2.
Proof.
  intros Hrun Hk.
  replace n with ((k - i) + S (n - S (k - i))) in Hrun by lia.
  rewrite forRange_app in Hrun. apply bind_Ok in Hrun as (s1 & Hpre & Hrun).
  simpl in Hrun. apply bind_Ok in Hrun as (s2 & Hb & _).
  replace (i + (k - i)) with k in Hb by lia. eauto.
Qed.

(** A loop whose iterations complete, or raise [e] and nothing else, under
    an invariant completes or raises [e]. *)
Lemma forRange_Ok_or_Raise {St} (P : nat → St → Prop)
    (body : nat → St → Result St) (e : Error) (i n : nat) (s : St) :
  P i s →
  (∀ k s1, i ≤ k < i + n → P k s1 →
     (∃ s2, body k s1 = Ok s2 ∧ P (S k) s2) ∨ body k s1 = Raise e) →
  (∃ s', forRange body i n s = Ok s' ∧ P (i + n) s') ∨
  forRange body i n s = Raise e.
Proof.
  revert i s. induction n as [|n IH]; intros i s HP Hstep; simpl.
  - left. exists s. by rewrite Nat.add_0_r.
  - destruct (Hstep i s) as [(s2 & -> & HP2)| ->]; [lia|done| |by right].
    rewrite Ok_bind. replace (i + S n) with (S i + n) by lia.
    apply IH; [done|]. intros k s1 Hk. apply Hstep. lia.
Qed.

Lemma forRange_total {St} (P : nat → St → Prop)
    (body : nat → St → Result St) (i n : nat) (s : St) :
  P i s →
  (∀ k s1, i ≤ k < i + n → P k s1 → ∃ s2, body k s1 = Ok s2 ∧ P (S k) s2) →
  ∃ s', forRange body i n s = Ok s' ∧ P (i + n) s'.
Proof.
  revert i s. induction n as [|n IH]; intros i s HP Hstep; simpl.
  - exists s. by rewrite Nat.add_0_r.
  - destruct (Hstep i s) as (s2 & -> & HP2); [lia|done|].
    rewrite Ok_bind. replace (i + S n) with (S i + n) by lia.
    apply IH; [done|]. intros k s1 Hk. apply Hstep. lia.
Qed.

(** A loop that raises does so in one of its iterations, after the ones
    before it have completed. *)
Lemma forRange_Raise {St} (body : nat → St → Result St) (i n : nat) (s : St)
    (e : Error) :
  forRange body i n s = Raise e →
  ∃ k s1, i ≤ k < i + n ∧ forRange body i (k - i) s = Ok s1 ∧
          body k s1 = Raise e.
Proof.
  revert i s. induction n as [|n IH]; intros i s Hrun; [done|].
  simpl in Hrun. apply bind_Raise in Hrun as [Hb | (s1 & Hb & Hrun)].
  - exists i, s. rewrite Nat.sub_diag. split_and!; [lia..|done|done].
  - apply IH in Hrun as (k & s2 & Hk & Hpre & Hbody).
    exists k, s2. split_and!; [lia..| |done].
    replace (k - i) with (S (k - S i)) by lia. simpl. by rewrite Hb.
Qed.

Lemma forRange_lowLevel {St} (body : nat → St → Result St) (i n : nat) (s : St)
    (e : Error) :
  (∀ k s1, body k s1 = Raise e → lowLevel e) →
  forRange body i n s = Raise e → lowLevel e.
Proof. intros Hbody (k & s1 & _ & _ & Hb)%forRange_Raise. eauto. Qed.

Lemma assert_Raise (b : bool) (e : Error) : assert b = Raise e → lowLevel e.
Proof. destruct b; [done|]. intros [= <-]. by left. Qed.

Lemma at_index_Raise {A} (v : list A) (i : nat) (e : Error) :
  at_index v i = Raise e → lowLevel e.
Proof. unfold at_index. destruct (v !! i); [done|]. intros [= <-]. by right. Qed.

Lemma back_Raise {A} (v : list A) (e : Error) : back v = Raise e → lowLevel e.
Proof. unfold back. destruct (last v); [done|]. intros [= <-]. by right. Qed.

(** Split a hypothesis [m ≫= f = Raise e] into the computation that
    raised. *)
Ltac inv_Raise H :=
  repeat match type of H with
  | _ ≫= _ = Raise _ =>
      let a := fresh "a" in
      let Ha := fresh "Ha" in
      apply bind_Raise in H as [H | (a & Ha & H)]
  end.

(** ** The extrapolation of one node *)

Section Extend.

Context {Scalar : Type} `{ScalarOps Scalar}.

Local Abbreviation Tabulated2D :=
  (list (Scalar * list (Scalar * Scalar))) (only parsing).

Lemma appendSamples_nil (i : nat) (t : Tabulated2D) : appendSamples i [] t = t.
Proof.
  unfold appendSamples. apply list_alter_id. intros [x ys]; simpl.
  by rewrite app_nil_r.
Qed.

Lemma appendSamples_app (i : nat) (p q : list (Scalar * Scalar)) (t : Tabulated2D) :
  appendSamples i q (appendSamples i p t) = appendSamples i (p ++ q) t.
Proof.
  unfold appendSamples. rewrite list_alter_alter_eq.
  apply list_alter_ext; [|done]. intros [x ys] _; simpl. by rewrite app_assoc.
Qed.

Lemma numX_appendSamples (i : nat) (p : list (Scalar * Scalar)) (t : Tabulated2D) :
  numX (appendSamples i p t) = numX t.
Proof. apply length_alter. Qed.

Lemma appendSamplePoint_lt (i : nat) (y v : Scalar) (t : Tabulated2D) :
  i < numX t → appendSamplePoint i y v t = Ok (appendSamples i [(y, v)] t).
Proof. intros Hi. unfold appendSamplePoint. by rewrite bool_decide_eq_true_2. Qed.

Lemma appendSamplePoint_Ok (i : nat) (y v : Scalar) (t t' : Tabulated2D) :
  appendSamplePoint i y v t = Ok t' →
  i < numX t ∧ t' = appendSamples i [(y, v)] t.
Proof.
  unfold appendSamplePoint. case_bool_decide; [|done]. by intros [= <-].
Qed.

Lemma back_snoc {A} (l : list A) (a : A) : back (l ++ [a]) = Ok a.
Proof. unfold back. by rewrite last_snoc. Qed.

Lemma back_Ok {A} (l : list A) (a : A) : back l = Ok a ↔ last l = Some a.
Proof. unfold back. destruct (last l); split; congruence. Qed.

Section Commutative.

(** Addition of scalars is commutative: so it is in exact arithmetic and in
    IEEE arithmetic. *)
Hypothesis s_add_comm : ∀ a b : Scalar, (a + b)%Sc = (b + a)%Sc.

(** The step of the source synthesizes the point of the specification. *)
Lemma extendStep_spec (xIdx : nat) (last m0 m1 : UnderSaturatedRow Scalar)
    (e : Extension Scalar) :
  back (RvArray e) = Ok (R last) →
  back (gasBArray e) = Ok (BG last) →
  back (gasMuArray e) = Ok (MUG last) →
  xIdx < numX (invGasB e) →
  xIdx < numX (gasMu e) →
  let p := extrapolatedPoint last m0 m1 in
  extendStep xIdx m0 m1 e =
    Ok {| RvArray := RvArray e ++ [R p];
          gasBArray := gasBArray e ++ [BG p];
          gasMuArray := gasMuArray e ++ [MUG p];
          invGasB := appendSamples xIdx [inverseBSample p] (invGasB e);
          gasMu := appendSamples xIdx [viscositySample p] (gasMu e) |}.
Proof.
  intros HR HB HM Hi Hm p. unfold extendStep.
  rewrite HR, HB, HM. simpl.
  rewrite !appendSamplePoint_lt by done. simpl.
  subst p. unfold extrapolatedPoint, relativeChange, inverseBSample,
    viscositySample. simpl.
  by rewrite (s_add_comm (BG m1) (BG m0)), (s_add_comm (MUG m1) (MUG m0)).
Qed.

Lemma extendRows_cons (xIdx : nat) (m0 m1 : UnderSaturatedRow Scalar)
    (rest : SimpleTable) (e : Extension Scalar) :
  extendRows xIdx (m0 :: m1 :: rest) e =
    extendStep xIdx m0 m1 e ≫= extendRows xIdx (m1 :: rest).
Proof. done. Qed.

Lemma extendRows_spec (xIdx : nat) (master : SimpleTable) :
  ∀ (last : UnderSaturatedRow Scalar) (e : Extension Scalar),
  back (RvArray e) = Ok (R last) →
  back (gasBArray e) = Ok (BG last) →
  back (gasMuArray e) = Ok (MUG last) →
  xIdx < numX (invGasB e) →
  xIdx < numX (gasMu e) →
  let pts := extrapolatedBranch last master in
  extendRows xIdx master e =
    Ok {| RvArray := RvArray e ++ (R <$> pts);
          gasBArray := gasBArray e ++ (BG <$> pts);
          gasMuArray := gasMuArray e ++ (MUG <$> pts);
          invGasB := appendSamples xIdx (inverseBSample <$> pts) (invGasB e);
          gasMu := appendSamples xIdx (viscositySample <$> pts) (gasMu e) |}.
Proof.
  induction master as [|m0 rest IH]; intros last e HR HB HM Hi Hm.
  - simpl. rewrite !app_nil_r, !appendSamples_nil. by destruct e.
  - destruct rest as [|m1 rest'].
    + simpl. rewrite !app_nil_r, !appendSamples_nil. by destruct e.
    + rewrite extendRows_cons, (extendStep_spec xIdx last m0 m1 e) by done.
      cbn zeta. rewrite Ok_bind.
      set (p := extrapolatedPoint last m0 m1).
      rewrite (IH p); cbn [RvArray gasBArray gasMuArray invGasB gasMu];
        try apply back_snoc; try (by rewrite numX_appendSamples).
      change (extrapolatedBranch last (m0 :: m1 :: rest'))
        with (p :: extrapolatedBranch p (m1 :: rest')).
      cbn zeta. rewrite !fmap_cons, !appendSamples_app.
      by rewrite <- !app_assoc.
Qed.

(** C2. For a node with the single sample [s] = (r_s, B_s, mu_s) and a master
    branch with the consecutive samples [m0] = (r0, B0, mu0) and
    [m1] = (r1, B1, mu1), the extension appends exactly one point, with
    newRatio = r_s + (r1 - r0), newB = B_s * (1 + x/2) / (1 - x/2) where
    x = (B1 - B0) / ((B0 + B1) / 2), and newMu = mu_s * (1 + xMu/2) /
    (1 - xMu/2) where xMu = (mu1 - mu0) / ((mu0 + mu1) / 2): (newRatio,
    1/newB) goes to the inverse-B table and (newRatio, newMu) to the
    viscosity table. For a longer master branch the same rule is applied per
    consecutive master pair, each point accumulating from the one synthesized
    before it ([extrapolatedBranch]). *)
Theorem extendTable_extrapolates (xIdx : nat) (s : UnderSaturatedRow Scalar)
    (masterTable : SimpleTable) (invGasB0 gasMu0 : Tabulated2D) :
  xIdx < numX invGasB0 →
  xIdx < numX gasMu0 →
  (∀ m0 m1 : UnderSaturatedRow Scalar,
     masterTable = [m0; m1] →
     let x := ((BG m1 - BG m0) / ((BG m0 + BG m1) / s_two))%Sc in
     let xMu := ((MUG m1 - MUG m0) / ((MUG m0 + MUG m1) / s_two))%Sc in
     let newRatio := (R s + (R m1 - R m0))%Sc in
     let newB := (BG s * (s_one + x / s_two) / (s_one - x / s_two))%Sc in
     let newMu := (MUG s * (s_one + xMu / s_two) / (s_one - xMu / s_two))%Sc in
     extendTable_ xIdx [s] masterTable invGasB0 gasMu0 =
       Ok (appendSamples xIdx [(newRatio, (s_one / newB)%Sc)] invGasB0,
           appendSamples xIdx [(newRatio, newMu)] gasMu0)) ∧
  extendTable_ xIdx [s] masterTable invGasB0 gasMu0 =
    Ok (appendSamples xIdx
          (inverseBSample <$> extrapolatedBranch s masterTable) invGasB0,
        appendSamples xIdx
          (viscositySample <$> extrapolatedBranch s masterTable) gasMu0).
Proof.
  intros Hi Hm.
  assert (extendTable_ xIdx [s] masterTable invGasB0 gasMu0 =
    Ok (appendSamples xIdx
          (inverseBSample <$> extrapolatedBranch s masterTable) invGasB0,
        appendSamples xIdx
          (viscositySample <$> extrapolatedBranch s masterTable) gasMu0))
    as Hgen.
  { unfold extendTable_. by rewrite (extendRows_spec xIdx masterTable s). }
  split; [|done]. intros m0 m1 -> x xMu newRatio newB newMu. by rewrite Hgen.
Qed.

End Commutative.

End Extend.

(** ** The extrapolation step of one region *)

Section Complete.

Context {Scalar : Type} `{ScalarOps Scalar}.

Local Abbreviation Tabulated2D :=
  (list (Scalar * list (Scalar * Scalar))) (only parsing).

Lemma numY_shape (t : Tabulated2D) (i : nat) :
  numY t i = default 0 (shape t !! i).
Proof. unfold numY, shape. rewrite list_lookup_fmap. by destruct (t !! i). Qed.

Lemma numY_branch (t : Tabulated2D) (i : nat) : numY t i = length (branch t i).
Proof. unfold numY, branch. by destruct (t !! i). Qed.

Lemma length_shape (t : Tabulated2D) : length (shape t) = numX t.
Proof. apply length_fmap. Qed.

Lemma numY_pos_lt (t : Tabulated2D) (i : nat) : 0 < numY t i → i < numX t.
Proof.
  unfold numY. destruct (t !! i) eqn:Hi; [|lia].
  intros _. by eapply lookup_lt_Some.
Qed.

Lemma complete_shape (t : Tabulated2D) :
  complete t ↔ Forall (λ n, 2 ≤ n) (shape t).
Proof. unfold complete, shape. by rewrite Forall_fmap. Qed.

Lemma complete_numY (t : Tabulated2D) :
  complete t ↔ ∀ i, i < numX t → 2 ≤ numY t i.
Proof.
  unfold complete. rewrite Forall_lookup. split.
  - intros Hall i [node Hi]%lookup_lt_is_Some. unfold numY. rewrite Hi.
    by apply (Hall i).
  - intros Hall i node Hi. specialize (Hall i (lookup_lt_Some _ _ _ Hi)).
    unfold numY in Hall. by rewrite Hi in Hall.
Qed.

Lemma shape_appendSamples (i : nat) (pts : list (Scalar * Scalar))
    (t : Tabulated2D) :
  shape (appendSamples i pts t) = alter (λ n, n + length pts) i (shape t).
Proof.
  unfold shape, appendSamples. apply list_fmap_alter.
  apply Forall_forall. intros [x ys] _; simpl. by rewrite length_app.
Qed.

Lemma branch_appendSamples_eq (i : nat) (pts : list (Scalar * Scalar))
    (t : Tabulated2D) :
  i < numX t → branch (appendSamples i pts t) i = branch t i ++ pts.
Proof.
  intros [node Hi]%lookup_lt_is_Some. unfold branch, appendSamples.
  by rewrite list_lookup_alter_eq, Hi.
Qed.

Lemma branch_appendSamples_ne (i j : nat) (pts : list (Scalar * Scalar))
    (t : Tabulated2D) :
  i ≠ j → branch (appendSamples i pts t) j = branch t j.
Proof.
  intros Hne. unfold branch, appendSamples. by rewrite list_lookup_alter_ne.
Qed.

Lemma numY_appendSamples_eq (i : nat) (pts : list (Scalar * Scalar))
    (t : Tabulated2D) :
  i < numX t → numY (appendSamples i pts t) i = numY t i + length pts.
Proof.
  intros Hi. by rewrite !numY_branch, branch_appendSamples_eq, length_app.
Qed.

Lemma numY_appendSamples_ne (i j : nat) (pts : list (Scalar * Scalar))
    (t : Tabulated2D) :
  i ≠ j → numY (appendSamples i pts t) j = numY t j.
Proof. intros Hne. by rewrite !numY_branch, branch_appendSamples_ne. Qed.

Lemma numY_appendSamples_le (i j : nat) (pts : list (Scalar * Scalar))
    (t : Tabulated2D) :
  numY t j ≤ numY (appendSamples i pts t) j.
Proof.
  rewrite !numY_shape, shape_appendSamples.
  destruct (decide (i = j)) as [->|Hne].
  - rewrite list_lookup_alter_eq. destruct (shape t !! j); simpl; lia.
  - by rewrite list_lookup_alter_ne.
Qed.

(** What an extension appends, whatever the arithmetic: as many samples as
    the master table has rows after its first, to the same node of both
    tables. *)
Lemma extendStep_Ok (xIdx : nat) (prev new : UnderSaturatedRow Scalar)
    (e e' : Extension Scalar) :
  extendStep xIdx prev new e = Ok e' →
  xIdx < numX (invGasB e) ∧ xIdx < numX (gasMu e) ∧
  ∃ pB pMu,
    invGasB e' = appendSamples xIdx [pB] (invGasB e) ∧
    gasMu e' = appendSamples xIdx [pMu] (gasMu e).
Proof.
  unfold extendStep. intros Hrun. inv_Ok Hrun. injection Hrun as <-. simpl.
  apply appendSamplePoint_Ok in Ha2 as [? ->].
  apply appendSamplePoint_Ok in Ha3 as [? ->]. eauto 10.
Qed.

Lemma extendRows_Ok (xIdx : nat) (master : SimpleTable) :
  ∀ e e' : Extension Scalar,
  extendRows xIdx master e = Ok e' →
  (2 ≤ length master → xIdx < numX (invGasB e) ∧ xIdx < numX (gasMu e)) ∧
  ∃ ptsB ptsMu,
    length ptsB = length master - 1 ∧
    length ptsMu = length master - 1 ∧
    invGasB e' = appendSamples xIdx ptsB (invGasB e) ∧
    gasMu e' = appendSamples xIdx ptsMu (gasMu e).
Proof.
  induction master as [|m0 rest IH]; intros e e' Hrun.
  - injection Hrun as <-. split; [simpl; lia|].
    exists [], []. by rewrite !appendSamples_nil.
  - destruct rest as [|m1 rest'].
    + injection Hrun as <-. split; [simpl; lia|].
      exists [], []. by rewrite !appendSamples_nil.
    + rewrite extendRows_cons in Hrun.
      apply bind_Ok in Hrun as (e1 & Hstep & Hrun).
      apply extendStep_Ok in Hstep as (Hi & Hm & pB & pMu & HB & HMu).
      apply IH in Hrun as (_ & ptsB & ptsMu & HlB & HlMu & HB' & HMu').
      split; [done|]. exists (pB :: ptsB), (pMu :: ptsMu).
      rewrite HB', HMu', HB, HMu, !appendSamples_app. simpl in *.
      repeat split; lia || done.
Qed.

Lemma extendTable_Ok (xIdx : nat) (curTable masterTable : SimpleTable)
    (invGasB0 gasMu0 invGasB' gasMu' : Tabulated2D) :
  extendTable_ xIdx curTable masterTable invGasB0 gasMu0 = Ok (invGasB', gasMu') →
  (2 ≤ length masterTable → xIdx < numX invGasB0 ∧ xIdx < numX gasMu0) ∧
  ∃ ptsB ptsMu,
    length ptsB = length masterTable - 1 ∧
    length ptsMu = length masterTable - 1 ∧
    invGasB' = appendSamples xIdx ptsB invGasB0 ∧
    gasMu' = appendSamples xIdx ptsMu gasMu0.
Proof.
  unfold extendTable_. intros Hrun. inv_Ok Hrun.
  apply extendRows_Ok in Ha as (Hlt & ptsB & ptsMu & ? & ? & HB & HMu).
  injection Hrun as <- <-. simpl in *. eauto 10.
Qed.

(** The scan for the master table: it stops at the first table number from
    [m] on, below [m + n], whose undersaturated table has more than one row,
    and at [m + n] when there is none. *)
Lemma scanMaster_Ok (pvtTable : PvtxTable Scalar) (n : nat) :
  ∀ m k : nat,
  scanMaster pvtTable m n = Ok k →
  m ≤ k ≤ m + n ∧
  (k < m + n →
     ∃ t, getUnderSaturatedTable pvtTable k = Ok t ∧ 1 < numRows t) ∧
  (∀ j, m ≤ j < k →
     ∃ t, getUnderSaturatedTable pvtTable j = Ok t ∧ numRows t ≤ 1).
Proof.
  induction n as [|n IH]; intros m k Hrun; simpl in Hrun.
  - injection Hrun as <-. split_and!; [lia..|intros ?; lia|intros j ?; lia].
  - apply bind_Ok in Hrun as (t & Ht & Hrun). case_bool_decide as Hrows.
    + injection Hrun as <-. split_and!; [lia..|eauto|intros j ?; lia].
    + apply IH in Hrun as (Hk & Hfound & Hskipped).
      split; [lia|]. split; [intros ?; apply Hfound; lia|].
      intros j Hj. destruct (decide (j = m)) as [->|Hne].
      * exists t. split; [done|lia].
      * apply Hskipped. lia.
Qed.

Lemma findMasterTableIdx_Ok (pvtTable : PvtxTable Scalar) (xIdx m : nat) :
  findMasterTableIdx pvtTable xIdx = Ok m →
  xIdx < m ∧
  (m < numRows (getSaturatedTable pvtTable) →
     ∃ t, getUnderSaturatedTable pvtTable m = Ok t ∧ 1 < numRows t) ∧
  (∀ j, xIdx < j < m →
     ∃ t, getUnderSaturatedTable pvtTable j = Ok t ∧ numRows t ≤ 1).
Proof.
  unfold findMasterTableIdx. intros (Hm & Hfound & Hskipped)%scanMaster_Ok.
  split_and!; [lia| |intros j ?; apply Hskipped; lia].
  intros ?. apply Hfound. lia.
Qed.

(** One iteration of the extrapolation step: the node exists, it ends with
    two samples or more, and both tables received the same number of samples
    at this node and nowhere else. *)
Lemma completeNode_Ok (name : TableName) (pvtTable : PvtxTable Scalar)
    (xIdx : nat) (t t' : Tabulated2D * Tabulated2D) :
  completeNode name pvtTable xIdx t = Ok t' →
  xIdx < numX t.1 ∧
  ∃ ptsB ptsMu,
    length ptsB = length ptsMu ∧
    2 ≤ numY t.1 xIdx + length ptsB ∧
    t'.1 = appendSamples xIdx ptsB t.1 ∧
    t'.2 = appendSamples xIdx ptsMu t.2.
Proof.
  unfold completeNode. intros Hrun.
  apply bind_Ok in Hrun as (u & Hpos%assert_Ok%bool_decide_eq_true & Hrun).
  split; [by apply numY_pos_lt|]. case_bool_decide as Htwo.
  - injection Hrun as <-. exists [], [].
    rewrite !appendSamples_nil. split_and!; simpl; done || lia.
  - apply bind_Ok in Hrun as (m & Hmaster & Hrun).
    case_bool_decide as Hlast; [done|].
    apply bind_Ok in Hrun as (cur & Hcur & Hrun).
    apply bind_Ok in Hrun as (master & Hm & Hrun).
    apply findMasterTableIdx_Ok in Hmaster as (_ & Hfound & _).
    destruct Hfound as (master' & Hm' & Hrows); [lia|].
    rewrite Hm in Hm'. injection Hm' as <-. unfold numRows in Hrows.
    destruct t' as [invB' mu'].
    apply extendTable_Ok in Hrun as (_ & ptsB & ptsMu & HlB & HlMu & -> & ->).
    exists ptsB, ptsMu. split_and!; simpl; done || lia.
Qed.

(** The whole extrapolation step: on completion no branch of the inverse-B
    table is degenerate, and the viscosity table follows when the two tables
    had the same numbers of samples. *)
Lemma completeTable_Ok (name : TableName) (pvtTable : PvtxTable Scalar)
    (t t' : Tabulated2D * Tabulated2D) :
  completeTable name pvtTable t = Ok t' →
  complete t'.1 ∧ (shape t.1 = shape t.2 → complete t'.2).
Proof.
  unfold completeTable. intros Hrun.
  apply (forRange_inv (λ k u,
    numX u.1 = numX t.1 ∧
    (∀ j, j < k → 2 ≤ numY u.1 j) ∧
    (shape t.1 = shape t.2 → shape u.1 = shape u.2))) in Hrun.
  - destruct Hrun as (HnumX & Htwo & Hshape). simpl in Htwo.
    assert (complete t'.1) as Hc.
    { apply complete_numY. intros j Hj. apply Htwo. lia. }
    split; [done|]. intros Heq.
    apply complete_shape. rewrite <- Hshape by done. by apply complete_shape.
  - split_and!; [done|intros j ?; lia|done].
  - intros k u u' Hk (HnumX & Htwo & Hshape) Hnode.
    apply completeNode_Ok in Hnode
      as (Hlt & ptsB & ptsMu & Hlen & Hgrow & HB & HMu).
    rewrite HB, HMu. split_and!.
    + by rewrite numX_appendSamples.
    + intros j Hj. destruct (decide (j = k)) as [->|Hne].
      * rewrite numY_appendSamples_eq by done. lia.
      * rewrite numY_appendSamples_ne by done. apply Htwo. lia.
    + intros Heq. rewrite !shape_appendSamples, Hlen. by rewrite Hshape.
Qed.

Lemma completeNode_skip (name : TableName) (pvtTable : PvtxTable Scalar)
    (xIdx : nat) (t : Tabulated2D * Tabulated2D) :
  1 < numY t.1 xIdx → completeNode name pvtTable xIdx t = Ok t.
Proof.
  intros Htwo. unfold completeNode.
  rewrite (bool_decide_eq_true_2 (0 < numY t.1 xIdx)) by lia.
  by rewrite (bool_decide_eq_true_2 (1 < numY t.1 xIdx)) by lia.
Qed.

(** A table without a degenerate branch is left as it is. *)
Lemma completeTable_complete (name : TableName) (pvtTable : PvtxTable Scalar)
    (t : Tabulated2D * Tabulated2D) :
  complete t.1 → completeTable name pvtTable t = Ok t.
Proof.
  intros Hc. unfold completeTable.
  assert (∀ n i, i + n ≤ numX t.1 →
    forRange (completeNode name pvtTable) i n t = Ok t) as Hloop.
  { induction n as [|n IH]; intros i Hi; [done|]. simpl.
    assert (2 ≤ numY t.1 i) as Htwo.
    { apply complete_numY; [done|lia]. }
    rewrite completeNode_skip, Ok_bind by lia. apply IH. lia. }
  by apply Hloop.
Qed.

End Complete.

(** ** The tables of one region and one family *)

Section Family.

Context {Scalar : Type} `{ScalarOps Scalar}.

Local Abbreviation Tabulated2D :=
  (list (Scalar * list (Scalar * Scalar))) (only parsing).

Lemma shape_appendXPos (x : Scalar) (t : Tabulated2D) :
  shape (appendXPos x t) = shape t ++ [0].
Proof. unfold shape, appendXPos. by rewrite fmap_app. Qed.

Lemma appendUnderSaturated_shape (outerIdx : nat)
    (underSaturatedTable : SimpleTable) (innerIdx : nat)
    (t t' : Tabulated2D * Tabulated2D) :
  appendUnderSaturated outerIdx underSaturatedTable innerIdx t = Ok t' →
  shape t.1 = shape t.2 → shape t'.1 = shape t'.2.
Proof.
  unfold appendUnderSaturated. intros Hrun Heq. inv_Ok Hrun.
  injection Hrun as <-. simpl.
  apply appendSamplePoint_Ok in Ha0 as [_ ->].
  apply appendSamplePoint_Ok in Ha1 as [_ ->].
  by rewrite !shape_appendSamples, Heq.
Qed.

(** The loop over the saturated rows keeps the two tables in step and
    collects 1/B and 1/(mu B) of the rows it has seen. *)
Lemma extractRow_Ok (pvtTable : PvtxTable Scalar) (outerIdx : nat)
    (a a' : Extraction Scalar) :
  extractRow pvtTable outerIdx a = Ok a' →
  ∃ row,
    getSaturatedTable pvtTable !! outerIdx = Some row ∧
    invSatGasBArray a' = invSatGasBArray a ++ [(s_one / sat_BG row)%Sc] ∧
    invSatGasBMuArray a' =
      invSatGasBMuArray a ++ [(s_one / (sat_MUG row * sat_BG row))%Sc] ∧
    (shape (x_invGasB a) = shape (x_gasMu a) →
     shape (x_invGasB a') = shape (x_gasMu a')).
Proof.
  unfold extractRow. intros Hrun.
  apply bind_Ok in Hrun as (row & Hrow%at_index_Ok & Hrun).
  cbn zeta in Hrun. inv_Ok Hrun. injection Hrun as <-. simpl.
  exists row. split_and!; [done..|]. intros Heq.
  apply (forRange_inv (λ _ u, shape u.1 = shape u.2)) in Ha2; [done| |].
  - simpl. by rewrite !shape_appendXPos, Heq.
  - intros k u u' _ Hu Hstep. by eapply appendUnderSaturated_shape.
Qed.

Lemma extractRows_Ok (pvtTable : PvtxTable Scalar) (a0 a : Extraction Scalar) :
  forRange (extractRow pvtTable) 0 (numRows (getSaturatedTable pvtTable)) a0
    = Ok a →
  invSatGasBArray a0 = [] →
  invSatGasBMuArray a0 = [] →
  invSatGasBArray a = yValues (saturatedInverseB pvtTable) ∧
  invSatGasBMuArray a = yValues (saturatedInverseBMu pvtTable) ∧
  (shape (x_invGasB a0) = shape (x_gasMu a0) →
   shape (x_invGasB a) = shape (x_gasMu a)).
Proof.
  intros Hrun HB HMu.
  apply (forRange_inv (λ k u,
    invSatGasBArray u =
      (λ row, (s_one / sat_BG row)%Sc) <$> take k (getSaturatedTable pvtTable) ∧
    invSatGasBMuArray u =
      (λ row, (s_one / (sat_MUG row * sat_BG row))%Sc)
        <$> take k (getSaturatedTable pvtTable) ∧
    (shape (x_invGasB a0) = shape (x_gasMu a0) →
     shape (x_invGasB u) = shape (x_gasMu u)))) in Hrun.
  - simpl in Hrun. unfold numRows in Hrun. by rewrite firstn_all in Hrun.
  - by rewrite HB, HMu.
  - intros k u u' _ (HuB & HuMu & Hshape) Hstep.
    apply extractRow_Ok in Hstep as (row & Hrow & HB' & HMu' & Hshape').
    rewrite (take_S_r _ _ _ Hrow), !fmap_app, HB', HMu', HuB, HuMu.
    split_and!; [done..|]. intros Heq. by apply Hshape', Hshape.
Qed.

(** The loop body for one region and one family: on completion no branch of
    the inverse-B table is degenerate, nor of the viscosity table when the
    two tables started in step, and the saturated curves are those of the
    saturated table. *)
Lemma fillFamilyTables_Ok (name : TableName) (pvtTable : PvtxTable Scalar)
    (ft ft' : FamilyTables Scalar) :
  fillFamilyTables name pvtTable ft = Ok ft' →
  complete (f_invGasB ft') ∧
  (shape (f_invGasB ft) = shape (f_gasMu ft) → complete (f_gasMu ft')) ∧
  f_invSatGasB ft' = saturatedInverseB pvtTable ∧
  f_invSatGasBMu ft' = saturatedInverseBMu pvtTable.
Proof.
  unfold fillFamilyTables. intros Hrun.
  apply bind_Ok in Hrun as (a & Hrows & Hrun).
  apply bind_Ok in Hrun as (t & Hcomplete & Hrun).
  injection Hrun as <-. simpl.
  apply extractRows_Ok in Hrows as (HB & HMu & Hshape); [|done..].
  apply completeTable_Ok in Hcomplete as [Hc Hc']. simpl in *.
  split_and!; [done|auto| |].
  - unfold setXYContainers, saturatedInverseB. by rewrite HB.
  - unfold setXYContainers, saturatedInverseBMu. by rewrite HMu.
Qed.

End Family.

(** ** The loops over the regions *)

Section Regions.

Context {Scalar : Type} `{ScalarOps Scalar}.

Local Abbreviation Tabulated2D :=
  (list (Scalar * list (Scalar * Scalar))) (only parsing).

Lemma completedBelow_replicate (n : nat) :
  completedBelow 0 (replicate n ([] : Tabulated2D)) (replicate n []).
Proof.
  split_and!; [intros r t ?; lia..|].
  by intros r a b _ [-> _]%lookup_replicate [-> _]%lookup_replicate.
Qed.

Lemma completedBelow_insert (k : nat) (invB mu : list Tabulated2D)
    (a b a' b' : Tabulated2D) :
  completedBelow k invB mu →
  invB !! k = Some a →
  mu !! k = Some b →
  complete a' →
  (shape a = shape b → complete b') →
  completedBelow (S k) (<[k := a']> invB) (<[k := b']> mu).
Proof.
  intros (HB & HMu & Hstep) Ha Hb Hca Hcb. split_and!.
  - intros r t Hr. destruct (decide (r = k)) as [->|Hne].
    + rewrite list_lookup_insert_eq by by eapply lookup_lt_Some.
      by intros [= <-].
    + rewrite list_lookup_insert_ne by done. apply HB. lia.
  - intros r t Hr. destruct (decide (r = k)) as [->|Hne].
    + rewrite list_lookup_insert_eq by by eapply lookup_lt_Some.
      intros [= <-]. apply Hcb. by apply (Hstep k).
    + rewrite list_lookup_insert_ne by done. apply HMu. lia.
  - intros r t u Hr. rewrite !list_lookup_insert_ne by lia. apply Hstep. lia.
Qed.

Lemma completedBelow_all (n : nat) (invB mu : list Tabulated2D) :
  completedBelow n invB mu →
  length invB ≤ n →
  length mu ≤ n →
  Forall complete invB ∧ Forall complete mu.
Proof.
  intros (HB & HMu & _) HlB HlMu. split; apply Forall_lookup; intros r t Hr.
  - apply (HB r); [|done]. apply lookup_lt_Some in Hr. lia.
  - apply (HMu r); [|done]. apply lookup_lt_Some in Hr. lia.
Qed.

(** What the body of a loop over the regions does to the object. *)
Lemma densityRegion_Ok (densityTable : list (DensityRecord Scalar))
    (regionIdx : nat) (st st' : WetHumidGasPvt Scalar) :
  densityRegion densityTable regionIdx st = Ok st' →
  ∃ d, st' = setReferenceDensities regionIdx (oil d) (gas d) (water d) st.
Proof.
  unfold densityRegion. intros Hrun. inv_Ok Hrun. injection Hrun as <-. eauto.
Qed.

Lemma saltRegion_Ok (rwgsaltTables : list (RwgsaltTable Scalar))
    (regionIdx : nat) (st st' : WetHumidGasPvt Scalar) :
  saltRegion rwgsaltTables regionIdx st = Ok st' →
  ∃ rwgsaltTable t,
    rwgsaltTables !! regionIdx = Some rwgsaltTable ∧
    2 ≤ numRows (salt_getSaturatedTable rwgsaltTable) ∧
    st' = set_saltFactorTable regionIdx t st.
Proof.
  unfold saltRegion, requireTwoRows. intros Hrun.
  apply bind_Ok in Hrun as (tbl & Htbl%at_index_Ok & Hrun).
  cbn zeta in Hrun. case_bool_decide as Hrows; [done|].
  rewrite Ok_bind in Hrun. inv_Ok Hrun. injection Hrun as <-.
  exists tbl, a0. split_and!; [done|lia|done].
Qed.

Lemma get_pvtgw_Ok (regionIdx : nat) (st : WetHumidGasPvt Scalar)
    (ft : FamilyTables Scalar) :
  get_pvtgw regionIdx st = Ok ft →
  gasMuRvSat_ st !! regionIdx = Some (f_gasMu ft) ∧
  inverseGasBRvSat_ st !! regionIdx = Some (f_invGasB ft) ∧
  regionIdx < length (inverseSaturatedGasB_ st) ∧
  regionIdx < length (inverseSaturatedGasBMu_ st).
Proof.
  unfold get_pvtgw. intros Hrun. inv_Ok Hrun. injection Hrun as <-. simpl.
  apply at_index_Ok in Ha, Ha0, Ha1, Ha2.
  split_and!; [done..|by eapply lookup_lt_Some|by eapply lookup_lt_Some].
Qed.

Lemma get_pvtg_Ok (regionIdx : nat) (st : WetHumidGasPvt Scalar)
    (ft : FamilyTables Scalar) :
  get_pvtg regionIdx st = Ok ft →
  gasMuRvwSat_ st !! regionIdx = Some (f_gasMu ft) ∧
  inverseGasBRvwSat_ st !! regionIdx = Some (f_invGasB ft) ∧
  regionIdx < length (inverseSaturatedGasB_ st) ∧
  regionIdx < length (inverseSaturatedGasBMu_ st).
Proof.
  unfold get_pvtg. intros Hrun. inv_Ok Hrun. injection Hrun as <-. simpl.
  apply at_index_Ok in Ha, Ha0, Ha1, Ha2.
  split_and!; [done..|by eapply lookup_lt_Some|by eapply lookup_lt_Some].
Qed.

Lemma pvtgwRegion_Ok (pvtgwTables : list (PvtxTable Scalar)) (regionIdx : nat)
    (st st' : WetHumidGasPvt Scalar) :
  pvtgwRegion pvtgwTables regionIdx st = Ok st' →
  ∃ pvtgwTable ft ft',
    pvtgwTables !! regionIdx = Some pvtgwTable ∧
    2 ≤ numRows (getSaturatedTable pvtgwTable) ∧
    get_pvtgw regionIdx st = Ok ft ∧
    fillFamilyTables PVTGW pvtgwTable ft = Ok ft' ∧
    st' = set_pvtgw regionIdx ft' st.
Proof.
  unfold pvtgwRegion, requireTwoRows. intros Hrun.
  apply bind_Ok in Hrun as (tbl & Htbl%at_index_Ok & Hrun).
  case_bool_decide as Hrows; [done|].
  rewrite Ok_bind in Hrun. inv_Ok Hrun. injection Hrun as <-.
  exists tbl, a, a0. split_and!; [done|lia|done..].
Qed.

Lemma pvtgRegion_Ok (pvtgTables : list (PvtxTable Scalar)) (regionIdx : nat)
    (st st' : WetHumidGasPvt Scalar) :
  pvtgRegion pvtgTables regionIdx st = Ok st' →
  ∃ pvtgTable ft ft',
    pvtgTables !! regionIdx = Some pvtgTable ∧
    2 ≤ numRows (getSaturatedTable pvtgTable) ∧
    get_pvtg regionIdx st = Ok ft ∧
    fillFamilyTables PVTG pvtgTable ft = Ok ft' ∧
    st' = set_pvtg regionIdx ft' st.
Proof.
  unfold pvtgRegion, requireTwoRows. intros Hrun.
  apply bind_Ok in Hrun as (tbl & Htbl%at_index_Ok & Hrun).
  case_bool_decide as Hrows; [done|].
  rewrite Ok_bind in Hrun. inv_Ok Hrun. injection Hrun as <-.
  exists tbl, a, a0. split_and!; [done|lia|done..].
Qed.

(** The loop "Table PVTGW": it leaves the tables of PVTG alone, completes
    the branches of the regions it has passed and sets their saturated
    curves. *)
Lemma pvtgwLoop_Ok (pvtgwTables : list (PvtxTable Scalar)) (n : nat)
    (st st' : WetHumidGasPvt Scalar) :
  forRange (pvtgwRegion pvtgwTables) 0 n st = Ok st' →
  completedBelow 0 (inverseGasBRvSat_ st) (gasMuRvSat_ st) →
  inverseGasBRvwSat_ st' = inverseGasBRvwSat_ st ∧
  gasMuRvwSat_ st' = gasMuRvwSat_ st ∧
  length (inverseGasBRvSat_ st') = length (inverseGasBRvSat_ st) ∧
  length (gasMuRvSat_ st') = length (gasMuRvSat_ st) ∧
  length (inverseSaturatedGasB_ st') = length (inverseSaturatedGasB_ st) ∧
  length (inverseSaturatedGasBMu_ st') = length (inverseSaturatedGasBMu_ st) ∧
  completedBelow n (inverseGasBRvSat_ st') (gasMuRvSat_ st') ∧
  (∀ r pvtgwTable, r < n → pvtgwTables !! r = Some pvtgwTable →
     inverseSaturatedGasB_ st' !! r = Some (saturatedInverseB pvtgwTable) ∧
     inverseSaturatedGasBMu_ st' !! r = Some (saturatedInverseBMu pvtgwTable)).
Proof.
  intros Hrun H0.
  apply (forRange_inv (λ k s,
    inverseGasBRvwSat_ s = inverseGasBRvwSat_ st ∧
    gasMuRvwSat_ s = gasMuRvwSat_ st ∧
    length (inverseGasBRvSat_ s) = length (inverseGasBRvSat_ st) ∧
    length (gasMuRvSat_ s) = length (gasMuRvSat_ st) ∧
    length (inverseSaturatedGasB_ s) = length (inverseSaturatedGasB_ st) ∧
    length (inverseSaturatedGasBMu_ s) = length (inverseSaturatedGasBMu_ st) ∧
    completedBelow k (inverseGasBRvSat_ s) (gasMuRvSat_ s) ∧
    (∀ r pvtgwTable, r < k → pvtgwTables !! r = Some pvtgwTable →
       inverseSaturatedGasB_ s !! r = Some (saturatedInverseB pvtgwTable) ∧
       inverseSaturatedGasBMu_ s !! r = Some (saturatedInverseBMu pvtgwTable))))
    in Hrun; [done|split_and!; [done..|intros r ? ?; lia]|].
  intros k s1 s2 _ (HBw & HMuw & HlB & HlMu & HlS' & HlSMu' & Hdone & Hsat) Hbody.
  apply pvtgwRegion_Ok in Hbody as (tbl & ft & ft' & Htbl & _ & Hget & Hfill & ->).
  apply get_pvtgw_Ok in Hget as (HMu & HB & HlS & HlSMu).
  apply fillFamilyTables_Ok in Hfill as (Hc & Hc' & HS & HSMu). simpl.
  rewrite HS, HSMu, !length_insert.
  split_and!; [done..|by eapply completedBelow_insert|].
  intros r tbl' Hr Htbl'. destruct (decide (r = k)) as [->|Hne].
  - rewrite !list_lookup_insert_eq by done.
    rewrite Htbl in Htbl'. by injection Htbl' as <-.
  - rewrite !list_lookup_insert_ne by done. apply Hsat; [lia|done].
Qed.

(** The loop "Table PVTG": it leaves the 2-D tables of PVTGW alone,
    completes the branches of the regions it has passed and sets their
    saturated curves. *)
Lemma pvtgLoop_Ok (pvtgTables : list (PvtxTable Scalar)) (n : nat)
    (st st' : WetHumidGasPvt Scalar) :
  forRange (pvtgRegion pvtgTables) 0 n st = Ok st' →
  completedBelow 0 (inverseGasBRvwSat_ st) (gasMuRvwSat_ st) →
  inverseGasBRvSat_ st' = inverseGasBRvSat_ st ∧
  gasMuRvSat_ st' = gasMuRvSat_ st ∧
  length (inverseGasBRvwSat_ st') = length (inverseGasBRvwSat_ st) ∧
  length (gasMuRvwSat_ st') = length (gasMuRvwSat_ st) ∧
  length (inverseSaturatedGasB_ st') = length (inverseSaturatedGasB_ st) ∧
  length (inverseSaturatedGasBMu_ st') = length (inverseSaturatedGasBMu_ st) ∧
  completedBelow n (inverseGasBRvwSat_ st') (gasMuRvwSat_ st') ∧
  (∀ r pvtgTable, r < n → pvtgTables !! r = Some pvtgTable →
     inverseSaturatedGasB_ st' !! r = Some (saturatedInverseB pvtgTable) ∧
     inverseSaturatedGasBMu_ st' !! r = Some (saturatedInverseBMu pvtgTable)).
Proof.
  intros Hrun H0.
  apply (forRange_inv (λ k s,
    inverseGasBRvSat_ s = inverseGasBRvSat_ st ∧
    gasMuRvSat_ s = gasMuRvSat_ st ∧
    length (inverseGasBRvwSat_ s) = length (inverseGasBRvwSat_ st) ∧
    length (gasMuRvwSat_ s) = length (gasMuRvwSat_ st) ∧
    length (inverseSaturatedGasB_ s) = length (inverseSaturatedGasB_ st) ∧
    length (inverseSaturatedGasBMu_ s) = length (inverseSaturatedGasBMu_ st) ∧
    completedBelow k (inverseGasBRvwSat_ s) (gasMuRvwSat_ s) ∧
    (∀ r pvtgTable, r < k → pvtgTables !! r = Some pvtgTable →
       inverseSaturatedGasB_ s !! r = Some (saturatedInverseB pvtgTable) ∧
       inverseSaturatedGasBMu_ s !! r = Some (saturatedInverseBMu pvtgTable))))
    in Hrun; [done|split_and!; [done..|intros r ? ?; lia]|].
  intros k s1 s2 _ (HB & HMu & HlB & HlMu & HlS' & HlSMu' & Hdone & Hsat) Hbody.
  apply pvtgRegion_Ok in Hbody as (tbl & ft & ft' & Htbl & _ & Hget & Hfill & ->).
  apply get_pvtg_Ok in Hget as (HMuw & HBw & HlS & HlSMu).
  apply fillFamilyTables_Ok in Hfill as (Hc & Hc' & HS & HSMu). simpl.
  rewrite HS, HSMu, !length_insert. split_and!; [done..|by eapply completedBelow_insert|].
  intros r tbl' Hr Htbl'. destruct (decide (r = k)) as [->|Hne].
  - rewrite !list_lookup_insert_eq by done.
    rewrite Htbl in Htbl'. by injection Htbl' as <-.
  - rewrite !list_lookup_insert_ne by done. apply Hsat; [lia|done].
Qed.

(** The two loops before them leave all the 2-D tables of PVTGW and PVTG as
    they are. *)
Lemma densityLoop_Ok (densityTable : list (DensityRecord Scalar)) (i n : nat)
    (st st' : WetHumidGasPvt Scalar) :
  forRange (densityRegion densityTable) i n st = Ok st' →
  inverseGasBRvSat_ st' = inverseGasBRvSat_ st ∧
  gasMuRvSat_ st' = gasMuRvSat_ st ∧
  inverseGasBRvwSat_ st' = inverseGasBRvwSat_ st ∧
  gasMuRvwSat_ st' = gasMuRvwSat_ st ∧
  inverseSaturatedGasB_ st' = inverseSaturatedGasB_ st ∧
  inverseSaturatedGasBMu_ st' = inverseSaturatedGasBMu_ st.
Proof.
  intros Hrun.
  apply (forRange_inv (λ _ s,
    inverseGasBRvSat_ s = inverseGasBRvSat_ st ∧
    gasMuRvSat_ s = gasMuRvSat_ st ∧
    inverseGasBRvwSat_ s = inverseGasBRvwSat_ st ∧
    gasMuRvwSat_ s = gasMuRvwSat_ st ∧
    inverseSaturatedGasB_ s = inverseSaturatedGasB_ st ∧
    inverseSaturatedGasBMu_ s = inverseSaturatedGasBMu_ st)) in Hrun; [done..|].
  by intros k s1 s2 _ ? [d ->]%densityRegion_Ok.
Qed.

Lemma saltLoop_Ok (rwgsaltTables : list (RwgsaltTable Scalar)) (i n : nat)
    (st st' : WetHumidGasPvt Scalar) :
  forRange (saltRegion rwgsaltTables) i n st = Ok st' →
  inverseGasBRvSat_ st' = inverseGasBRvSat_ st ∧
  gasMuRvSat_ st' = gasMuRvSat_ st ∧
  inverseGasBRvwSat_ st' = inverseGasBRvwSat_ st ∧
  gasMuRvwSat_ st' = gasMuRvwSat_ st ∧
  inverseSaturatedGasB_ st' = inverseSaturatedGasB_ st ∧
  inverseSaturatedGasBMu_ st' = inverseSaturatedGasBMu_ st.
Proof.
  intros Hrun.
  apply (forRange_inv (λ _ s,
    inverseGasBRvSat_ s = inverseGasBRvSat_ st ∧
    gasMuRvSat_ s = gasMuRvSat_ st ∧
    inverseGasBRvwSat_ s = inverseGasBRvwSat_ st ∧
    gasMuRvwSat_ s = gasMuRvwSat_ st ∧
    inverseSaturatedGasB_ s = inverseSaturatedGasB_ st ∧
    inverseSaturatedGasBMu_ s = inverseSaturatedGasBMu_ st)) in Hrun; [done..|].
  by intros k s1 s2 _ ? (tbl & t & _ & _ & ->)%saltRegion_Ok.
Qed.

Lemma readVapPars_Ok (schedule : Schedule Scalar) (st st' : WetHumidGasPvt Scalar) :
  readVapPars schedule st = Ok st' →
  ∃ step rest,
    schedule = step :: rest ∧
    st' = set_vapPar1
            (match getType (oilvap step) with
             | VAPPARS => vap1 (oilvap step)
             | _ => s_zero
             end) st.
Proof.
  unfold readVapPars. intros Hrun.
  apply bind_Ok in Hrun as (step & Hstep%at_index_Ok & Hrun).
  injection Hrun as <-. destruct schedule as [|step' rest]; [done|].
  injection Hstep as ->. exists step, rest. split; [done|].
  by destruct (getType (oilvap step)).
Qed.

(** The stages of a completed [initFromState]. *)
Lemma initFromState_Ok (eclState : EclipseState Scalar)
    (schedule : Schedule Scalar) (st : WetHumidGasPvt Scalar) :
  initFromState eclState schedule = Ok st →
  let n := length (getPvtgwTables eclState) in
  length (getDensityTable eclState) = n ∧
  length (getPvtgTables eclState) = n ∧
  ∃ st1 st2 st3 st4,
    forRange (densityRegion (getDensityTable eclState)) 0 n (setNumRegions n)
      = Ok st1 ∧
    (if bool_decide (getRwgSaltTables eclState = [])
     then Ok (set_enableRwgSalt false st1)
     else forRange (saltRegion (getRwgSaltTables eclState)) 0 n
            (set_enableRwgSalt true st1)) = Ok st2 ∧
    forRange (pvtgwRegion (getPvtgwTables eclState)) 0 n st2 = Ok st3 ∧
    forRange (pvtgRegion (getPvtgTables eclState)) 0 n st3 = Ok st4 ∧
    readVapPars schedule st4 = Ok st.
Proof.
  intros Hrun n. unfold initFromState in Hrun. fold n in Hrun.
  case_bool_decide as Hw; [done|]. case_bool_decide as Hg; [done|].
  apply bind_Ok in Hrun as (st1 & Hdensity & Hrun). cbn zeta in Hrun.
  apply bind_Ok in Hrun as (st2 & Hsalt & Hrun).
  apply bind_Ok in Hrun as (st3 & Hpvtgw & Hrun).
  apply bind_Ok in Hrun as (st4 & Hpvtg & Hrun).
  apply bind_Ok in Hrun as (st5 & Hvap & Hrun). injection Hrun as <-.
  split_and!; [done|congruence|]. exists st1, st2, st3, st4.
  split_and!; [done| |done..].
  by destruct (bool_decide (getRwgSaltTables eclState = [])).
Qed.

End Regions.

(** ** The finished object *)

Section Finished.

Context {Scalar : Type} `{ScalarOps Scalar}.

Local Abbreviation Tabulated2D :=
  (list (Scalar * list (Scalar * Scalar))) (only parsing).

(** The tables and the region count along a completed run. *)
Lemma initFromState_tables (eclState : EclipseState Scalar)
    (schedule : Schedule Scalar) (st : WetHumidGasPvt Scalar) :
  initFromState eclState schedule = Ok st →
  let n := length (getPvtgwTables eclState) in
  length (inverseGasBRvSat_ st) = n ∧
  length (gasMuRvSat_ st) = n ∧
  length (inverseGasBRvwSat_ st) = n ∧
  length (gasMuRvwSat_ st) = n ∧
  length (inverseSaturatedGasB_ st) = n ∧
  length (inverseSaturatedGasBMu_ st) = n ∧
  completedBelow n (inverseGasBRvSat_ st) (gasMuRvSat_ st) ∧
  completedBelow n (inverseGasBRvwSat_ st) (gasMuRvwSat_ st) ∧
  (∀ r pvtgTable, getPvtgTables eclState !! r = Some pvtgTable →
     inverseSaturatedGasB_ st !! r = Some (saturatedInverseB pvtgTable) ∧
     inverseSaturatedGasBMu_ st !! r = Some (saturatedInverseBMu pvtgTable)).
Proof.
  intros Hrun n.
  apply initFromState_Ok in Hrun
    as (_ & Hlen & st1 & st2 & st3 & st4 & Hd & Hs & Hw & Hg & Hv).
  fold n in Hd, Hs, Hw, Hg, Hlen.
  apply densityLoop_Ok in Hd as (Hd1 & Hd2 & Hd3 & Hd4 & Hd5 & Hd6).
  assert (inverseGasBRvSat_ st2 = inverseGasBRvSat_ st1 ∧
          gasMuRvSat_ st2 = gasMuRvSat_ st1 ∧
          inverseGasBRvwSat_ st2 = inverseGasBRvwSat_ st1 ∧
          gasMuRvwSat_ st2 = gasMuRvwSat_ st1 ∧
          inverseSaturatedGasB_ st2 = inverseSaturatedGasB_ st1 ∧
          inverseSaturatedGasBMu_ st2 = inverseSaturatedGasBMu_ st1)
    as (Hs1 & Hs2 & Hs3 & Hs4 & Hs5 & Hs6).
  { case_bool_decide.
    - by injection Hs as <-.
    - by apply saltLoop_Ok in Hs. }
  simpl in Hd1, Hd2, Hd3, Hd4, Hd5, Hd6.
  apply pvtgwLoop_Ok in Hw as (Hw3 & Hw4 & Hw1 & Hw2 & Hw5 & Hw6 & Hwdone & _);
    [|rewrite Hs1, Hs2, Hd1, Hd2; apply completedBelow_replicate].
  apply pvtgLoop_Ok in Hg as (Hg1 & Hg2 & Hg3 & Hg4 & Hg5 & Hg6 & Hgdone & Hsat);
    [|rewrite Hw3, Hw4, Hs3, Hs4, Hd3, Hd4; apply completedBelow_replicate].
  apply readVapPars_Ok in Hv as (step & rest & _ & ->). simpl.
  rewrite Hg1, Hg2, Hg3, Hg4, Hg5, Hg6, Hw1, Hw2, Hw3, Hw4, Hw5, Hw6.
  rewrite Hs1, Hs2, Hs3, Hs4, Hs5, Hs6, Hd1, Hd2, Hd3, Hd4, Hd5, Hd6.
  rewrite !length_replicate. split_and!; [done..|].
  intros r tbl Htbl. apply Hsat; [|done].
  apply lookup_lt_Some in Htbl. lia.
Qed.

(** C1. For every input for which [initFromState] completes without raising,
    each of the four vectors of 2-D tables (PVTGW: [inverseGasBRvSat_] and
    [gasMuRvSat_]; PVTG: [inverseGasBRvwSat_] and [gasMuRvwSat_]) has one
    table per region, and for every region and both table families every
    outer pressure node of the 2-D inverse formation volume factor and
    viscosity tables has at least 2 inner samples. *)
Theorem initFromState_no_degenerate_branch (eclState : EclipseState Scalar)
    (schedule : Schedule Scalar) (st : WetHumidGasPvt Scalar) :
  initFromState eclState schedule = Ok st →
  (length (inverseGasBRvSat_ st) = length (getDensityTable eclState) ∧
   length (gasMuRvSat_ st) = length (getDensityTable eclState) ∧
   length (inverseGasBRvwSat_ st) = length (getDensityTable eclState) ∧
   length (gasMuRvwSat_ st) = length (getDensityTable eclState)) ∧
  ∀ (regionIdx : nat) (t : Tabulated2D),
    inverseGasBRvSat_ st !! regionIdx = Some t ∨
    gasMuRvSat_ st !! regionIdx = Some t ∨
    inverseGasBRvwSat_ st !! regionIdx = Some t ∨
    gasMuRvwSat_ st !! regionIdx = Some t →
    ∀ xIdx : nat, xIdx < numX t → 2 ≤ numY t xIdx.
Proof.
  intros Hrun.
  pose proof (initFromState_Ok _ _ _ Hrun) as (Hd & _).
  apply initFromState_tables in Hrun
    as (H1 & H2 & H3 & H4 & _ & _ & Hw & Hg & _).
  split; [simpl in *; split_and!; congruence|].
  intros regionIdx t Ht.
  apply completedBelow_all in Hw as [HwB HwMu]; [|lia..].
  apply completedBelow_all in Hg as [HgB HgMu]; [|lia..].
  apply complete_numY.
  destruct Ht as [Ht|[Ht|[Ht|Ht]]].
  - exact (Forall_lookup_1 _ _ _ _ HwB Ht).
  - exact (Forall_lookup_1 _ _ _ _ HwMu Ht).
  - exact (Forall_lookup_1 _ _ _ _ HgB Ht).
  - exact (Forall_lookup_1 _ _ _ _ HgMu Ht).
Qed.

(** C8. The vaporization parameter of the finished object is read from the
    first step of the schedule only: the result of [initFromState] is the
    same whatever the later steps are, and on completion [vapPar1_] is the
    VAPPARS coefficient of the first step when the type of its oil
    vaporization is VAPPARS, and 0 otherwise. *)
Theorem vapPar1_from_first_step (eclState : EclipseState Scalar)
    (first : ScheduleState Scalar) (later later' : list (ScheduleState Scalar)) :
  initFromState eclState (first :: later)
    = initFromState eclState (first :: later') ∧
  ∀ st, initFromState eclState (first :: later) = Ok st →
    vapPar1_ st = match getType (oilvap first) with
                  | VAPPARS => vap1 (oilvap first)
                  | _ => s_zero
                  end.
Proof.
  split; [done|]. intros st Hrun.
  apply initFromState_Ok in Hrun as (_ & _ & st1 & st2 & st3 & st4 & Hrun).
  destruct Hrun as (_ & _ & _ & _ & Hv).
  apply readVapPars_Ok in Hv as (step' & rest & [= <- <-] & ->). done.
Qed.

(** The stages of a completed run, with the two saturated curves before and
    after the loop "Table PVTGW": those of a new object, then those of the
    PVTGW tables. *)
Lemma initFromState_PVTGW_pass (eclState : EclipseState Scalar)
    (schedule : Schedule Scalar) (st : WetHumidGasPvt Scalar) :
  initFromState eclState schedule = Ok st →
  let n := length (getPvtgwTables eclState) in
  ∃ st1 st2 st3 st4,
    forRange (densityRegion (getDensityTable eclState)) 0 n (setNumRegions n)
      = Ok st1 ∧
    (if bool_decide (getRwgSaltTables eclState = [])
     then Ok (set_enableRwgSalt false st1)
     else forRange (saltRegion (getRwgSaltTables eclState)) 0 n
            (set_enableRwgSalt true st1)) = Ok st2 ∧
    forRange (pvtgwRegion (getPvtgwTables eclState)) 0 n st2 = Ok st3 ∧
    forRange (pvtgRegion (getPvtgTables eclState)) 0 n st3 = Ok st4 ∧
    readVapPars schedule st4 = Ok st ∧
    inverseSaturatedGasB_ st2 = replicate n emptyTabulated1D ∧
    inverseSaturatedGasBMu_ st2 = replicate n emptyTabulated1D ∧
    ∀ r pvtgwTable, getPvtgwTables eclState !! r = Some pvtgwTable →
      inverseSaturatedGasB_ st3 !! r = Some (saturatedInverseB pvtgwTable) ∧
      inverseSaturatedGasBMu_ st3 !! r = Some (saturatedInverseBMu pvtgwTable).
Proof.
  intros Hrun n.
  apply initFromState_Ok in Hrun
    as (_ & _ & st1 & st2 & st3 & st4 & Hd & Hs & Hw & Hg & Hv).
  fold n in Hd, Hs, Hw, Hg. exists st1, st2, st3, st4.
  assert (inverseSaturatedGasB_ st2 = replicate n emptyTabulated1D ∧
          inverseSaturatedGasBMu_ st2 = replicate n emptyTabulated1D)
    as [HB2 HBMu2].
  { pose proof (densityLoop_Ok _ _ _ _ _ Hd) as (_ & _ & _ & _ & Hd5 & Hd6).
    simpl in Hd5, Hd6. case_bool_decide.
    - injection Hs as <-. simpl. by rewrite Hd5, Hd6.
    - apply saltLoop_Ok in Hs as (_ & _ & _ & _ & Hs5 & Hs6).
      simpl in Hs5, Hs6. by rewrite Hs5, Hs6, Hd5, Hd6. }
  split_and!; [done..|].
  apply densityLoop_Ok in Hd as (Hd1 & Hd2 & _).
  assert (inverseGasBRvSat_ st2 = inverseGasBRvSat_ st1 ∧
          gasMuRvSat_ st2 = gasMuRvSat_ st1) as (Hs1 & Hs2).
  { case_bool_decide.
    - by injection Hs as <-.
    - apply saltLoop_Ok in Hs as (? & ? & _). done. }
  simpl in Hd1, Hd2.
  apply pvtgwLoop_Ok in Hw as (_ & _ & _ & _ & _ & _ & _ & Hsat);
    [|rewrite Hs1, Hs2, Hd1, Hd2; apply completedBelow_replicate].
  intros r tbl Htbl. apply Hsat; [|done]. by eapply lookup_lt_Some.
Qed.

(** C9. In the finished object the saturated curves 1/B
    ([inverseSaturatedGasB_]) and 1/(mu B) ([inverseSaturatedGasBMu_]) of
    every region are those of the columns PG, BG and MUG of the saturated
    table of PVTG. The run goes through its stages from the new object: the
    two curves are empty before the loop over PVTGW, after that loop they are
    those of the PVTGW tables, and the loop over PVTG, which runs on the
    state the loop over PVTGW has left, replaces them. Two completed runs on
    inputs with the same PVTG tables end with the same two curves, whatever
    their PVTGW tables are. *)
Theorem saturated_curves_from_PVTG (eclState : EclipseState Scalar)
    (schedule : Schedule Scalar) (st : WetHumidGasPvt Scalar) :
  initFromState eclState schedule = Ok st →
  (∀ regionIdx pvtgTable,
     getPvtgTables eclState !! regionIdx = Some pvtgTable →
     inverseSaturatedGasB_ st !! regionIdx
       = Some (saturatedInverseB pvtgTable) ∧
     inverseSaturatedGasBMu_ st !! regionIdx
       = Some (saturatedInverseBMu pvtgTable)) ∧
  length (inverseSaturatedGasB_ st) = length (getPvtgTables eclState) ∧
  length (inverseSaturatedGasBMu_ st) = length (getPvtgTables eclState) ∧
  (let n := length (getPvtgwTables eclState) in
   ∃ st1 st2 st3 st4,
     forRange (densityRegion (getDensityTable eclState)) 0 n (setNumRegions n)
       = Ok st1 ∧
     (if bool_decide (getRwgSaltTables eclState = [])
      then Ok (set_enableRwgSalt false st1)
      else forRange (saltRegion (getRwgSaltTables eclState)) 0 n
             (set_enableRwgSalt true st1)) = Ok st2 ∧
     forRange (pvtgwRegion (getPvtgwTables eclState)) 0 n st2 = Ok st3 ∧
     forRange (pvtgRegion (getPvtgTables eclState)) 0 n st3 = Ok st4 ∧
     readVapPars schedule st4 = Ok st ∧
     inverseSaturatedGasB_ st2 = replicate n emptyTabulated1D ∧
     inverseSaturatedGasBMu_ st2 = replicate n emptyTabulated1D ∧
     ∀ regionIdx pvtgwTable,
       getPvtgwTables eclState !! regionIdx = Some pvtgwTable →
       inverseSaturatedGasB_ st3 !! regionIdx
         = Some (saturatedInverseB pvtgwTable) ∧
       inverseSaturatedGasBMu_ st3 !! regionIdx
         = Some (saturatedInverseBMu pvtgwTable)) ∧
  ∀ eclState' schedule' st',
    getPvtgTables eclState' = getPvtgTables eclState →
    initFromState eclState' schedule' = Ok st' →
    inverseSaturatedGasB_ st' = inverseSaturatedGasB_ st ∧
    inverseSaturatedGasBMu_ st' = inverseSaturatedGasBMu_ st.
Proof.
  intros Hrun.
  assert (∀ e s (t : WetHumidGasPvt Scalar), initFromState e s = Ok t →
    (∀ r pvtgTable, getPvtgTables e !! r = Some pvtgTable →
       inverseSaturatedGasB_ t !! r = Some (saturatedInverseB pvtgTable) ∧
       inverseSaturatedGasBMu_ t !! r = Some (saturatedInverseBMu pvtgTable)) ∧
    length (inverseSaturatedGasB_ t) = length (getPvtgTables e) ∧
    length (inverseSaturatedGasBMu_ t) = length (getPvtgTables e)) as Hall.
  { intros e s t Ht.
    pose proof (initFromState_Ok _ _ _ Ht) as (_ & Hn & _).
    apply initFromState_tables in Ht
      as (_ & _ & _ & _ & HlS & HlSMu & _ & _ & Hsat).
    split_and!; [done|congruence..]. }
  destruct (Hall _ _ _ Hrun) as (Hsat & HlS & HlSMu).
  split_and!; [done..|by apply initFromState_PVTGW_pass|].
  intros eclState' schedule' st' Hpvtg Hrun'.
  destruct (Hall _ _ _ Hrun') as (Hsat' & HlS' & HlSMu').
  rewrite Hpvtg in Hsat', HlS', HlSMu'.
  split; apply list_eq; intros r;
    destruct (getPvtgTables eclState !! r) as [tbl|] eqn:Htbl.
  - destruct (Hsat r tbl Htbl) as [-> _]. by destruct (Hsat' r tbl Htbl) as [-> _].
  - apply lookup_ge_None in Htbl. rewrite !lookup_ge_None_2 by lia. done.
  - destruct (Hsat r tbl Htbl) as [_ ->]. by destruct (Hsat' r tbl Htbl) as [_ ->].
  - apply lookup_ge_None in Htbl. rewrite !lookup_ge_None_2 by lia. done.
Qed.

End Finished.

(** ** Which exception is raised *)

Section Raise.

Context {Scalar : Type} `{ScalarOps Scalar}.

Local Abbreviation Tabulated2D :=
  (list (Scalar * list (Scalar * Scalar))) (only parsing).

Lemma appendSamplePoint_Raise (i : nat) (y v : Scalar) (t : Tabulated2D)
    (e : Error) :
  appendSamplePoint i y v t = Raise e → lowLevel e.
Proof.
  unfold appendSamplePoint. case_bool_decide; [done|]. intros [= <-]. by right.
Qed.

Lemma extendStep_Raise (xIdx : nat) (prev new : UnderSaturatedRow Scalar)
    (e : Extension Scalar) (err : Error) :
  extendStep xIdx prev new e = Raise err → lowLevel err.
Proof.
  unfold extendStep. intros Hrun. inv_Raise Hrun;
    eauto using back_Raise, appendSamplePoint_Raise. done.
Qed.

Lemma extendRows_Raise (xIdx : nat) (master : SimpleTable) :
  ∀ (e : Extension Scalar) (err : Error),
  extendRows xIdx master e = Raise err → lowLevel err.
Proof.
  induction master as [|m0 rest IH]; intros e err Hrun; [done|].
  destruct rest as [|m1 rest']; [done|].
  rewrite extendRows_cons in Hrun.
  apply bind_Raise in Hrun as [Hstep | (e1 & _ & Hrun)]; [|by eapply IH].
  by eapply extendStep_Raise.
Qed.

Lemma extendTable_Raise (xIdx : nat) (curTable masterTable : SimpleTable)
    (invGasB0 gasMu0 : Tabulated2D) (err : Error) :
  extendTable_ xIdx curTable masterTable invGasB0 gasMu0 = Raise err →
  lowLevel err.
Proof.
  unfold extendTable_. intros Hrun. inv_Raise Hrun; [|done].
  by eapply extendRows_Raise.
Qed.

Lemma scanMaster_Raise (pvtTable : PvtxTable Scalar) (n : nat) :
  ∀ (m : nat) (e : Error), scanMaster pvtTable m n = Raise e → lowLevel e.
Proof.
  induction n as [|n IH]; intros m e Hrun; [done|]. simpl in Hrun.
  apply bind_Raise in Hrun as [Hrun | (t & _ & Hrun)].
  - by eapply at_index_Raise.
  - case_bool_decide; [done|]. by eapply IH.
Qed.

(** The extrapolation step raises the exception of [initFromState] at a node
    with one sample for which the scan has run to the end of the table, and
    at no other place. *)
Lemma completeNode_Raise (name : TableName) (pvtTable : PvtxTable Scalar)
    (xIdx : nat) (t : Tabulated2D * Tabulated2D) (e : Error) :
  completeNode name pvtTable xIdx t = Raise e →
  lowLevel e ∨
  e = ExtrapolationImpossible name ∧
  numY t.1 xIdx = 1 ∧
  ∃ m, findMasterTableIdx pvtTable xIdx = Ok m ∧
       numRows (getSaturatedTable pvtTable) ≤ m.
Proof.
  unfold completeNode. intros Hrun.
  apply bind_Raise in Hrun as [Hrun | (u & Hpos & Hrun)];
    [left; by eapply assert_Raise|].
  apply assert_Ok, bool_decide_eq_true in Hpos.
  case_bool_decide as Htwo; [done|].
  apply bind_Raise in Hrun as [Hrun | (m & Hm & Hrun)];
    [left; by eapply scanMaster_Raise|].
  case_bool_decide as Hlast.
  - injection Hrun as <-. right. split_and!; [done|lia|eauto].
  - left. inv_Raise Hrun;
      eauto using at_index_Raise, extendTable_Raise.
Qed.

Lemma completeTable_Raise (name : TableName) (pvtTable : PvtxTable Scalar)
    (t : Tabulated2D * Tabulated2D) (e : Error) :
  completeTable name pvtTable t = Raise e →
  lowLevel e ∨ e = ExtrapolationImpossible name.
Proof.
  unfold completeTable. intros (k & u & _ & _ & Hb)%forRange_Raise.
  apply completeNode_Raise in Hb as [?|[? _]]; auto.
Qed.

Lemma extractRow_Raise (pvtTable : PvtxTable Scalar) (outerIdx : nat)
    (a : Extraction Scalar) (e : Error) :
  extractRow pvtTable outerIdx a = Raise e → lowLevel e.
Proof.
  unfold extractRow. intros Hrun.
  apply bind_Raise in Hrun as [Hrun | (row & _ & Hrun)];
    [by eapply at_index_Raise|].
  cbn zeta in Hrun. inv_Raise Hrun; eauto using assert_Raise, at_index_Raise.
  - eapply forRange_lowLevel; [|done]. intros k u Hk.
    unfold appendUnderSaturated in Hk. inv_Raise Hk;
      eauto using at_index_Raise, appendSamplePoint_Raise. done.
  - done.
Qed.

Lemma fillFamilyTables_Raise (name : TableName) (pvtTable : PvtxTable Scalar)
    (ft : FamilyTables Scalar) (e : Error) :
  fillFamilyTables name pvtTable ft = Raise e →
  lowLevel e ∨ e = ExtrapolationImpossible name.
Proof.
  unfold fillFamilyTables. intros Hrun.
  apply bind_Raise in Hrun as [Hrun | (a & _ & Hrun)].
  - left. eapply forRange_lowLevel; [|done].
    intros k a. apply extractRow_Raise.
  - apply bind_Raise in Hrun as [Hrun | (t & _ & Hrun)]; [|done].
    by eapply completeTable_Raise.
Qed.

Lemma requireTwoRows_Raise {A} (name : TableName) (saturatedTable : list A)
    (e : Error) :
  requireTwoRows name saturatedTable = Raise e →
  e = InsufficientData name ∧ numRows saturatedTable < 2.
Proof. unfold requireTwoRows. case_bool_decide; [|done]. by intros [= <-]. Qed.

Lemma get_pvtgw_Raise (regionIdx : nat) (st : WetHumidGasPvt Scalar) (e : Error) :
  get_pvtgw regionIdx st = Raise e → lowLevel e.
Proof.
  unfold get_pvtgw. intros Hrun. inv_Raise Hrun; eauto using at_index_Raise.
  done.
Qed.

Lemma get_pvtg_Raise (regionIdx : nat) (st : WetHumidGasPvt Scalar) (e : Error) :
  get_pvtg regionIdx st = Raise e → lowLevel e.
Proof.
  unfold get_pvtg. intros Hrun. inv_Raise Hrun; eauto using at_index_Raise.
  done.
Qed.

(** The exceptions of the three loops over the regions. *)
Lemma pvtgwRegion_Raise (pvtgwTables : list (PvtxTable Scalar)) (regionIdx : nat)
    (st : WetHumidGasPvt Scalar) (e : Error) :
  pvtgwRegion pvtgwTables regionIdx st = Raise e →
  lowLevel e ∨ e = InsufficientData PVTGW ∨ e = ExtrapolationImpossible PVTGW.
Proof.
  unfold pvtgwRegion. intros Hrun.
  apply bind_Raise in Hrun as [Hrun | (tbl & _ & Hrun)];
    [left; by eapply at_index_Raise|].
  apply bind_Raise in Hrun as [[-> _]%requireTwoRows_Raise | (u & _ & Hrun)];
    [auto|].
  apply bind_Raise in Hrun as [Hrun | (ft & _ & Hrun)];
    [left; by eapply get_pvtgw_Raise|].
  apply bind_Raise in Hrun as [Hrun | (ft' & _ & Hrun)]; [|done].
  apply fillFamilyTables_Raise in Hrun as [?|?]; auto.
Qed.

Lemma pvtgRegion_Raise (pvtgTables : list (PvtxTable Scalar)) (regionIdx : nat)
    (st : WetHumidGasPvt Scalar) (e : Error) :
  pvtgRegion pvtgTables regionIdx st = Raise e →
  lowLevel e ∨ e = InsufficientData PVTG ∨ e = ExtrapolationImpossible PVTG.
Proof.
  unfold pvtgRegion. intros Hrun.
  apply bind_Raise in Hrun as [Hrun | (tbl & _ & Hrun)];
    [left; by eapply at_index_Raise|].
  apply bind_Raise in Hrun as [[-> _]%requireTwoRows_Raise | (u & _ & Hrun)];
    [auto|].
  apply bind_Raise in Hrun as [Hrun | (ft & _ & Hrun)];
    [left; by eapply get_pvtg_Raise|].
  apply bind_Raise in Hrun as [Hrun | (ft' & _ & Hrun)]; [|done].
  apply fillFamilyTables_Raise in Hrun as [?|?]; auto.
Qed.

Lemma saltRegion_Raise (rwgsaltTables : list (RwgsaltTable Scalar))
    (regionIdx : nat) (st : WetHumidGasPvt Scalar) (e : Error) :
  saltRegion rwgsaltTables regionIdx st = Raise e →
  lowLevel e ∨ e = InsufficientData RWGSALT.
Proof.
  unfold saltRegion. intros Hrun.
  apply bind_Raise in Hrun as [Hrun | (tbl & _ & Hrun)];
    [left; by eapply at_index_Raise|].
  cbn zeta in Hrun.
  apply bind_Raise in Hrun as [[-> _]%requireTwoRows_Raise | (u & _ & Hrun)];
    [auto|].
  left. inv_Raise Hrun; eauto using at_index_Raise; [|done].
  eapply forRange_lowLevel; [|done]. intros k t Hk.
  unfold saltRow in Hk. inv_Raise Hk; eauto using at_index_Raise.
  eapply forRange_lowLevel; [|done]. intros j t' Hj.
  unfold appendSalt in Hj. inv_Raise Hj;
    eauto using at_index_Raise, appendSamplePoint_Raise.
Qed.

Lemma densityRegion_Raise (densityTable : list (DensityRecord Scalar))
    (regionIdx : nat) (st : WetHumidGasPvt Scalar) (e : Error) :
  densityRegion densityTable regionIdx st = Raise e → lowLevel e.
Proof.
  unfold densityRegion. intros Hrun. inv_Raise Hrun; [|done].
  by eapply at_index_Raise.
Qed.

Lemma readVapPars_Raise (schedule : Schedule Scalar)
    (st : WetHumidGasPvt Scalar) (e : Error) :
  readVapPars schedule st = Raise e → lowLevel e.
Proof.
  unfold readVapPars. intros Hrun. inv_Raise Hrun; [|done].
  by eapply at_index_Raise.
Qed.

End Raise.

(** ** Degenerate nodes without a master *)

Section Masterless.

Context {Scalar : Type} `{ScalarOps Scalar}.

Local Abbreviation Tabulated2D :=
  (list (Scalar * list (Scalar * Scalar))) (only parsing).

Lemma appendUnderSaturated_loop_shape (outerIdx : nat)
    (underSaturatedTable : SimpleTable) (n : nat)
    (t t' : Tabulated2D * Tabulated2D) :
  forRange (appendUnderSaturated outerIdx underSaturatedTable) 0 n t = Ok t' →
  shape t'.1 = alter (λ k, k + n) outerIdx (shape t.1).
Proof.
  intros Hrun.
  apply (forRange_inv (λ j u,
    shape u.1 = alter (λ k, k + j) outerIdx (shape t.1))) in Hrun; [done| |].
  - symmetry. apply list_alter_id. intros k. lia.
  - intros j u u' _ Hu Hstep. unfold appendUnderSaturated in Hstep.
    inv_Ok Hstep. injection Hstep as <-. simpl.
    apply appendSamplePoint_Ok in Ha0 as [_ ->].
    rewrite shape_appendSamples, Hu, list_alter_alter_eq.
    apply list_alter_ext; [|done]. intros k _; simpl. lia.
Qed.

(** The loop over the saturated rows gives the node [outerIdx] as many
    samples as the undersaturated table [outerIdx] has rows. *)
Lemma extractRow_shape (pvtTable : PvtxTable Scalar) (outerIdx : nat)
    (a a' : Extraction Scalar) :
  extractRow pvtTable outerIdx a = Ok a' →
  numX (x_invGasB a) = outerIdx ∧
  ∃ ust,
    underSaturatedTables pvtTable !! outerIdx = Some ust ∧
    shape (x_invGasB a') = shape (x_invGasB a) ++ [length ust].
Proof.
  unfold extractRow. intros Hrun.
  apply bind_Ok in Hrun as (row & _ & Hrun). cbn zeta in Hrun.
  apply bind_Ok in Hrun as (u & HnumX%assert_Ok%bool_decide_eq_true & Hrun).
  apply bind_Ok in Hrun as (u' & _ & Hrun).
  apply bind_Ok in Hrun as (ust & Hust%at_index_Ok & Hrun).
  apply bind_Ok in Hrun as (t & Hloop & Hrun). injection Hrun as <-. simpl.
  unfold numX, appendXPos in HnumX. rewrite length_app in HnumX.
  simpl in HnumX. split; [unfold numX; lia|]. exists ust. split; [done|].
  apply appendUnderSaturated_loop_shape in Hloop. simpl in Hloop.
  rewrite Hloop, shape_appendXPos.
  replace outerIdx with (length (shape (x_invGasB a)) + 0)
    by (rewrite length_shape; unfold numX; lia).
  by rewrite alter_app_r.
Qed.

Lemma extractRows_shape (pvtTable : PvtxTable Scalar) (n : nat)
    (a0 a : Extraction Scalar) :
  forRange (extractRow pvtTable) 0 n a0 = Ok a →
  0 < n →
  shape (x_invGasB a)
    = length <$> take n (underSaturatedTables pvtTable) ∧
  n ≤ length (underSaturatedTables pvtTable).
Proof.
  intros Hrun Hn.
  pose proof (forRange_Ok_at _ 0 n 0 _ _ Hrun ltac:(lia))
    as (a1 & a2 & Hpre & Hfirst).
  injection Hpre as <-.
  apply extractRow_shape in Hfirst as [Hempty _].
  apply (forRange_inv (λ k u,
    shape (x_invGasB u) = length <$> take k (underSaturatedTables pvtTable) ∧
    k ≤ length (underSaturatedTables pvtTable))) in Hrun; [done| |].
  - split; [|lia]. destruct (x_invGasB a0); done.
  - intros k u u' _ [Hu Hk] Hstep.
    apply extractRow_shape in Hstep as (_ & ust & Hust & ->).
    rewrite (take_S_r _ _ _ Hust), fmap_app, Hu. split; [done|].
    by eapply lookup_lt_Some.
Qed.

(** The iterations of the extrapolation step before [k] leave the nodes from
    [k] on as they are. *)
Lemma completeTable_prefix (name : TableName) (pvtTable : PvtxTable Scalar)
    (k : nat) (t u : Tabulated2D * Tabulated2D) :
  forRange (completeNode name pvtTable) 0 k t = Ok u →
  ∀ j, k ≤ j → numY u.1 j = numY t.1 j.
Proof.
  intros Hrun.
  apply (forRange_inv (λ i v, ∀ j, i ≤ j → numY v.1 j = numY t.1 j)
           (completeNode name pvtTable) 0 k t u); [done| |done].
  intros i v v' _ Hv Hstep j Hj.
  apply completeNode_Ok in Hstep as (_ & ptsB & _ & _ & _ & -> & _).
  rewrite numY_appendSamples_ne by lia. apply Hv. lia.
Qed.

(** A node with one sample is completed from a later node with two rows or
    more. *)
Lemma completeNode_Ok_degenerate (name : TableName) (pvtTable : PvtxTable Scalar)
    (xIdx : nat) (t t' : Tabulated2D * Tabulated2D) :
  completeNode name pvtTable xIdx t = Ok t' →
  numY t.1 xIdx = 1 →
  ∃ m master,
    xIdx < m < numRows (getSaturatedTable pvtTable) ∧
    getUnderSaturatedTable pvtTable m = Ok master ∧
    1 < numRows master.
Proof.
  unfold completeNode. intros Hrun Hone.
  apply bind_Ok in Hrun as (u & _ & Hrun).
  case_bool_decide as Htwo; [lia|].
  apply bind_Ok in Hrun as (m & Hm & Hrun).
  case_bool_decide as Hlast; [done|].
  apply findMasterTableIdx_Ok in Hm as (Hlt & Hfound & _).
  destruct Hfound as (master & Hmaster & Hrows); [lia|].
  exists m, master. split_and!; [lia..|done|done].
Qed.

(** The loop body of a region does not complete on a table that has a node
    with one sample and no later node with two rows or more. *)
Lemma fillFamilyTables_masterless (name : TableName)
    (pvtTable : PvtxTable Scalar) (ft : FamilyTables Scalar) (xIdx : nat)
    (single : UnderSaturatedRow Scalar) :
  xIdx < numRows (getSaturatedTable pvtTable) →
  getUnderSaturatedTable pvtTable xIdx = Ok [single] →
  (∀ j, xIdx < j < numRows (getSaturatedTable pvtTable) →
     ∃ tj, getUnderSaturatedTable pvtTable j = Ok tj ∧ numRows tj ≤ 1) →
  ¬ isOk (fillFamilyTables name pvtTable ft).
Proof.
  intros Hx Hsingle Hnone [ft' Hrun]. unfold fillFamilyTables in Hrun.
  apply bind_Ok in Hrun as (a & Hrows & Hrun).
  apply bind_Ok in Hrun as (t & Hcomplete & _).
  apply extractRows_shape in Hrows as [Hshape Hlen]; [|lia].
  unfold completeTable in Hcomplete. simpl in Hcomplete.
  assert (numX (x_invGasB a) = numRows (getSaturatedTable pvtTable)) as HnumX.
  { rewrite <- length_shape, Hshape, length_fmap, length_take.
    unfold numRows in *. lia. }
  rewrite HnumX in Hcomplete.
  apply (forRange_Ok_at _ _ _ xIdx) in Hcomplete as (u & u' & Hpre & Hnode);
    [|lia].
  rewrite Nat.sub_0_r in Hpre.
  apply completeTable_prefix with (j := xIdx) in Hpre; [|done].
  simpl in Hpre.
  assert (numY (x_invGasB a) xIdx = 1) as Hone.
  { rewrite numY_shape, Hshape, list_lookup_fmap, lookup_take_lt by done.
    apply at_index_Ok in Hsingle. by rewrite Hsingle. }
  apply completeNode_Ok_degenerate in Hnode
    as (m & master & Hm & Hmaster & Hrows); [|lia].
  destruct (Hnone m Hm) as (tm & Htm & Hle).
  rewrite Hmaster in Htm. injection Htm as <-. lia.
Qed.

End Masterless.

(** ** The exceptions of initFromState *)

Section Failures.

Context {Scalar : Type} `{ScalarOps Scalar}.

Local Abbreviation Tabulated2D :=
  (list (Scalar * list (Scalar * Scalar))) (only parsing).

(** The exceptions [initFromState] can raise, in the order of its checks. *)
Lemma initFromState_Raise (eclState : EclipseState Scalar)
    (schedule : Schedule Scalar) (e : Error) :
  initFromState eclState schedule = Raise e →
  let w := length (getPvtgwTables eclState) in
  let g := length (getPvtgTables eclState) in
  let d := length (getDensityTable eclState) in
  (w ≠ d ∧ e = TableMismatch PVTGW w d) ∨
  (w = d ∧ g ≠ d ∧ e = TableMismatch PVTG g d) ∨
  (w = d ∧ g = d ∧
   (lowLevel e ∨ ∃ name, e = InsufficientData name ∨
                         e = ExtrapolationImpossible name)).
Proof.
  intros Hrun w g d. unfold initFromState in Hrun. fold w g d in Hrun.
  case_bool_decide as Hw; [injection Hrun as <-; auto|].
  case_bool_decide as Hg; [injection Hrun as <-; auto|].
  right. right. split_and!; [done..|].
  apply bind_Raise in Hrun as [Hrun | (st1 & _ & Hrun)].
  { left. eapply forRange_lowLevel; [|done]. intros k s1.
    apply densityRegion_Raise. }
  cbn zeta in Hrun. apply bind_Raise in Hrun as [Hrun | (st2 & _ & Hrun)].
  { destruct (negb _); [|done].
    apply forRange_Raise in Hrun as (k & s1 & _ & _ & Hb).
    apply saltRegion_Raise in Hb as [?| ->]; eauto. }
  apply bind_Raise in Hrun as [Hrun | (st3 & _ & Hrun)].
  { apply forRange_Raise in Hrun as (k & s1 & _ & _ & Hb).
    apply pvtgwRegion_Raise in Hb as [?|[->| ->]]; eauto. }
  apply bind_Raise in Hrun as [Hrun | (st4 & _ & Hrun)].
  { apply forRange_Raise in Hrun as (k & s1 & _ & _ & Hb).
    apply pvtgRegion_Raise in Hb as [?|[->| ->]]; eauto. }
  apply bind_Raise in Hrun as [Hrun | (st5 & _ & Hrun)]; [|done].
  left. by eapply readVapPars_Raise.
Qed.

(** TableMismatch is the exception of the two comparisons of counts. *)
Lemma initFromState_TableMismatch (eclState : EclipseState Scalar)
    (schedule : Schedule Scalar) (name : TableName) (a b : nat) :
  initFromState eclState schedule = Raise (TableMismatch name a b) →
  a ≠ b ∧ b = length (getDensityTable eclState) ∧
  (name = PVTGW ∧ a = length (getPvtgwTables eclState) ∨
   name = PVTG ∧ a = length (getPvtgTables eclState)).
Proof.
  intros Hrun. apply initFromState_Raise in Hrun.
  destruct Hrun as [[? [= -> -> ->]]|[(? & ? & [= -> -> ->])|(_ & _ & Hrun)]];
    [auto..|].
  destruct Hrun as [[?|?]|[name' [?|?]]]; done.
Qed.

Lemma initFromState_numRegions (eclState : EclipseState Scalar)
    (schedule : Schedule Scalar) (st : WetHumidGasPvt Scalar) :
  initFromState eclState schedule = Ok st →
  numRegions st = length (getDensityTable eclState) ∧
  numRegions st = length (getPvtgwTables eclState).
Proof.
  intros Hrun. pose proof (initFromState_Ok _ _ _ Hrun) as (Hd & _).
  apply initFromState_tables in Hrun as (Hn & _).
  unfold numRegions. simpl in *. lia.
Qed.

(** C4, as the code has it. When the number of PVTGW tables differs from the
    number of density records, [initFromState] raises TableMismatch with
    these two counts, and when they agree and the number of PVTG tables
    differs from the number of density records it raises TableMismatch with
    those two, in both cases whatever the tables contain (nothing is built
    before). TableMismatch is raised in no other case: the number of salt
    tables is compared with nothing. On completion the region count is the
    number of density records. *)
Theorem table_counts_checked (eclState : EclipseState Scalar)
    (schedule : Schedule Scalar) :
  let w := length (getPvtgwTables eclState) in
  let g := length (getPvtgTables eclState) in
  let d := length (getDensityTable eclState) in
  (w ≠ d → initFromState eclState schedule = Raise (TableMismatch PVTGW w d)) ∧
  (w = d → g ≠ d →
   initFromState eclState schedule = Raise (TableMismatch PVTG g d)) ∧
  (∀ name a b,
     initFromState eclState schedule = Raise (TableMismatch name a b) →
     a ≠ b ∧ b = d ∧ (name = PVTGW ∧ a = w ∨ name = PVTG ∧ a = g)) ∧
  (∀ st, initFromState eclState schedule = Ok st → numRegions st = d).
Proof.
  intros w g d. split_and!.
  - intros Hw. unfold initFromState. fold w d.
    by rewrite bool_decide_eq_true_2.
  - intros Hw Hg. unfold initFromState. fold w g d.
    rewrite bool_decide_eq_false_2 by (intros ?; done).
    by rewrite bool_decide_eq_true_2.
  - apply initFromState_TableMismatch.
  - intros st Hrun. by apply initFromState_numRegions in Hrun as [? _].
Qed.

(** C10. When salt tables are present and the numbers of PVTGW tables, PVTG
    tables and density records agree, [initFromState] reads the salt table
    of every region index below the region count without having compared
    the number of salt tables with the region count: TableMismatch is not
    raised whatever that number is, a completed run has found a salt table
    (with a saturated table of two rows or more) at every region index, and
    with fewer salt tables than regions the run does not complete. *)
Theorem salt_table_count_unchecked (eclState : EclipseState Scalar)
    (schedule : Schedule Scalar) :
  getRwgSaltTables eclState ≠ [] →
  length (getPvtgwTables eclState) = length (getDensityTable eclState) →
  length (getPvtgTables eclState) = length (getDensityTable eclState) →
  (∀ name a b,
     initFromState eclState schedule ≠ Raise (TableMismatch name a b)) ∧
  (∀ st, initFromState eclState schedule = Ok st →
     ∀ regionIdx, regionIdx < numRegions st →
       ∃ rwgsaltTable,
         getRwgSaltTables eclState !! regionIdx = Some rwgsaltTable ∧
         2 ≤ numRows (salt_getSaturatedTable rwgsaltTable)) ∧
  (length (getRwgSaltTables eclState) < length (getPvtgwTables eclState) →
   ¬ isOk (initFromState eclState schedule)).
Proof.
  intros Hsalt Hw Hg.
  assert (∀ st, initFromState eclState schedule = Ok st →
     ∀ idx, idx < length (getPvtgwTables eclState) →
       ∃ rwgsaltTable,
         getRwgSaltTables eclState !! idx = Some rwgsaltTable ∧
         2 ≤ numRows (salt_getSaturatedTable rwgsaltTable)) as Hread.
  { intros st Hrun idx Hidx.
    apply initFromState_Ok in Hrun as (_ & _ & st1 & st2 & _ & _ & _ & Hs & _).
    rewrite bool_decide_eq_false_2 in Hs by done.
    destruct (forRange_Ok_at _ _ _ idx _ _ Hs ltac:(lia))
      as (s1 & s2 & _ & Hb).
    apply saltRegion_Ok in Hb as (tbl & t & Htbl & Hrows & _). eauto. }
  split_and!.
  - intros name a b Hrun. apply initFromState_TableMismatch in Hrun.
    destruct Hrun as (Hne & -> & [[_ ->]|[_ ->]]); lia.
  - intros st Hrun idx Hidx. apply (Hread st Hrun).
    apply initFromState_numRegions in Hrun. lia.
  - intros Hshort [st Hrun].
    destruct (Hread st Hrun (length (getRwgSaltTables eclState)) Hshort)
      as (tbl & Htbl & _).
    apply lookup_lt_Some in Htbl. lia.
Qed.

Lemma scanMaster_none (pvtTable : PvtxTable Scalar) (n : nat) :
  ∀ m,
  (∀ j, m ≤ j < m + n →
     ∃ tj, getUnderSaturatedTable pvtTable j = Ok tj ∧ numRows tj ≤ 1) →
  scanMaster pvtTable m n = Ok (m + n).
Proof.
  induction n as [|n IH]; intros m Hnone; simpl.
  - by rewrite Nat.add_0_r.
  - destruct (Hnone m) as (tm & -> & Hrows); [lia|]. rewrite Ok_bind.
    rewrite bool_decide_eq_false_2 by lia.
    rewrite IH; [f_equal; lia|]. intros j Hj. apply Hnone. lia.
Qed.

Lemma scanMaster_first (pvtTable : PvtxTable Scalar) (n : nat) :
  ∀ (start m : nat) (master : SimpleTable),
  start ≤ m < start + n →
  getUnderSaturatedTable pvtTable m = Ok master →
  1 < numRows master →
  (∀ j, start ≤ j < m →
     ∃ tj, getUnderSaturatedTable pvtTable j = Ok tj ∧ numRows tj ≤ 1) →
  scanMaster pvtTable start n = Ok m.
Proof.
  induction n as [|n IH]; intros start m master Hm Hmaster Hrows Hskip;
    [lia|]. simpl.
  destruct (decide (start = m)) as [->|Hne].
  - rewrite Hmaster, Ok_bind. by rewrite bool_decide_eq_true_2.
  - destruct (Hskip start) as (ts & -> & Hle); [lia|]. rewrite Ok_bind.
    rewrite bool_decide_eq_false_2 by lia.
    apply (IH _ _ master); [lia|done..|]. intros j Hj. apply Hskip. lia.
Qed.

(** The loop bodies raise InsufficientData before anything else is done for
    the region. *)
Lemma pvtgwRegion_short (pvtgwTables : list (PvtxTable Scalar))
    (regionIdx : nat) (pvtgwTable : PvtxTable Scalar)
    (st : WetHumidGasPvt Scalar) :
  pvtgwTables !! regionIdx = Some pvtgwTable →
  numRows (getSaturatedTable pvtgwTable) < 2 →
  pvtgwRegion pvtgwTables regionIdx st = Raise (InsufficientData PVTGW).
Proof.
  intros Htbl%at_index_Ok Hrows. unfold pvtgwRegion, requireTwoRows.
  rewrite Htbl, Ok_bind. by rewrite bool_decide_eq_true_2.
Qed.

Lemma pvtgRegion_short (pvtgTables : list (PvtxTable Scalar))
    (regionIdx : nat) (pvtgTable : PvtxTable Scalar)
    (st : WetHumidGasPvt Scalar) :
  pvtgTables !! regionIdx = Some pvtgTable →
  numRows (getSaturatedTable pvtgTable) < 2 →
  pvtgRegion pvtgTables regionIdx st = Raise (InsufficientData PVTG).
Proof.
  intros Htbl%at_index_Ok Hrows. unfold pvtgRegion, requireTwoRows.
  rewrite Htbl, Ok_bind. by rewrite bool_decide_eq_true_2.
Qed.

Lemma saltRegion_short (rwgsaltTables : list (RwgsaltTable Scalar))
    (regionIdx : nat) (rwgsaltTable : RwgsaltTable Scalar)
    (st : WetHumidGasPvt Scalar) :
  rwgsaltTables !! regionIdx = Some rwgsaltTable →
  numRows (salt_getSaturatedTable rwgsaltTable) < 2 →
  saltRegion rwgsaltTables regionIdx st = Raise (InsufficientData RWGSALT).
Proof.
  intros Htbl%at_index_Ok Hrows. unfold saltRegion, requireTwoRows.
  rewrite Htbl, Ok_bind. cbn zeta. by rewrite bool_decide_eq_true_2.
Qed.

(** A run in which the body of one of the three loops over the regions
    cannot complete at some region does not complete. *)
Lemma initFromState_not_Ok (eclState : EclipseState Scalar)
    (schedule : Schedule Scalar) (regionIdx : nat) :
  regionIdx < length (getPvtgwTables eclState) →
  (∀ st, ¬ isOk (pvtgwRegion (getPvtgwTables eclState) regionIdx st)) ∨
  (∀ st, ¬ isOk (pvtgRegion (getPvtgTables eclState) regionIdx st)) ∨
  (getRwgSaltTables eclState ≠ [] ∧
   ∀ st, ¬ isOk (saltRegion (getRwgSaltTables eclState) regionIdx st)) →
  ∃ e, initFromState eclState schedule = Raise e.
Proof.
  intros Hr Hbad.
  destruct (initFromState eclState schedule) as [st|e] eqn:Hrun; [|eauto].
  exfalso.
  apply initFromState_Ok in Hrun
    as (_ & _ & st1 & st2 & st3 & st4 & _ & Hs & Hw & Hg & _).
  destruct Hbad as [Hbad|[Hbad|[Hsalt Hbad]]].
  - eapply (forRange_not_Ok _ 0 _ regionIdx st2); [|done|by exists st3]. lia.
  - eapply (forRange_not_Ok _ 0 _ regionIdx st3); [|done|by exists st4]. lia.
  - rewrite bool_decide_eq_false_2 in Hs by done.
    eapply (forRange_not_Ok _ 0 _ regionIdx (set_enableRwgSalt true st1));
      [|done|by exists st2]. lia.
Qed.

End Failures.

(** ** Well-formed tables *)

Section WellFormed.

Context {Scalar : Type} `{ScalarOps Scalar}.

Local Abbreviation Tabulated2D :=
  (list (Scalar * list (Scalar * Scalar))) (only parsing).

Lemma back_nonempty {A} (l : list A) : l ≠ [] → ∃ a, back l = Ok a.
Proof.
  intros Hl. destruct (last l) as [a|] eqn:Hlast.
  - exists a. by apply back_Ok.
  - by apply last_None in Hlast.
Qed.

Lemma extendStep_total (xIdx : nat) (prev new : UnderSaturatedRow Scalar)
    (e : Extension Scalar) :
  RvArray e ≠ [] → gasBArray e ≠ [] → gasMuArray e ≠ [] →
  xIdx < numX (invGasB e) → xIdx < numX (gasMu e) →
  ∃ e', extendStep xIdx prev new e = Ok e' ∧
        RvArray e' ≠ [] ∧ gasBArray e' ≠ [] ∧ gasMuArray e' ≠ [] ∧
        numX (invGasB e') = numX (invGasB e) ∧
        numX (gasMu e') = numX (gasMu e).
Proof.
  intros [r Hr]%back_nonempty [b Hb]%back_nonempty [m Hm]%back_nonempty Hi Hmu.
  unfold extendStep. cbn zeta. rewrite Hr, Ok_bind, Hb, Ok_bind, Hm, Ok_bind.
  rewrite !appendSamplePoint_lt, !Ok_bind by done.
  eexists. split; [done|]. simpl. rewrite !numX_appendSamples.
  split_and!; try done; by intros [_ ?]%app_eq_nil.
Qed.

Lemma extendRows_total (xIdx : nat) (master : SimpleTable) :
  ∀ e : Extension Scalar,
  RvArray e ≠ [] → gasBArray e ≠ [] → gasMuArray e ≠ [] →
  xIdx < numX (invGasB e) → xIdx < numX (gasMu e) →
  isOk (extendRows xIdx master e).
Proof.
  induction master as [|m0 rest IH]; intros e HR HB HM Hi Hmu; [by exists e|].
  destruct rest as [|m1 rest']; [by exists e|].
  rewrite extendRows_cons.
  destruct (extendStep_total xIdx m0 m1 e)
    as (e' & -> & HR' & HB' & HM' & Hi' & Hmu'); [done..|].
  rewrite Ok_bind. apply IH; [done..|lia|lia].
Qed.

Lemma extendTable_total (xIdx : nat) (curTable masterTable : SimpleTable)
    (invGasB0 gasMu0 : Tabulated2D) :
  0 < numRows curTable →
  xIdx < numX invGasB0 → xIdx < numX gasMu0 →
  isOk (extendTable_ xIdx curTable masterTable invGasB0 gasMu0).
Proof.
  intros Hcur Hi Hmu. unfold extendTable_.
  destruct (extendRows_total xIdx masterTable
    {| RvArray := R <$> curTable; gasBArray := BG <$> curTable;
       gasMuArray := MUG <$> curTable; invGasB := invGasB0; gasMu := gasMu0 |})
    as [e ->]; simpl; try done; try (destruct curTable; simpl in *; [lia|done]).
  by eexists.
Qed.

Lemma scanMaster_total (pvtTable : PvtxTable Scalar) (n : nat) :
  ∀ m, m + n ≤ length (underSaturatedTables pvtTable) →
  isOk (scanMaster pvtTable m n).
Proof.
  induction n as [|n IH]; intros m Hm; [by eexists|]. simpl.
  unfold getUnderSaturatedTable.
  destruct (at_index_lt (underSaturatedTables pvtTable) m) as (t & -> & _);
    [lia|].
  rewrite Ok_bind. case_bool_decide; [by eexists|]. apply IH. lia.
Qed.

Lemma wellFormed_lookup (pvtTable : PvtxTable Scalar) (j : nat) :
  wellFormed pvtTable →
  j < numRows (getSaturatedTable pvtTable) →
  ∃ t, underSaturatedTables pvtTable !! j = Some t ∧
       getUnderSaturatedTable pvtTable j = Ok t ∧ 0 < numRows t.
Proof.
  intros [Hlen Hne] Hj.
  destruct (at_index_lt (underSaturatedTables pvtTable) j) as (t & Ht & Hl);
    [lia|].
  exists t. split_and!; [done..|]. by apply (Forall_lookup_1 _ _ _ _ Hne Hl).
Qed.

(** On a well-formed table whose 2-D tables have a node per saturated row,
    with the samples of the undersaturated tables from [xIdx] on, an
    iteration of the extrapolation step completes, or raises
    ExtrapolationImpossible. *)
Lemma completeNode_wellFormed (name : TableName) (pvtTable : PvtxTable Scalar)
    (xIdx : nat) (t : Tabulated2D * Tabulated2D) :
  let P := λ k (u : Tabulated2D * Tabulated2D),
    numX u.1 = numRows (getSaturatedTable pvtTable) ∧
    numX u.2 = numRows (getSaturatedTable pvtTable) ∧
    ∀ j tj, k ≤ j → underSaturatedTables pvtTable !! j = Some tj →
            numY u.1 j = numRows tj in
  wellFormed pvtTable →
  xIdx < numRows (getSaturatedTable pvtTable) →
  P xIdx t →
  (∃ t', completeNode name pvtTable xIdx t = Ok t' ∧ P (S xIdx) t') ∨
  completeNode name pvtTable xIdx t = Raise (ExtrapolationImpossible name).
Proof.
  intros P Hwf Hx (HnB & HnMu & Hraw).
  destruct (wellFormed_lookup _ xIdx Hwf Hx) as (cur & Hcur & HgetCur & Hpos).
  pose proof (Hraw xIdx cur (le_n _) Hcur) as HnumY.
  unfold completeNode.
  rewrite (bool_decide_eq_true_2 (0 < numY t.1 xIdx)) by lia.
  change (assert true) with (Ok ()). rewrite Ok_bind.
  case_bool_decide as Htwo.
  { left. exists t. split; [done|]. subst P. split_and!; [done..|].
    intros j tj Hj. apply Hraw. lia. }
  destruct (scanMaster_total pvtTable
    (numRows (getSaturatedTable pvtTable) - (xIdx + 1)) (xIdx + 1))
    as [m Hm]; [destruct Hwf as [-> _]; lia|].
  unfold findMasterTableIdx. rewrite Hm, Ok_bind.
  case_bool_decide as Hlast; [by right|]. left.
  destruct (wellFormed_lookup _ m Hwf) as (master & _ & -> & _); [lia|].
  rewrite HgetCur, !Ok_bind.
  destruct (extendTable_total xIdx cur master t.1 t.2) as [[invB mu] Hext];
    [done|lia..|].
  exists (invB, mu). split; [done|].
  apply extendTable_Ok in Hext as (_ & ptsB & ptsMu & _ & _ & -> & ->).
  subst P. simpl. rewrite !numX_appendSamples. split_and!; [done..|].
  intros j tj Hj Htj. rewrite numY_appendSamples_ne by lia.
  apply Hraw; [lia|done].
Qed.

Lemma appendUnderSaturated_total (outerIdx : nat)
    (underSaturatedTable : SimpleTable) (t : Tabulated2D * Tabulated2D) :
  outerIdx < numX t.1 → outerIdx < numX t.2 →
  ∃ t', forRange (appendUnderSaturated outerIdx underSaturatedTable)
          0 (numRows underSaturatedTable) t = Ok t' ∧
        numX t'.1 = numX t.1 ∧ numX t'.2 = numX t.2.
Proof.
  intros Hi Hmu.
  apply (forRange_total (λ _ u, numX u.1 = numX t.1 ∧ numX u.2 = numX t.2));
    [done|].
  intros k u Hk [HuB HuMu]. unfold appendUnderSaturated.
  destruct (at_index_lt underSaturatedTable k) as (row & -> & _);
    [unfold numRows in Hk; lia|].
  rewrite Ok_bind, !appendSamplePoint_lt, !Ok_bind by lia.
  eexists. split; [done|]. simpl. by rewrite !numX_appendSamples.
Qed.

Lemma extractRow_total (pvtTable : PvtxTable Scalar) (outerIdx : nat)
    (a : Extraction Scalar) :
  wellFormed pvtTable →
  outerIdx < numRows (getSaturatedTable pvtTable) →
  numX (x_invGasB a) = outerIdx → numX (x_gasMu a) = outerIdx →
  ∃ a', extractRow pvtTable outerIdx a = Ok a' ∧
        numX (x_invGasB a') = S outerIdx ∧ numX (x_gasMu a') = S outerIdx.
Proof.
  intros Hwf Hx HnB HnMu. unfold extractRow.
  destruct (at_index_lt (getSaturatedTable pvtTable) outerIdx)
    as (row & -> & _); [done|].
  rewrite Ok_bind. cbn zeta.
  assert (numX (appendXPos (sat_PG row) (x_invGasB a)) = outerIdx + 1) as HB.
  { unfold numX, appendXPos in *. rewrite length_app. simpl. lia. }
  assert (numX (appendXPos (sat_PG row) (x_gasMu a)) = outerIdx + 1) as HMu.
  { unfold numX, appendXPos in *. rewrite length_app. simpl. lia. }
  rewrite !bool_decide_eq_true_2 by done.
  change (assert true) with (Ok ()). rewrite !Ok_bind.
  destruct (wellFormed_lookup _ outerIdx Hwf Hx) as (ust & _ & -> & _).
  rewrite Ok_bind.
  destruct (appendUnderSaturated_total outerIdx ust
    (appendXPos (sat_PG row) (x_invGasB a),
     appendXPos (sat_PG row) (x_gasMu a))) as (t' & -> & HB' & HMu');
    [simpl; lia..|].
  rewrite Ok_bind. eexists. split; [done|]. simpl in *. lia.
Qed.

(** The loop body of a region, on a well-formed table and from empty 2-D
    tables, completes or raises ExtrapolationImpossible. *)
Lemma fillFamilyTables_wellFormed (name : TableName)
    (pvtTable : PvtxTable Scalar) (ft : FamilyTables Scalar) :
  wellFormed pvtTable →
  f_invGasB ft = [] → f_gasMu ft = [] →
  isOk (fillFamilyTables name pvtTable ft) ∨
  fillFamilyTables name pvtTable ft = Raise (ExtrapolationImpossible name).
Proof.
  intros Hwf HB HMu. unfold fillFamilyTables.
  set (a0 := {| x_invGasB := f_invGasB ft; x_gasMu := f_gasMu ft;
                invSatGasBArray := []; invSatGasBMuArray := [] |}).
  destruct (forRange_total
    (λ k a, numX (x_invGasB a) = k ∧ numX (x_gasMu a) = k)
    (extractRow pvtTable) 0 (numRows (getSaturatedTable pvtTable)) a0)
    as (a & Hrows & HnB & HnMu).
  { subst a0. simpl. by rewrite HB, HMu. }
  { intros k a1 Hk [H1 H2].
    destruct (extractRow_total pvtTable k a1) as (a' & ? & ? & ?);
      [done|lia|done..|]. eauto. }
  rewrite Hrows, Ok_bind. simpl in HnB, HnMu.
  assert (∀ j tj, underSaturatedTables pvtTable !! j = Some tj →
            numY (x_invGasB a) j = numRows tj) as Hraw.
  { intros j tj Htj.
    destruct (decide (0 < numRows (getSaturatedTable pvtTable))) as [Hpos|Hz].
    - apply extractRows_shape in Hrows as [Hshape _]; [|done].
      rewrite numY_shape, Hshape, list_lookup_fmap, lookup_take_lt.
      + by rewrite Htj.
      + apply lookup_lt_Some in Htj. destruct Hwf as [<- _]. done.
    - apply lookup_lt_Some in Htj. destruct Hwf as [Hlen _]. lia. }
  unfold completeTable. cbn [fst snd]. rewrite HnB.
  destruct (forRange_Ok_or_Raise
    (λ k (u : Tabulated2D * Tabulated2D),
       numX u.1 = numRows (getSaturatedTable pvtTable) ∧
       numX u.2 = numRows (getSaturatedTable pvtTable) ∧
       ∀ j tj, k ≤ j → underSaturatedTables pvtTable !! j = Some tj →
               numY u.1 j = numRows tj)
    (completeNode name pvtTable) (ExtrapolationImpossible name)
    0 (numRows (getSaturatedTable pvtTable)) (x_invGasB a, x_gasMu a))
    as [(t' & -> & _)| ->]; [| |left; by eexists|by right].
  - simpl. split_and!; [done..|]. intros j tj _. apply Hraw.
  - intros k u Hk HP. apply completeNode_wellFormed; [done|lia|done].
Qed.

End WellFormed.

(** ** The master table and the extrapolation that cannot be done *)

Section Master.

Context {Scalar : Type} `{ScalarOps Scalar}.

Local Abbreviation Tabulated2D :=
  (list (Scalar * list (Scalar * Scalar))) (only parsing).

Lemma lowLevel_not_ExtrapolationImpossible (name : TableName) :
  ¬ lowLevel (ExtrapolationImpossible name).
Proof. by intros [?|?]. Qed.

(** The iteration of the extrapolation step for a node with one sample. *)
Lemma completeNode_master (name : TableName) (pvtTable : PvtxTable Scalar)
    (xIdx m : nat) (t : Tabulated2D * Tabulated2D)
    (curTable masterTable : SimpleTable) :
  numY t.1 xIdx = 1 →
  xIdx < m < numRows (getSaturatedTable pvtTable) →
  getUnderSaturatedTable pvtTable xIdx = Ok curTable →
  getUnderSaturatedTable pvtTable m = Ok masterTable →
  1 < numRows masterTable →
  (∀ j, xIdx < j < m →
     ∃ tj, getUnderSaturatedTable pvtTable j = Ok tj ∧ numRows tj ≤ 1) →
  completeNode name pvtTable xIdx t
    = extendTable_ xIdx curTable masterTable t.1 t.2.
Proof.
  intros Hone Hm Hcur Hmaster Hrows Hskip. unfold completeNode.
  rewrite (bool_decide_eq_true_2 (0 < numY t.1 xIdx)) by lia.
  change (assert true) with (Ok ()). rewrite Ok_bind.
  rewrite (bool_decide_eq_false_2 (1 < numY t.1 xIdx)) by lia.
  unfold findMasterTableIdx.
  rewrite (scanMaster_first _ _ _ m masterTable); [|lia|done..|].
  - rewrite Ok_bind, bool_decide_eq_false_2 by lia.
    by rewrite Hcur, Hmaster, !Ok_bind.
  - intros j Hj. apply Hskip. lia.
Qed.

Lemma completeNode_masterless (name : TableName) (pvtTable : PvtxTable Scalar)
    (xIdx : nat) (t : Tabulated2D * Tabulated2D) :
  numY t.1 xIdx = 1 →
  (∀ j, xIdx < j < numRows (getSaturatedTable pvtTable) →
     ∃ tj, getUnderSaturatedTable pvtTable j = Ok tj ∧ numRows tj ≤ 1) →
  completeNode name pvtTable xIdx t = Raise (ExtrapolationImpossible name).
Proof.
  intros Hone Hnone. unfold completeNode.
  rewrite (bool_decide_eq_true_2 (0 < numY t.1 xIdx)) by lia.
  change (assert true) with (Ok ()). rewrite Ok_bind.
  rewrite (bool_decide_eq_false_2 (1 < numY t.1 xIdx)) by lia.
  unfold findMasterTableIdx. rewrite scanMaster_none.
  - rewrite Ok_bind. by rewrite bool_decide_eq_true_2 by lia.
  - intros j Hj. apply Hnone. lia.
Qed.

(** The loop body of a region does not raise ExtrapolationImpossible when
    the last node has measured undersaturated samples. *)
Lemma fillFamilyTables_lastNodeMeasured (name name' : TableName)
    (pvtTable : PvtxTable Scalar) (ft : FamilyTables Scalar) :
  lastNodeMeasured pvtTable →
  fillFamilyTables name pvtTable ft ≠ Raise (ExtrapolationImpossible name').
Proof.
  intros (k & last & Hk & Hlast & Hrows) Hrun. unfold fillFamilyTables in Hrun.
  apply bind_Raise in Hrun as [Hrun | (a & Hextract & Hrun)].
  { eapply lowLevel_not_ExtrapolationImpossible, forRange_lowLevel; [|done].
    intros i a. apply extractRow_Raise. }
  apply bind_Raise in Hrun as [Hrun | (t & _ & Hrun)]; [|done].
  apply extractRows_shape in Hextract as [Hshape Hlen]; [|lia].
  assert (numX (x_invGasB a) = S k) as HnumX.
  { rewrite <- length_shape, Hshape, length_fmap, length_take.
    unfold numRows in *. lia. }
  unfold completeTable in Hrun. simpl in Hrun. rewrite HnumX in Hrun.
  apply forRange_Raise in Hrun as (xIdx & u & Hx & Hpre & Hnode).
  rewrite Nat.sub_0_r in Hpre.
  apply completeTable_prefix with (j := xIdx) in Hpre; [|done].
  simpl in Hpre.
  apply completeNode_Raise in Hnode as [Hlow|(_ & Hone & m & Hm & Hend)];
    [by apply lowLevel_not_ExtrapolationImpossible in Hlow|].
  rewrite Hpre, numY_shape, Hshape, list_lookup_fmap in Hone.
  apply findMasterTableIdx_Ok in Hm as (_ & _ & Hskip).
  apply at_index_Ok in Hlast as Hlast'.
  destruct (decide (xIdx = k)) as [->|Hne].
  - rewrite lookup_take_lt, Hlast' in Hone by lia. simpl in Hone.
    unfold numRows in Hrows. lia.
  - destruct (Hskip k) as (tk & Htk & Hle); [lia|].
    rewrite Hlast in Htk. injection Htk as <-. lia.
Qed.

(** C6, as the code has it. The extrapolation step leaves a table whose
    branches all have 2 samples or more as it is. ExtrapolationImpossible is
    not raised for a table whose last node has an undersaturated table with
    2 rows or more, nor by [initFromState] when this holds for every PVTGW
    and PVTG table. *)
Theorem extrapolation_of_complete_table :
  (∀ name (pvtTable : PvtxTable Scalar) (t : Tabulated2D * Tabulated2D),
     complete t.1 → completeTable name pvtTable t = Ok t) ∧
  (∀ name name' (pvtTable : PvtxTable Scalar) ft,
     lastNodeMeasured pvtTable →
     fillFamilyTables name pvtTable ft ≠ Raise (ExtrapolationImpossible name')) ∧
  (∀ (eclState : EclipseState Scalar) (schedule : Schedule Scalar) name,
     (∀ pvtTable,
        pvtTable ∈ getPvtgwTables eclState ∨ pvtTable ∈ getPvtgTables eclState →
        lastNodeMeasured pvtTable) →
     initFromState eclState schedule ≠ Raise (ExtrapolationImpossible name)).
Proof.
  split_and!.
  - intros name pvtTable t. apply completeTable_complete.
  - intros name name' pvtTable ft. apply fillFamilyTables_lastNodeMeasured.
  - intros eclState schedule name Hlast Hrun.
    unfold initFromState in Hrun.
    case_bool_decide; [done|]. case_bool_decide; [done|].
    apply bind_Raise in Hrun as [Hrun | (st1 & _ & Hrun)].
    { eapply lowLevel_not_ExtrapolationImpossible, forRange_lowLevel; [|done].
      intros k s1. apply densityRegion_Raise. }
    cbn zeta in Hrun. apply bind_Raise in Hrun as [Hrun | (st2 & _ & Hrun)].
    { destruct (negb _); [|done].
      apply forRange_Raise in Hrun as (k & s1 & _ & _ & Hb).
      apply saltRegion_Raise in Hb as [Hb|Hb]; [|done].
      by apply lowLevel_not_ExtrapolationImpossible in Hb. }
    apply bind_Raise in Hrun as [Hrun | (st3 & _ & Hrun)].
    { apply forRange_Raise in Hrun as (k & s1 & _ & _ & Hb).
      unfold pvtgwRegion in Hb.
      apply bind_Raise in Hb as [Hb | (tbl & Htbl%at_index_Ok & Hb)];
        [by eapply lowLevel_not_ExtrapolationImpossible, at_index_Raise|].
      apply bind_Raise in Hb as [[? _]%requireTwoRows_Raise | (u & _ & Hb)];
        [done|].
      apply bind_Raise in Hb as [Hb | (ft & _ & Hb)];
        [by eapply lowLevel_not_ExtrapolationImpossible, get_pvtgw_Raise|].
      apply bind_Raise in Hb as [Hb | (ft' & _ & Hb)]; [|done].
      eapply fillFamilyTables_lastNodeMeasured; [|done].
      apply Hlast. left. by eapply list_elem_of_lookup_2. }
    apply bind_Raise in Hrun as [Hrun | (st4 & _ & Hrun)].
    { apply forRange_Raise in Hrun as (k & s1 & _ & _ & Hb).
      unfold pvtgRegion in Hb.
      apply bind_Raise in Hb as [Hb | (tbl & Htbl%at_index_Ok & Hb)];
        [by eapply lowLevel_not_ExtrapolationImpossible, at_index_Raise|].
      apply bind_Raise in Hb as [[? _]%requireTwoRows_Raise | (u & _ & Hb)];
        [done|].
      apply bind_Raise in Hb as [Hb | (ft & _ & Hb)];
        [by eapply lowLevel_not_ExtrapolationImpossible, get_pvtg_Raise|].
      apply bind_Raise in Hb as [Hb | (ft' & _ & Hb)]; [|done].
      eapply fillFamilyTables_lastNodeMeasured; [|done].
      apply Hlast. right. by eapply list_elem_of_lookup_2. }
    apply bind_Raise in Hrun as [Hrun | (st5 & _ & Hrun)]; [|done].
    by eapply lowLevel_not_ExtrapolationImpossible, readVapPars_Raise.
Qed.

End Master.

(** ** The size and the order of an extended branch *)

Section Order.

Context {Scalar : Type} `{ScalarOps Scalar}.

Local Abbreviation Tabulated2D :=
  (list (Scalar * list (Scalar * Scalar))) (only parsing).

Lemma length_extrapolatedBranch (last : UnderSaturatedRow Scalar)
    (master : SimpleTable) :
  length (extrapolatedBranch last master) = length master - 1.
Proof.
  revert last. induction master as [|m0 rest IH]; intros last; [done|].
  destruct rest as [|m1 rest']; [done|].
  change (extrapolatedBranch last (m0 :: m1 :: rest'))
    with (extrapolatedPoint last m0 m1
            :: extrapolatedBranch (extrapolatedPoint last m0 m1) (m1 :: rest')).
  cbn [length]. rewrite IH. cbn [length]. lia.
Qed.

Lemma length_synthesizedRatios (ratios : list Scalar) :
  ∀ last, length (synthesizedRatios last ratios) = length ratios - 1.
Proof.
  induction ratios as [|r0 rest IH]; intros last; [done|].
  destruct rest as [|r1 rest']; [done|].
  change (synthesizedRatios last (r0 :: r1 :: rest'))
    with ((last + (r1 - r0))%Sc
            :: synthesizedRatios (last + (r1 - r0))%Sc (r1 :: rest')).
  cbn [length]. rewrite IH. cbn [length]. lia.
Qed.

(** The ratio axis is in order exactly when no step is absorbed. *)
Lemma increasing_synthesizedRatios (ratios : list Scalar) :
  ∀ last,
  increasing (last :: synthesizedRatios last ratios) ↔ stepsKept last ratios.
Proof.
  induction ratios as [|r0 rest IH]; intros last; [done|].
  destruct rest as [|r1 rest']; [done|].
  change (synthesizedRatios last (r0 :: r1 :: rest'))
    with ((last + (r1 - r0))%Sc
            :: synthesizedRatios (last + (r1 - r0))%Sc (r1 :: rest')).
  change (stepsKept last (r0 :: r1 :: rest'))
    with (s_ltb last (last + (r1 - r0))%Sc = true ∧
          stepsKept (last + (r1 - r0))%Sc (r1 :: rest')).
  rewrite <- IH. done.
Qed.

(** One iteration of the loop over the rows of the master table, for the
    ratio: [newRv] goes to the end of [RvArray] and of the branch of the node
    in both tables. *)
Lemma extendStep_ratio (xIdx : nat) (prev new : UnderSaturatedRow Scalar)
    (e : Extension Scalar) (lastRv : Scalar) :
  back (RvArray e) = Ok lastRv →
  gasBArray e ≠ [] → gasMuArray e ≠ [] →
  xIdx < numX (invGasB e) → xIdx < numX (gasMu e) →
  let newRv := (lastRv + (R new - R prev))%Sc in
  ∃ e' vB vMu,
    extendStep xIdx prev new e = Ok e' ∧
    RvArray e' = RvArray e ++ [newRv] ∧
    gasBArray e' ≠ [] ∧ gasMuArray e' ≠ [] ∧
    invGasB e' = appendSamples xIdx [(newRv, vB)] (invGasB e) ∧
    gasMu e' = appendSamples xIdx [(newRv, vMu)] (gasMu e).
Proof.
  intros Hr [b Hb]%back_nonempty [m Hm]%back_nonempty Hi Hmu newRv.
  unfold extendStep. cbn zeta. rewrite Hr, Ok_bind, Hb, Ok_bind, Hm, Ok_bind.
  rewrite !appendSamplePoint_lt, !Ok_bind by done.
  eexists _, _, _. split; [done|]. simpl.
  split_and!; try done; by intros [_ ?]%app_eq_nil.
Qed.

(** The loop over the rows of the master table, for the ratio. *)
Lemma extendRows_ratios (xIdx : nat) (master : SimpleTable) :
  ∀ (e : Extension Scalar) (lastRv : Scalar),
  back (RvArray e) = Ok lastRv →
  gasBArray e ≠ [] → gasMuArray e ≠ [] →
  xIdx < numX (invGasB e) → xIdx < numX (gasMu e) →
  ∃ e' ptsB ptsMu,
    extendRows xIdx master e = Ok e' ∧
    RvArray e' = RvArray e ++ synthesizedRatios lastRv (R <$> master) ∧
    invGasB e' = appendSamples xIdx ptsB (invGasB e) ∧
    gasMu e' = appendSamples xIdx ptsMu (gasMu e) ∧
    ptsB.*1 = synthesizedRatios lastRv (R <$> master) ∧
    ptsMu.*1 = synthesizedRatios lastRv (R <$> master).
Proof.
  induction master as [|m0 rest IH]; intros e lastRv Hr HB HMu Hi Hmu.
  - exists e, [], []. by rewrite !appendSamples_nil, app_nil_r.
  - destruct rest as [|m1 rest'].
    + exists e, [], []. by rewrite !appendSamples_nil, app_nil_r.
    + rewrite extendRows_cons.
      destruct (extendStep_ratio xIdx m0 m1 e lastRv)
        as (e1 & vB & vMu & -> & HR1 & HB1 & HMu1 & HinvB & Hmu1); [done..|].
      rewrite Ok_bind.
      destruct (IH e1 (lastRv + (R m1 - R m0))%Sc)
        as (e' & ptsB & ptsMu & -> & HR' & HinvB' & Hmu' & HptsB & HptsMu);
        [rewrite HR1; apply back_snoc|done..
        |by rewrite HinvB, numX_appendSamples
        |by rewrite Hmu1, numX_appendSamples|].
      exists e', (((lastRv + (R m1 - R m0))%Sc, vB) :: ptsB),
        (((lastRv + (R m1 - R m0))%Sc, vMu) :: ptsMu).
      rewrite HR', HR1, HinvB', HinvB, Hmu', Hmu1, !appendSamples_app.
      rewrite <- app_assoc. rewrite !fmap_cons, HptsB, HptsMu.
      done.
Qed.

(** C7, as the code has it. After the extension of a node with one raw
    sample from a master table with n >= 2 rows, the branch of the node has
    exactly n samples in both tables, in every arithmetic. Its ratio axis is
    the ratio of the raw sample followed by the ratios the loop computes,
    each the one before it plus the step of the master; it is strictly
    increasing exactly when no step is absorbed, each [lastRv + diffRv]
    being above [lastRv] as [Scalar] computes it. *)
Theorem extended_branch_size_and_order (xIdx : nat)
    (s : UnderSaturatedRow Scalar) (masterTable : SimpleTable)
    (invGasB0 gasMu0 : Tabulated2D) (xB xMu : Scalar) :
  invGasB0 !! xIdx = Some (xB, [inverseBSample s]) →
  gasMu0 !! xIdx = Some (xMu, [viscositySample s]) →
  2 ≤ numRows masterTable →
  ∃ invGasB' gasMu',
    extendTable_ xIdx [s] masterTable invGasB0 gasMu0
      = Ok (invGasB', gasMu') ∧
    numY invGasB' xIdx = numRows masterTable ∧
    numY gasMu' xIdx = numRows masterTable ∧
    (branch invGasB' xIdx).*1
      = R s :: synthesizedRatios (R s) (R <$> masterTable) ∧
    (branch gasMu' xIdx).*1
      = R s :: synthesizedRatios (R s) (R <$> masterTable) ∧
    (increasing ((branch invGasB' xIdx).*1)
       ↔ stepsKept (R s) (R <$> masterTable)) ∧
    (increasing ((branch gasMu' xIdx).*1)
       ↔ stepsKept (R s) (R <$> masterTable)).
Proof.
  intros HB HMu Hn.
  assert (xIdx < numX invGasB0) as Hi by by eapply lookup_lt_Some.
  assert (xIdx < numX gasMu0) as Hm by by eapply lookup_lt_Some.
  destruct (extendRows_ratios xIdx masterTable
    {| RvArray := R <$> [s]; gasBArray := BG <$> [s];
       gasMuArray := MUG <$> [s]; invGasB := invGasB0; gasMu := gasMu0 |}
    (R s)) as (e' & ptsB & ptsMu & Hrun & _ & HinvB & Hmu & HptsB & HptsMu);
    [done..|].
  simpl in HinvB, Hmu.
  exists (invGasB e'), (gasMu e'). split.
  { unfold extendTable_. by rewrite Hrun. }
  assert ((branch (invGasB e') xIdx).*1
            = R s :: synthesizedRatios (R s) (R <$> masterTable)) as HaxisB.
  { rewrite HinvB, branch_appendSamples_eq by done.
    unfold branch. rewrite HB. cbn [snd]. by rewrite fmap_app, HptsB. }
  assert ((branch (gasMu e') xIdx).*1
            = R s :: synthesizedRatios (R s) (R <$> masterTable)) as HaxisMu.
  { rewrite Hmu, branch_appendSamples_eq by done.
    unfold branch. rewrite HMu. cbn [snd]. by rewrite fmap_app, HptsMu. }
  assert (∀ t : Tabulated2D,
    (branch t xIdx).*1 = R s :: synthesizedRatios (R s) (R <$> masterTable) →
    numY t xIdx = numRows masterTable) as Hcount.
  { intros t Ht. rewrite numY_branch, <- (length_fmap fst), Ht. cbn [length].
    rewrite length_synthesizedRatios, length_fmap. unfold numRows in *. lia. }
  split_and!; [by apply Hcount|by apply Hcount|done|done| |].
  - rewrite HaxisB. apply increasing_synthesizedRatios.
  - rewrite HaxisMu. apply increasing_synthesizedRatios.
Qed.

End Order.

(** ** Addition in binary64 *)

Lemma SFadd_comm (prec emax : Z) (x y : spec_float) :
  SFadd prec emax x y = SFadd prec emax y x.
Proof.
  destruct x as [sx|sx| |sx mx ex], y as [sy|sy| |sy my ey]; simpl;
    try done; try (by destruct sx, sy).
  rewrite (Z.min_comm ey ex). f_equal. apply Z.add_comm.
Qed.

(** Addition in binary64 is commutative. *)
Lemma double_add_comm (a b : float) : (a + b)%Sc = (b + a)%Sc.
Proof.
  simpl. rewrite <- (SF2Prim_Prim2SF (a + b)), <- (SF2Prim_Prim2SF (b + a)).
  rewrite !add_spec. unfold SF64add. by rewrite SFadd_comm.
Qed.

(** ** The properties on the sample inputs *)

(** [initFromState] completes on the sample input, with [Sample.finished]. *)
Lemma sample_finished :
  initFromState Sample.eclState Sample.schedule = Ok Sample.finished.
Proof. vm_compute. reflexivity. Qed.

(** C1 on the sample input: the node 1 of the PVTGW table of the region 1,
    which has one measured sample, ends with 3. *)
Lemma sample_no_degenerate_branch :
  ∃ t, inverseGasBRvSat_ Sample.finished !! 1 = Some t ∧ 1 < numX t ∧
       2 ≤ numY t 1.
Proof.
  eexists. split; [vm_compute; reflexivity|]. split; [vm_compute; lia|].
  apply (proj2 (initFromState_no_degenerate_branch Sample.eclState
                  Sample.schedule Sample.finished sample_finished) 1).
  - left. vm_compute. reflexivity.
  - vm_compute. lia.
Defined.

(** C2 in [double], on the node 1 of [Sample.degenerate] and the first two
    rows of its master. *)
Lemma sample_extrapolates :
  let s := Sample.s1 in
  let m0 := Sample.m0 in
  let m1 := Sample.m1 in
  let t := rawTables Sample.degenerate in
  extendTable_ 1 [s] [m0; m1] t.1 t.2
    = Ok (appendSamples 1 [inverseBSample (extrapolatedPoint s m0 m1)] t.1,
          appendSamples 1 [viscositySample (extrapolatedPoint s m0 m1)] t.2).
Proof.
  intros s m0 m1 t.
  apply (proj1 (extendTable_extrapolates double_add_comm 1 s [m0; m1] t.1 t.2
                  ltac:(vm_compute; lia) ltac:(vm_compute; lia)) m0 m1).
  reflexivity.
Defined.

(** C4 does not hold as it is stated: with one region and two salt tables
    the counts are not all equal, and [initFromState] completes. *)
Lemma two_salt_tables_accepted :
  getRwgSaltTables Sample.twoSaltTables ≠ [] ∧
  length (getRwgSaltTables Sample.twoSaltTables)
    ≠ length (getDensityTable Sample.twoSaltTables) ∧
  isOk (initFromState Sample.twoSaltTables Sample.schedule).
Proof.
  split_and!; [discriminate|vm_compute; lia|].
  eexists. vm_compute. reflexivity.
Defined.

(** C4 on the sample inputs. *)
Lemma sample_table_counts :
  initFromState Sample.mismatch Sample.schedule
    = Raise (TableMismatch PVTGW 3 2) ∧
  numRegions Sample.finished = 2.
Proof.
  split.
  - apply (proj1 (table_counts_checked Sample.mismatch Sample.schedule)).
    vm_compute. lia.
  - apply (proj2 (proj2 (proj2
      (table_counts_checked Sample.eclState Sample.schedule)))).
    vm_compute. reflexivity.
Defined.

(** C5 does not hold as it is stated: in [Sample.twoDefects] the saturated
    table of PVTG has one row, and [initFromState] raises
    ExtrapolationImpossible, in the PVTGW loop, which comes first. *)
Lemma short_PVTG_table_behind_extrapolation :
  (∃ table, getPvtgTables Sample.twoDefects !! 0 = Some table ∧
            numRows (getSaturatedTable table) < 2) ∧
  initFromState Sample.twoDefects Sample.schedule
    = Raise (ExtrapolationImpossible PVTGW).
Proof.
  split; [|vm_compute; reflexivity].
  exists Sample.oneRow. split; [reflexivity|vm_compute; lia].
Defined.

(** C6 does not hold as it is stated: the node 0 of [Sample.lastDegenerate]
    has two samples, and the extrapolation step raises
    ExtrapolationImpossible, for the node 1. *)
Lemma complete_branch_then_degenerate_last :
  numY (rawTables Sample.lastDegenerate).1 0 = 2 ∧
  completeTable PVTGW Sample.lastDegenerate (rawTables Sample.lastDegenerate)
    = Raise (ExtrapolationImpossible PVTGW) ∧
  fillFamilyTables PVTGW Sample.lastDegenerate Sample.emptyTables
    = Raise (ExtrapolationImpossible PVTGW).
Proof. split_and!; vm_compute; reflexivity. Defined.

(** C6 on the sample tables. *)
Lemma sample_complete_table :
  completeTable PVTGW Sample.full (rawTables Sample.full)
    = Ok (rawTables Sample.full) ∧
  fillFamilyTables PVTGW Sample.degenerate Sample.emptyTables
    ≠ Raise (ExtrapolationImpossible PVTGW).
Proof.
  split.
  - apply (proj1 (@extrapolation_of_complete_table float _)).
    repeat constructor.
  - apply (proj1 (proj2 (@extrapolation_of_complete_table float _))).
    exists 2, [Sample.m0; Sample.m1; Sample.m2].
    split_and!; [reflexivity|reflexivity|vm_compute; lia].
Defined.

(** C7 does not hold in [double]: the ratios 0 and 1 of the master table
    are strictly increasing, and the ratio the loop computes for the node
    with the single sample of ratio 2^53 is 2^53 again, in [RvArray] and in
    the branch of the node. *)
Lemma absorbed_ratio_step :
  let t := ([(1%float, [inverseBSample Sample.large])],
            [(1%float, [viscositySample Sample.large])]) in
  increasing (R <$> Sample.unitMaster) ∧
  (∃ e,
     extendRows 0 Sample.unitMaster
       {| RvArray := R <$> [Sample.large];
          gasBArray := BG <$> [Sample.large];
          gasMuArray := MUG <$> [Sample.large];
          invGasB := t.1; gasMu := t.2 |} = Ok e ∧
     RvArray e = [9007199254740992; 9007199254740992]%float) ∧
  ∃ invGasB' gasMu',
    extendTable_ 0 [Sample.large] Sample.unitMaster t.1 t.2
      = Ok (invGasB', gasMu') ∧
    (branch invGasB' 0).*1 = [9007199254740992; 9007199254740992]%float ∧
    ¬ increasing ((branch invGasB' 0).*1).
Proof.
  split; [vm_compute; auto|]. split.
  { eexists. split; vm_compute; reflexivity. }
  eexists _, _. split; [vm_compute; reflexivity|].
  split; [vm_compute; reflexivity|].
  vm_compute. intros [? _]. discriminate.
Defined.

(** C7 in [double], on the node 1 of [Sample.degenerate] and its master, the
    node 2, with three rows. *)
Lemma sample_branch_order :
  ∃ invGasB' gasMu',
    extendTable_ 1 [Sample.s1] [Sample.m0; Sample.m1; Sample.m2]
        (rawTables Sample.degenerate).1 (rawTables Sample.degenerate).2
      = Ok (invGasB', gasMu') ∧
    numY invGasB' 1 = 3 ∧
    numY gasMu' 1 = 3 ∧
    (branch invGasB' 1).*1 = [1; 1.5; 2.5]%float ∧
    (branch gasMu' 1).*1 = [1; 1.5; 2.5]%float ∧
    increasing ((branch invGasB' 1).*1) ∧
    increasing ((branch gasMu' 1).*1).
Proof.
  destruct (extended_branch_size_and_order 1 Sample.s1
              [Sample.m0; Sample.m1; Sample.m2]
              (rawTables Sample.degenerate).1 (rawTables Sample.degenerate).2
              20%float 20%float)
    as (invB' & mu' & Hrun & HB & HMu & HaxisB & HaxisMu & HincB & HincMu);
    [reflexivity|reflexivity|vm_compute; lia|].
  exists invB', mu'. split_and!; [done..| |].
  - apply HincB. vm_compute. auto.
  - apply HincMu. vm_compute. auto.
Defined.

(** C8 on the sample input: the schedule has a second step of another
    type. *)
Lemma sample_vapPar1 : vapPar1_ Sample.finished = 0.5%float.
Proof.
  apply (proj2 (vapPar1_from_first_step Sample.eclState
                  Sample.firstStep [Sample.secondStep] []) Sample.finished).
  vm_compute. reflexivity.
Defined.

Lemma sample_finished_families :
  initFromState SampleMore.twoFamilies Sample.schedule
    = Ok SampleMore.finishedFamilies.
Proof. vm_compute. reflexivity. Qed.

(** C9 on the input whose PVTGW table is [Sample.full] and whose PVTG table
    is [SampleMore.humid]: the two saturated tables differ in every column,
    and so do the curves after the loop over PVTGW and at the end. *)
Lemma sample_saturated_curves :
  (inverseSaturatedGasB_ SampleMore.finishedFamilies !! 0
     = Some (saturatedInverseB SampleMore.humid) ∧
   inverseSaturatedGasBMu_ SampleMore.finishedFamilies !! 0
     = Some (saturatedInverseBMu SampleMore.humid)) ∧
  (∃ st2 st3 st4,
     forRange (pvtgwRegion [Sample.full]) 0 1 st2 = Ok st3 ∧
     forRange (pvtgRegion [SampleMore.humid]) 0 1 st3 = Ok st4 ∧
     readVapPars Sample.schedule st4 = Ok SampleMore.finishedFamilies ∧
     inverseSaturatedGasB_ st2 = [emptyTabulated1D] ∧
     inverseSaturatedGasBMu_ st2 = [emptyTabulated1D] ∧
     inverseSaturatedGasB_ st3 !! 0 = Some (saturatedInverseB Sample.full) ∧
     inverseSaturatedGasBMu_ st3 !! 0
       = Some (saturatedInverseBMu Sample.full)) ∧
  xValues (saturatedInverseB SampleMore.humid) = [15; 25]%float ∧
  yValues (saturatedInverseB SampleMore.humid) = [0.5; 0.25]%float ∧
  xValues (saturatedInverseB Sample.full) = [10; 20; 30]%float ∧
  yValues (saturatedInverseB Sample.full) = [1; 2; 4]%float.
Proof.
  destruct (saturated_curves_from_PVTG SampleMore.twoFamilies Sample.schedule
              SampleMore.finishedFamilies sample_finished_families)
    as (Hfinal & _ & _ & Hstages & _).
  split; [by apply Hfinal|]. split; [|by vm_compute].
  destruct Hstages
    as (st1 & st2 & st3 & st4 & _ & _ & Hw & Hg & Hv & HB & HBMu & Hpvtgw).
  exists st2, st3, st4. split_and!; [done..| |]; by apply Hpvtgw.
Defined.

(** C10 on the sample input with two regions and one salt table. *)
Lemma sample_salt_tables :
  ¬ isOk (initFromState Sample.oneSaltTable Sample.schedule) ∧
  initFromState Sample.oneSaltTable Sample.schedule
    ≠ Raise (TableMismatch RWGSALT 1 2).
Proof.
  destruct (salt_table_count_unchecked Sample.oneSaltTable Sample.schedule)
    as (Hmismatch & _ & Hshort); [discriminate|reflexivity|reflexivity|].
  split; [apply Hshort; vm_compute; lia|apply Hmismatch].
Defined.

(** The exception of that run is the one of the access outside the list of
    the salt tables. *)
Lemma sample_salt_tables_OutOfRange :
  initFromState Sample.oneSaltTable Sample.schedule = Raise OutOfRange.
Proof. vm_compute. reflexivity. Qed.

(** * Further properties of the construction *)

(** ** Accesses, loops and the members of the object *)

Lemma at_index_insert_eq {A} (v : list A) (i : nat) (a : A) :
  i < length v → at_index (<[i := a]> v) i = Ok a.
Proof. intros Hi. apply at_index_Ok. by apply list_lookup_insert_eq. Qed.

Lemma at_index_insert_ne {A} (v : list A) (i j : nat) (a : A) :
  i ≠ j → at_index (<[i := a]> v) j = at_index v j.
Proof. intros Hne. unfold at_index. by rewrite list_lookup_insert_ne. Qed.

Lemma at_index_replicate {A} (n i : nat) (a : A) :
  i < n → at_index (replicate n a) i = Ok a.
Proof. intros Hi. apply at_index_Ok. by apply lookup_replicate. Qed.

(** A loop leaves alone what its body leaves alone. *)
Lemma forRange_frame {St A} (proj : St → A) (body : nat → St → Result St)
    (i n : nat) (s s' : St) :
  (∀ k s1 s2, body k s1 = Ok s2 → proj s2 = proj s1) →
  forRange body i n s = Ok s' →
  proj s' = proj s.
Proof.
  intros Hbody Hrun.
  apply (forRange_inv (λ _ u, proj u = proj s)) in Hrun; [done..|].
  intros k s1 s2 _ <-. apply Hbody.
Qed.

(** A loop whose body completes or raises an exception of a kind completes
    or raises an exception of that kind. *)
Lemma forRange_Ok_or_Raise_in {St} (P : nat → St → Prop) (E : Error → Prop)
    (body : nat → St → Result St) (i n : nat) (s : St) :
  P i s →
  (∀ k s1, i ≤ k < i + n → P k s1 →
     (∃ s2, body k s1 = Ok s2 ∧ P (S k) s2) ∨
     (∃ e, body k s1 = Raise e ∧ E e)) →
  (∃ s', forRange body i n s = Ok s' ∧ P (i + n) s') ∨
  (∃ e, forRange body i n s = Raise e ∧ E e).
Proof.
  revert i s. induction n as [|n IH]; intros i s Hs Hbody.
  - left. exists s. by rewrite Nat.add_0_r.
  - simpl. destruct (Hbody i s) as [(s2 & -> & Hs2)|(e & -> & He)];
      [lia|done| |right; by exists e].
    rewrite Ok_bind. replace (i + S n) with (S i + n) by lia.
    apply IH; [done|]. intros k s1 Hk. apply Hbody. lia.
Qed.

Section Members.

Context {Scalar : Type} `{ScalarOps Scalar}.

Local Abbreviation Tabulated2D :=
  (list (Scalar * list (Scalar * Scalar))) (only parsing).

(** The tables of a region a loop body has written are the ones it reads
    back, and the tables of the other regions are as they were. *)
Lemma get_pvtgw_lookup (regionIdx : nat) (st : WetHumidGasPvt Scalar)
    (ft : FamilyTables Scalar) :
  get_pvtgw regionIdx st = Ok ft ↔
  gasMuRvSat_ st !! regionIdx = Some (f_gasMu ft) ∧
  inverseGasBRvSat_ st !! regionIdx = Some (f_invGasB ft) ∧
  inverseSaturatedGasB_ st !! regionIdx = Some (f_invSatGasB ft) ∧
  inverseSaturatedGasBMu_ st !! regionIdx = Some (f_invSatGasBMu ft) ∧
  saturatedWaterVaporizationFactorTable_ st !! regionIdx
    = Some (f_vaporizationFac ft).
Proof.
  unfold get_pvtgw. split.
  - intros Hrun. inv_Ok Hrun. injection Hrun as <-. simpl.
    by apply at_index_Ok in Ha, Ha0, Ha1, Ha2, Ha3.
  - intros (H1 & H2 & H3 & H4 & H5).
    apply at_index_Ok in H1, H2, H3, H4, H5.
    rewrite H1, Ok_bind, H2, Ok_bind, H3, Ok_bind, H4, Ok_bind, H5, Ok_bind.
    by destruct ft.
Qed.

Lemma get_pvtg_lookup (regionIdx : nat) (st : WetHumidGasPvt Scalar)
    (ft : FamilyTables Scalar) :
  get_pvtg regionIdx st = Ok ft ↔
  gasMuRvwSat_ st !! regionIdx = Some (f_gasMu ft) ∧
  inverseGasBRvwSat_ st !! regionIdx = Some (f_invGasB ft) ∧
  inverseSaturatedGasB_ st !! regionIdx = Some (f_invSatGasB ft) ∧
  inverseSaturatedGasBMu_ st !! regionIdx = Some (f_invSatGasBMu ft) ∧
  saturatedOilVaporizationFactorTable_ st !! regionIdx
    = Some (f_vaporizationFac ft).
Proof.
  unfold get_pvtg. split.
  - intros Hrun. inv_Ok Hrun. injection Hrun as <-. simpl.
    by apply at_index_Ok in Ha, Ha0, Ha1, Ha2, Ha3.
  - intros (H1 & H2 & H3 & H4 & H5).
    apply at_index_Ok in H1, H2, H3, H4, H5.
    rewrite H1, Ok_bind, H2, Ok_bind, H3, Ok_bind, H4, Ok_bind, H5, Ok_bind.
    by destruct ft.
Qed.

Lemma get_set_pvtgw_eq (regionIdx : nat) (st : WetHumidGasPvt Scalar)
    (ft ft' : FamilyTables Scalar) :
  get_pvtgw regionIdx st = Ok ft →
  get_pvtgw regionIdx (set_pvtgw regionIdx ft' st) = Ok ft'.
Proof.
  intros (H1 & H2 & H3 & H4 & H5)%get_pvtgw_lookup.
  apply lookup_lt_Some in H1, H2, H3, H4, H5.
  apply get_pvtgw_lookup. simpl. by rewrite !list_lookup_insert_eq.
Qed.

Lemma get_set_pvtgw_ne (regionIdx r : nat) (st : WetHumidGasPvt Scalar)
    (ft' : FamilyTables Scalar) :
  r ≠ regionIdx →
  get_pvtgw r (set_pvtgw regionIdx ft' st) = get_pvtgw r st.
Proof.
  intros Hne. unfold get_pvtgw. simpl. by rewrite !at_index_insert_ne.
Qed.

Lemma get_set_pvtg_eq (regionIdx : nat) (st : WetHumidGasPvt Scalar)
    (ft ft' : FamilyTables Scalar) :
  get_pvtg regionIdx st = Ok ft →
  get_pvtg regionIdx (set_pvtg regionIdx ft' st) = Ok ft'.
Proof.
  intros (H1 & H2 & H3 & H4 & H5)%get_pvtg_lookup.
  apply lookup_lt_Some in H1, H2, H3, H4, H5.
  apply get_pvtg_lookup. simpl. by rewrite !list_lookup_insert_eq.
Qed.

Lemma get_set_pvtg_ne (regionIdx r : nat) (st : WetHumidGasPvt Scalar)
    (ft' : FamilyTables Scalar) :
  r ≠ regionIdx →
  get_pvtg r (set_pvtg regionIdx ft' st) = get_pvtg r st.
Proof.
  intros Hne. unfold get_pvtg. simpl. by rewrite !at_index_insert_ne.
Qed.

(** The loop body of a family reads the 2-D tables of the region only: the
    1-D tables it is given are replaced. *)
Lemma fillFamilyTables_reads (name : TableName) (pvtTable : PvtxTable Scalar)
    (ft ft0 : FamilyTables Scalar) :
  f_invGasB ft = f_invGasB ft0 →
  f_gasMu ft = f_gasMu ft0 →
  fillFamilyTables name pvtTable ft = fillFamilyTables name pvtTable ft0.
Proof. intros HB HMu. unfold fillFamilyTables. by rewrite HB, HMu. Qed.

(** The loop "Table PVTGW", region by region: the tables of a region it has
    passed are what the loop body makes of the tables the region had before
    the loop. *)
Lemma pvtgwLoop_regions (pvtgwTables : list (PvtxTable Scalar)) (n : nat)
    (st st' : WetHumidGasPvt Scalar) :
  forRange (pvtgwRegion pvtgwTables) 0 n st = Ok st' →
  (∀ r, r < n →
     ∃ pvtgwTable ft ft',
       pvtgwTables !! r = Some pvtgwTable ∧
       2 ≤ numRows (getSaturatedTable pvtgwTable) ∧
       get_pvtgw r st = Ok ft ∧
       fillFamilyTables PVTGW pvtgwTable ft = Ok ft' ∧
       get_pvtgw r st' = Ok ft') ∧
  (∀ r, n ≤ r → get_pvtgw r st' = get_pvtgw r st).
Proof.
  intros Hrun.
  apply (forRange_inv (λ k s,
    (∀ r, r < k →
       ∃ pvtgwTable ft ft',
         pvtgwTables !! r = Some pvtgwTable ∧
         2 ≤ numRows (getSaturatedTable pvtgwTable) ∧
         get_pvtgw r st = Ok ft ∧
         fillFamilyTables PVTGW pvtgwTable ft = Ok ft' ∧
         get_pvtgw r s = Ok ft') ∧
    (∀ r, k ≤ r → get_pvtgw r s = get_pvtgw r st))) in Hrun; [done| |].
  - split; [intros r ?; lia|done].
  - intros k s1 s2 _ [Hdone Hrest] Hbody.
    apply pvtgwRegion_Ok in Hbody
      as (tbl & ft & ft' & Htbl & Hrows & Hget & Hfill & ->).
    split.
    + intros r Hr. destruct (decide (r = k)) as [->|Hne].
      * exists tbl, ft, ft'. split_and!; [done..| | |].
        -- by rewrite <- Hrest.
        -- done.
        -- by eapply get_set_pvtgw_eq.
      * destruct (Hdone r) as (tbl' & f & f' & ? & ? & ? & ? & ?); [lia|].
        exists tbl', f, f'. by rewrite get_set_pvtgw_ne.
    + intros r Hr. rewrite get_set_pvtgw_ne by lia. apply Hrest. lia.
Qed.

Lemma pvtgLoop_regions (pvtgTables : list (PvtxTable Scalar)) (n : nat)
    (st st' : WetHumidGasPvt Scalar) :
  forRange (pvtgRegion pvtgTables) 0 n st = Ok st' →
  (∀ r, r < n →
     ∃ pvtgTable ft ft',
       pvtgTables !! r = Some pvtgTable ∧
       2 ≤ numRows (getSaturatedTable pvtgTable) ∧
       get_pvtg r st = Ok ft ∧
       fillFamilyTables PVTG pvtgTable ft = Ok ft' ∧
       get_pvtg r st' = Ok ft') ∧
  (∀ r, n ≤ r → get_pvtg r st' = get_pvtg r st).
Proof.
  intros Hrun.
  apply (forRange_inv (λ k s,
    (∀ r, r < k →
       ∃ pvtgTable ft ft',
         pvtgTables !! r = Some pvtgTable ∧
         2 ≤ numRows (getSaturatedTable pvtgTable) ∧
         get_pvtg r st = Ok ft ∧
         fillFamilyTables PVTG pvtgTable ft = Ok ft' ∧
         get_pvtg r s = Ok ft') ∧
    (∀ r, k ≤ r → get_pvtg r s = get_pvtg r st))) in Hrun; [done| |].
  - split; [intros r ?; lia|done].
  - intros k s1 s2 _ [Hdone Hrest] Hbody.
    apply pvtgRegion_Ok in Hbody
      as (tbl & ft & ft' & Htbl & Hrows & Hget & Hfill & ->).
    split.
    + intros r Hr. destruct (decide (r = k)) as [->|Hne].
      * exists tbl, ft, ft'. split_and!; [done..| | |].
        -- by rewrite <- Hrest.
        -- done.
        -- by eapply get_set_pvtg_eq.
      * destruct (Hdone r) as (tbl' & f & f' & ? & ? & ? & ? & ?); [lia|].
        exists tbl', f, f'. by rewrite get_set_pvtg_ne.
    + intros r Hr. rewrite get_set_pvtg_ne by lia. apply Hrest. lia.
Qed.

End Members.

(** A member the body of a loop over the regions does not write is the same
    after the loop. *)
Ltac region_body_frame :=
  let Hb := fresh in
  intros ? ? ? Hb;
  lazymatch type of Hb with
  | densityRegion _ _ _ = _ => apply densityRegion_Ok in Hb as [? ->]
  | saltRegion _ _ _ = _ =>
      apply saltRegion_Ok in Hb as (? & ? & _ & _ & ->)
  | pvtgwRegion _ _ _ = _ =>
      apply pvtgwRegion_Ok in Hb as (? & ? & ? & _ & _ & _ & _ & ->)
  | pvtgRegion _ _ _ = _ =>
      apply pvtgRegion_Ok in Hb as (? & ? & ? & _ & _ & _ & _ & ->)
  end;
  reflexivity.

Ltac frame Hloop proj :=
  let Hf := fresh "Hframe" in
  assert (Hf := Hloop); apply (forRange_frame proj) in Hf;
  [|region_body_frame].

Section Stages.

Context {Scalar : Type} `{ScalarOps Scalar}.

Local Abbreviation Tabulated2D :=
  (list (Scalar * list (Scalar * Scalar))) (only parsing).

(** The object before the loop "Table PVTGW": the tables of PVTGW and of
    PVTG are those of a new object. *)
Lemma initFromState_before_PVTGW (eclState : EclipseState Scalar)
    (n : nat) (st1 st2 : WetHumidGasPvt Scalar) :
  forRange (densityRegion (getDensityTable eclState)) 0 n (setNumRegions n)
    = Ok st1 →
  (if bool_decide (getRwgSaltTables eclState = [])
   then Ok (set_enableRwgSalt false st1)
   else forRange (saltRegion (getRwgSaltTables eclState)) 0 n
          (set_enableRwgSalt true st1)) = Ok st2 →
  gasMuRvSat_ st2 = replicate n [] ∧
  inverseGasBRvSat_ st2 = replicate n [] ∧
  gasMuRvwSat_ st2 = replicate n [] ∧
  inverseGasBRvwSat_ st2 = replicate n [] ∧
  inverseSaturatedGasB_ st2 = replicate n emptyTabulated1D ∧
  inverseSaturatedGasBMu_ st2 = replicate n emptyTabulated1D ∧
  saturatedWaterVaporizationFactorTable_ st2 = replicate n emptyTabulated1D ∧
  saturatedOilVaporizationFactorTable_ st2 = replicate n emptyTabulated1D.
Proof.
  intros Hd Hs.
  frame Hd (@gasMuRvSat_ Scalar). frame Hd (@inverseGasBRvSat_ Scalar).
  frame Hd (@gasMuRvwSat_ Scalar). frame Hd (@inverseGasBRvwSat_ Scalar).
  frame Hd (@inverseSaturatedGasB_ Scalar).
  frame Hd (@inverseSaturatedGasBMu_ Scalar).
  frame Hd (@saturatedWaterVaporizationFactorTable_ Scalar).
  frame Hd (@saturatedOilVaporizationFactorTable_ Scalar).
  simpl in *. case_bool_decide.
  - injection Hs as <-. simpl. by split_and!.
  - frame Hs (@gasMuRvSat_ Scalar). frame Hs (@inverseGasBRvSat_ Scalar).
    frame Hs (@gasMuRvwSat_ Scalar). frame Hs (@inverseGasBRvwSat_ Scalar).
    frame Hs (@inverseSaturatedGasB_ Scalar).
    frame Hs (@inverseSaturatedGasBMu_ Scalar).
    frame Hs (@saturatedWaterVaporizationFactorTable_ Scalar).
    frame Hs (@saturatedOilVaporizationFactorTable_ Scalar).
    simpl in *. split_and!; congruence.
Qed.

(** A completed run, region by region. The tables [initFromState] makes of
    the PVTGW table of a region are those the loop body makes of it from the
    empty tables of a new object, and the same for PVTG, whose loop body
    sets the two saturated curves as well. *)
Lemma initFromState_regions (eclState : EclipseState Scalar)
    (schedule : Schedule Scalar) (st : WetHumidGasPvt Scalar) :
  initFromState eclState schedule = Ok st →
  (∀ r pvtgwTable, getPvtgwTables eclState !! r = Some pvtgwTable →
     ∃ ft,
       fillFamilyTables PVTGW pvtgwTable newFamilyTables = Ok ft ∧
       2 ≤ numRows (getSaturatedTable pvtgwTable) ∧
       gasMuRvSat_ st !! r = Some (f_gasMu ft) ∧
       inverseGasBRvSat_ st !! r = Some (f_invGasB ft) ∧
       saturatedWaterVaporizationFactorTable_ st !! r
         = Some (f_vaporizationFac ft)) ∧
  (∀ r pvtgTable, getPvtgTables eclState !! r = Some pvtgTable →
     ∃ ft,
       fillFamilyTables PVTG pvtgTable newFamilyTables = Ok ft ∧
       2 ≤ numRows (getSaturatedTable pvtgTable) ∧
       gasMuRvwSat_ st !! r = Some (f_gasMu ft) ∧
       inverseGasBRvwSat_ st !! r = Some (f_invGasB ft) ∧
       saturatedOilVaporizationFactorTable_ st !! r
         = Some (f_vaporizationFac ft)).
Proof.
  intros Hrun.
  apply initFromState_Ok in Hrun
    as (Hdn & Hgn & st1 & st2 & st3 & st4 & Hd & Hs & Hw & Hg & Hv).
  set (n := length (getPvtgwTables eclState)) in *.
  destruct (initFromState_before_PVTGW _ _ _ _ Hd Hs)
    as (H1 & H2 & H3 & H4 & H5 & H6 & H7 & H8).
  apply readVapPars_Ok in Hv as (step & rest & _ & ->).
  split.
  - intros r tbl Htbl.
    assert (r < n) as Hr by by eapply lookup_lt_Some.
    destruct (proj1 (pvtgwLoop_regions _ _ _ _ Hw) r Hr)
      as (tbl' & ft & ft' & Htbl' & Hrows & Hget & Hfill & Hget').
    rewrite Htbl in Htbl'. injection Htbl' as <-.
    apply get_pvtgw_lookup in Hget as (G1 & G2 & _).
    rewrite H1 in G1. rewrite H2 in G2.
    apply lookup_replicate in G1 as [G1 _], G2 as [G2 _].
    apply get_pvtgw_lookup in Hget' as (L1 & L2 & _ & _ & L5).
    frame Hg (@gasMuRvSat_ Scalar). frame Hg (@inverseGasBRvSat_ Scalar).
    frame Hg (@saturatedWaterVaporizationFactorTable_ Scalar).
    exists ft'. simpl. rewrite Hframe, Hframe0, Hframe1.
    split_and!; [|done..].
    rewrite <- Hfill. by apply fillFamilyTables_reads.
  - intros r tbl Htbl.
    assert (r < n) as Hr by (apply lookup_lt_Some in Htbl; lia).
    destruct (proj1 (pvtgLoop_regions _ _ _ _ Hg) r Hr)
      as (tbl' & ft & ft' & Htbl' & Hrows & Hget & Hfill & Hget').
    rewrite Htbl in Htbl'. injection Htbl' as <-.
    apply get_pvtg_lookup in Hget as (G1 & G2 & _).
    frame Hw (@gasMuRvwSat_ Scalar). frame Hw (@inverseGasBRvwSat_ Scalar).
    rewrite Hframe, H3 in G1. rewrite Hframe0, H4 in G2.
    apply lookup_replicate in G1 as [G1 _], G2 as [G2 _].
    apply get_pvtg_lookup in Hget' as (L1 & L2 & _ & _ & L5).
    exists ft'. simpl. split_and!; [|done..].
    rewrite <- Hfill. by apply fillFamilyTables_reads.
Qed.

End Stages.

(** ** What the loop body of a family makes of a table *)

Section Content.

Context {Scalar : Type} `{ScalarOps Scalar}.

Local Abbreviation Tabulated2D :=
  (list (Scalar * list (Scalar * Scalar))) (only parsing).

Lemma appendSamples_last (i : nat) (pts : list (Scalar * Scalar))
    (t : Tabulated2D) (x : Scalar) (samples : list (Scalar * Scalar)) :
  numX t = i →
  appendSamples i pts (t ++ [(x, samples)]) = t ++ [(x, samples ++ pts)].
Proof.
  intros <-. unfold appendSamples, numX.
  rewrite <- (Nat.add_0_r (length t)) at 1. by rewrite alter_app_r.
Qed.

(** The loop over [innerIdx] appends the samples of the undersaturated
    table, in its order, to the node [outerIdx] of both tables. *)
Lemma appendUnderSaturated_loop (outerIdx : nat)
    (underSaturatedTable : SimpleTable) (n : nat)
    (t t' : Tabulated2D * Tabulated2D) :
  forRange (appendUnderSaturated outerIdx underSaturatedTable) 0 n t = Ok t' →
  t'.1 = appendSamples outerIdx
           (inverseBSample <$> take n underSaturatedTable) t.1 ∧
  t'.2 = appendSamples outerIdx
           (viscositySample <$> take n underSaturatedTable) t.2.
Proof.
  intros Hrun.
  apply (forRange_inv (λ k u,
    u.1 = appendSamples outerIdx
            (inverseBSample <$> take k underSaturatedTable) t.1 ∧
    u.2 = appendSamples outerIdx
            (viscositySample <$> take k underSaturatedTable) t.2))
    in Hrun; [done| |].
  - simpl. by rewrite !appendSamples_nil.
  - intros k u1 u2 _ [HB HMu] Hbody. unfold appendUnderSaturated in Hbody.
    apply bind_Ok in Hbody as (row & Hrow%at_index_Ok & Hbody).
    inv_Ok Hbody. injection Hbody as <-. simpl.
    apply appendSamplePoint_Ok in Ha as [_ ->].
    apply appendSamplePoint_Ok in Ha0 as [_ ->].
    rewrite HB, HMu, !appendSamples_app, (take_S_r _ _ _ Hrow), !fmap_app.
    done.
Qed.

(** An iteration of the loop over [outerIdx] adds a node: the pressure of
    the saturated row, with the samples of its undersaturated table. *)
Lemma extractRow_node (pvtTable : PvtxTable Scalar) (outerIdx : nat)
    (a a' : Extraction Scalar) :
  extractRow pvtTable outerIdx a = Ok a' →
  ∃ row ust,
    getSaturatedTable pvtTable !! outerIdx = Some row ∧
    underSaturatedTables pvtTable !! outerIdx = Some ust ∧
    numX (x_invGasB a) = outerIdx ∧
    numX (x_gasMu a) = outerIdx ∧
    x_invGasB a' = x_invGasB a ++ [(sat_PG row, inverseBSample <$> ust)] ∧
    x_gasMu a' = x_gasMu a ++ [(sat_PG row, viscositySample <$> ust)].
Proof.
  unfold extractRow. intros Hrun.
  apply bind_Ok in Hrun as (row & Hrow%at_index_Ok & Hrun).
  cbn zeta in Hrun.
  apply bind_Ok in Hrun as (u1 & HnB%assert_Ok%bool_decide_eq_true & Hrun).
  apply bind_Ok in Hrun as (u2 & HnMu%assert_Ok%bool_decide_eq_true & Hrun).
  apply bind_Ok in Hrun as (ust & Hust%at_index_Ok & Hrun).
  apply bind_Ok in Hrun as (t & Hloop & Hrun). injection Hrun as <-. simpl.
  unfold numX, appendXPos in HnB, HnMu. rewrite length_app in HnB, HnMu.
  simpl in HnB, HnMu.
  assert (numX (x_invGasB a) = outerIdx) as HB by (unfold numX; lia).
  assert (numX (x_gasMu a) = outerIdx) as HMu by (unfold numX; lia).
  apply appendUnderSaturated_loop in Hloop as [-> ->]. simpl.
  unfold numRows. rewrite firstn_all. unfold appendXPos.
  rewrite !appendSamples_last by done.
  exists row, ust. by split_and!.
Qed.

(** From empty tables the loop over [outerIdx] makes the tables of the
    measured samples. *)
Lemma extractRows_raw (pvtTable : PvtxTable Scalar) (a0 a : Extraction Scalar) :
  forRange (extractRow pvtTable) 0 (numRows (getSaturatedTable pvtTable)) a0
    = Ok a →
  x_invGasB a0 = [] →
  x_gasMu a0 = [] →
  (x_invGasB a, x_gasMu a) = rawTables pvtTable ∧
  numRows (getSaturatedTable pvtTable) ≤ length (underSaturatedTables pvtTable).
Proof.
  intros Hrun HB HMu.
  apply (forRange_inv (λ k u,
    x_invGasB u = take k (rawTables pvtTable).1 ∧
    x_gasMu u = take k (rawTables pvtTable).2 ∧
    k ≤ length (underSaturatedTables pvtTable))) in Hrun.
  - destruct Hrun as (-> & -> & Hlen). split; [|done]. simpl.
    rewrite !take_ge; [done|rewrite length_zip_with; unfold numRows; lia..].
  - rewrite HB, HMu. simpl. split_and!; [done..|lia].
  - intros k u1 u2 _ (HuB & HuMu & Hk) Hbody.
    apply extractRow_node in Hbody
      as (row & ust & Hrow & Hust & _ & _ & -> & ->).
    rewrite HuB, HuMu. simpl.
    rewrite (take_S_r _ k (sat_PG row, inverseBSample <$> ust)),
      (take_S_r _ k (sat_PG row, viscositySample <$> ust)).
    + split_and!; [done..|]. apply lookup_lt_Some in Hust. lia.
    + rewrite lookup_zip_with, Hrow. simpl. by rewrite Hust.
    + rewrite lookup_zip_with, Hrow. simpl. by rewrite Hust.
Qed.

Lemma shape_rawTables (pvtTable : PvtxTable Scalar) :
  shape (rawTables pvtTable).1 = shape (rawTables pvtTable).2.
Proof.
  unfold shape, rawTables. simpl. apply list_eq. intros i.
  rewrite !list_lookup_fmap, !lookup_zip_with.
  destruct (getSaturatedTable pvtTable !! i); [|done]. simpl.
  destruct (underSaturatedTables pvtTable !! i); [|done]. simpl.
  by rewrite !length_fmap.
Qed.

Lemma extendsBranches_refl (t : Tabulated2D) : extendsBranches t t.
Proof.
  split; [done|]. intros i x samples Hi. exists []. by rewrite app_nil_r.
Qed.

(** Samples added to a branch that has fewer than two. *)
Lemma extendsBranches_appendSamples (t u : Tabulated2D) (k : nat)
    (pts : list (Scalar * Scalar)) :
  extendsBranches t u →
  u !! k = t !! k →
  numY t k ≤ 1 →
  extendsBranches t (appendSamples k pts u).
Proof.
  intros [Hlen Hext] Hk Hone. split; [by rewrite numX_appendSamples|].
  intros i x samples Hi. unfold appendSamples.
  destruct (decide (i = k)) as [->|Hne].
  - rewrite list_lookup_alter_eq, Hk, Hi. simpl. exists pts. split; [done|].
    unfold numY in Hone. rewrite Hi in Hone. simpl in Hone. lia.
  - rewrite list_lookup_alter_ne by done. by apply Hext.
Qed.

(** The extrapolation step keeps the x positions and the samples it finds,
    and adds samples to no branch that has two or more. *)
Lemma completeTable_extends (name : TableName) (pvtTable : PvtxTable Scalar)
    (t t' : Tabulated2D * Tabulated2D) :
  completeTable name pvtTable t = Ok t' →
  shape t.1 = shape t.2 →
  extendsBranches t.1 t'.1 ∧ extendsBranches t.2 t'.2.
Proof.
  unfold completeTable. intros Hrun Hshape.
  apply (forRange_inv (λ k u,
    extendsBranches t.1 u.1 ∧ extendsBranches t.2 u.2 ∧
    ∀ i, k ≤ i → u.1 !! i = t.1 !! i ∧ u.2 !! i = t.2 !! i)) in Hrun.
  - by destruct Hrun as (? & ? & _).
  - split_and!; [apply extendsBranches_refl..|done].
  - intros k u1 u2 _ (HB & HMu & Hrest) Hbody.
    destruct (Hrest k (le_n _)) as [HkB HkMu].
    assert (numY u1.1 k = numY t.1 k) as HnumY by (unfold numY; by rewrite HkB).
    destruct (decide (1 < numY u1.1 k)) as [Hskip|Hone].
    { rewrite completeNode_skip in Hbody by done. injection Hbody as <-.
      split_and!; [done..|]. intros i Hi. apply Hrest. lia. }
    apply completeNode_Ok in Hbody as (_ & ptsB & ptsMu & _ & _ & -> & ->).
    split_and!.
    + apply extendsBranches_appendSamples; [done..|lia].
    + apply extendsBranches_appendSamples; [done..|].
      rewrite numY_shape, <- Hshape, <- numY_shape. lia.
    + intros i Hi. unfold appendSamples.
      rewrite !list_lookup_alter_ne by lia. apply Hrest. lia.
Qed.

(** The positions of the samples. *)
Lemma positions_appendSamples (i : nat) (pts : list (Scalar * Scalar))
    (t : Tabulated2D) :
  positions (appendSamples i pts t)
    = alter (λ p, (p.1, p.2 ++ pts.*1)) i (positions t).
Proof.
  unfold positions, appendSamples. apply list_fmap_alter, Forall_forall.
  intros node _. simpl. by rewrite fmap_app.
Qed.

Lemma positions_appendXPos (x : Scalar) (t : Tabulated2D) :
  positions (appendXPos x t) = positions t ++ [(x, [])].
Proof. unfold positions, appendXPos. by rewrite fmap_app. Qed.

Lemma shape_positions (t : Tabulated2D) :
  shape t = (λ p : Scalar * list Scalar, length p.2) <$> positions t.
Proof.
  unfold shape, positions. rewrite <- list_fmap_compose.
  apply list_fmap_ext. intros i node _. simpl. by rewrite length_fmap.
Qed.

Lemma extendStep_positions (xIdx : nat) (prev new : UnderSaturatedRow Scalar)
    (e e' : Extension Scalar) :
  extendStep xIdx prev new e = Ok e' →
  positions (invGasB e) = positions (gasMu e) →
  positions (invGasB e') = positions (gasMu e').
Proof.
  unfold extendStep. intros Hrun Heq. cbn zeta in Hrun. inv_Ok Hrun.
  injection Hrun as <-. simpl.
  apply appendSamplePoint_Ok in Ha2 as [_ ->].
  apply appendSamplePoint_Ok in Ha3 as [_ ->].
  by rewrite !positions_appendSamples, Heq.
Qed.

Lemma extendRows_positions (xIdx : nat) (master : SimpleTable) :
  ∀ e e' : Extension Scalar,
  extendRows xIdx master e = Ok e' →
  positions (invGasB e) = positions (gasMu e) →
  positions (invGasB e') = positions (gasMu e').
Proof.
  induction master as [|m0 rest IH]; intros e e' Hrun Heq;
    [by injection Hrun as <-|].
  destruct rest as [|m1 rest']; [by injection Hrun as <-|].
  rewrite extendRows_cons in Hrun.
  apply bind_Ok in Hrun as (e1 & Hstep & Hrun).
  apply (IH e1 e' Hrun). by eapply extendStep_positions.
Qed.

Lemma completeNode_positions (name : TableName) (pvtTable : PvtxTable Scalar)
    (xIdx : nat) (t t' : Tabulated2D * Tabulated2D) :
  completeNode name pvtTable xIdx t = Ok t' →
  positions t.1 = positions t.2 →
  positions t'.1 = positions t'.2.
Proof.
  unfold completeNode. intros Hrun Heq.
  apply bind_Ok in Hrun as (u & _ & Hrun).
  case_bool_decide; [by injection Hrun as <-|].
  apply bind_Ok in Hrun as (m & _ & Hrun).
  case_bool_decide; [done|].
  apply bind_Ok in Hrun as (cur & _ & Hrun).
  apply bind_Ok in Hrun as (master & _ & Hrun).
  unfold extendTable_ in Hrun.
  apply bind_Ok in Hrun as (e & Hrows & Hrun). injection Hrun as <-. simpl.
  by apply extendRows_positions in Hrows.
Qed.

Lemma completeTable_positions (name : TableName) (pvtTable : PvtxTable Scalar)
    (t t' : Tabulated2D * Tabulated2D) :
  completeTable name pvtTable t = Ok t' →
  positions t.1 = positions t.2 →
  positions t'.1 = positions t'.2.
Proof.
  unfold completeTable. intros Hrun Heq.
  apply (forRange_inv (λ _ u, positions u.1 = positions u.2)) in Hrun;
    [done..|].
  intros k u1 u2 _ Hu Hbody. by eapply completeNode_positions.
Qed.

Lemma positions_rawTables (pvtTable : PvtxTable Scalar) :
  positions (rawTables pvtTable).1 = positions (rawTables pvtTable).2.
Proof.
  unfold positions, rawTables. simpl. apply list_eq. intros i.
  rewrite !list_lookup_fmap, !lookup_zip_with.
  destruct (getSaturatedTable pvtTable !! i); [|done]. simpl.
  destruct (underSaturatedTables pvtTable !! i); [|done]. simpl.
  by rewrite <- !list_fmap_compose.
Qed.

(** The loop body of a family, from the empty tables of a new object. *)
Lemma fillFamilyTables_new (name : TableName) (pvtTable : PvtxTable Scalar)
    (ft : FamilyTables Scalar) :
  fillFamilyTables name pvtTable newFamilyTables = Ok ft →
  numRows (getSaturatedTable pvtTable) ≤ length (underSaturatedTables pvtTable) ∧
  completeTable name pvtTable (rawTables pvtTable)
    = Ok (f_invGasB ft, f_gasMu ft) ∧
  f_vaporizationFac ft = saturatedRatio pvtTable.
Proof.
  unfold fillFamilyTables. intros Hrun.
  apply bind_Ok in Hrun as (a & Hrows & Hrun).
  apply bind_Ok in Hrun as (t & Hcomplete & Hrun).
  injection Hrun as <-. simpl.
  apply extractRows_raw in Hrows as [Hraw Hlen]; [|done..].
  rewrite <- Hraw. split_and!; [done|by destruct t|].
  unfold setXYArrays, saturatedRatio, numRows.
  rewrite <- (length_fmap sat_PG) at 1. rewrite firstn_all.
  rewrite <- (length_fmap sat_R). by rewrite firstn_all.
Qed.

End Content.

(** ** The salt tables and the reference densities *)

Section SaltAndDensity.

Context {Scalar : Type} `{ScalarOps Scalar}.

Local Abbreviation Tabulated2D :=
  (list (Scalar * list (Scalar * Scalar))) (only parsing).

Lemma appendSalt_loop (outerIdx : nat)
    (underSaturatedTable : list (RwgsaltRow Scalar)) (n : nat)
    (t t' : Tabulated2D) :
  forRange (appendSalt outerIdx underSaturatedTable) 0 n t = Ok t' →
  t' = appendSamples outerIdx (saltSample <$> take n underSaturatedTable) t.
Proof.
  intros Hrun.
  apply (forRange_inv (λ k u,
    u = appendSamples outerIdx (saltSample <$> take k underSaturatedTable) t))
    in Hrun; [done| |].
  - simpl. by rewrite appendSamples_nil.
  - intros k u1 u2 _ -> Hbody. unfold appendSalt in Hbody.
    apply bind_Ok in Hbody as (row & Hrow%at_index_Ok & Hbody).
    cbn zeta in Hbody. apply appendSamplePoint_Ok in Hbody as [_ ->].
    by rewrite appendSamples_app, (take_S_r _ _ _ Hrow), fmap_app.
Qed.

Lemma saltRow_node (rwgsaltTable : RwgsaltTable Scalar) (outerIdx : nat)
    (t t' : Tabulated2D) :
  saltRow rwgsaltTable outerIdx t = Ok t' →
  numX t = outerIdx →
  ∃ pg ust,
    salt_getSaturatedTable rwgsaltTable !! outerIdx = Some pg ∧
    salt_underSaturatedTables rwgsaltTable !! outerIdx = Some ust ∧
    t' = t ++ [(pg, saltSample <$> ust)].
Proof.
  unfold saltRow. intros Hrun Hn.
  apply bind_Ok in Hrun as (ust & Hust%at_index_Ok & Hrun).
  apply bind_Ok in Hrun as (pg & Hpg%at_index_Ok & Hrun).
  apply appendSalt_loop in Hrun as ->. exists pg, ust.
  split_and!; [done..|]. unfold numRows, appendXPos.
  by rewrite firstn_all, appendSamples_last.
Qed.

Lemma saltRows_samples (rwgsaltTable : RwgsaltTable Scalar) (t : Tabulated2D) :
  forRange (saltRow rwgsaltTable) 0
    (numRows (salt_getSaturatedTable rwgsaltTable)) [] = Ok t →
  t = saltSamples rwgsaltTable.
Proof.
  intros Hrun.
  apply (forRange_inv (λ k u,
    u = take k (saltSamples rwgsaltTable) ∧
    k ≤ length (salt_underSaturatedTables rwgsaltTable))) in Hrun.
  - destruct Hrun as [-> Hlen]. simpl.
    rewrite take_ge; [done|]. unfold saltSamples.
    rewrite length_zip_with. unfold numRows. lia.
  - simpl. split; [done|lia].
  - intros k u1 u2 Hk [-> Hlen] Hbody.
    apply saltRow_node in Hbody as (pg & ust & Hpg & Hust & ->).
    + rewrite (take_S_r _ k (pg, saltSample <$> ust)).
      * split; [done|]. apply lookup_lt_Some in Hust. lia.
      * unfold saltSamples. rewrite lookup_zip_with, Hpg. simpl.
        by rewrite Hust.
    + unfold numX, saltSamples. rewrite length_take, length_zip_with.
      unfold numRows in Hk. lia.
Qed.

(** The loop over the regions of the RWGSALT block, region by region. *)
Lemma saltLoop_samples (rwgsaltTables : list (RwgsaltTable Scalar))
    (n m : nat) (st st' : WetHumidGasPvt Scalar) :
  forRange (saltRegion rwgsaltTables) 0 n st = Ok st' →
  saturatedWaterVaporizationSaltFactorTable_ st = replicate m [] →
  length (saturatedWaterVaporizationSaltFactorTable_ st') = m ∧
  ∀ r, r < n →
    ∃ rwgsaltTable,
      rwgsaltTables !! r = Some rwgsaltTable ∧
      saturatedWaterVaporizationSaltFactorTable_ st' !! r
        = Some (saltSamples rwgsaltTable).
Proof.
  intros Hrun Hnew.
  apply (forRange_inv (λ k s,
    length (saturatedWaterVaporizationSaltFactorTable_ s) = m ∧
    (∀ r, r < k →
       ∃ rwgsaltTable,
         rwgsaltTables !! r = Some rwgsaltTable ∧
         saturatedWaterVaporizationSaltFactorTable_ s !! r
           = Some (saltSamples rwgsaltTable)) ∧
    (∀ r t, k ≤ r →
       saturatedWaterVaporizationSaltFactorTable_ s !! r = Some t → t = [])))
    in Hrun.
  - by destruct Hrun as (? & ? & _).
  - rewrite Hnew, length_replicate. split_and!; [done|intros r ?; lia|].
    by intros r t _ [-> _]%lookup_replicate.
  - intros k s1 s2 _ (Hlen & Hdone & Hrest) Hbody. unfold saltRegion in Hbody.
    apply bind_Ok in Hbody as (tbl & Htbl%at_index_Ok & Hbody).
    cbn zeta in Hbody. apply bind_Ok in Hbody as (u & _ & Hbody).
    apply bind_Ok in Hbody as (t0 & Ht0%at_index_Ok & Hbody).
    apply bind_Ok in Hbody as (t & Hrows & Hbody). injection Hbody as <-.
    simpl. rewrite length_insert.
    rewrite (Hrest k t0 (le_n _) Ht0) in Hrows.
    apply saltRows_samples in Hrows as ->.
    apply lookup_lt_Some in Ht0 as Hk.
    split_and!; [done| |].
    + intros r Hr. destruct (decide (r = k)) as [->|Hne].
      * exists tbl. by rewrite list_lookup_insert_eq.
      * rewrite list_lookup_insert_ne by done. apply Hdone. lia.
    + intros r t Hr. rewrite list_lookup_insert_ne by lia. apply Hrest. lia.
Qed.

(** The first loop over the regions copies the columns of the density
    table. *)
Lemma densityLoop_columns (densityTable : list (DensityRecord Scalar))
    (n : nat) (st st' : WetHumidGasPvt Scalar) :
  forRange (densityRegion densityTable) 0 n st = Ok st' →
  length (gasReferenceDensity_ st) = n →
  length (oilReferenceDensity_ st) = n →
  length (waterReferenceDensity_ st) = n →
  gasReferenceDensity_ st' = gas <$> take n densityTable ∧
  oilReferenceDensity_ st' = oil <$> take n densityTable ∧
  waterReferenceDensity_ st' = water <$> take n densityTable.
Proof.
  intros Hrun HG HO HW.
  apply (forRange_inv (λ k s,
    (length (gasReferenceDensity_ s) = n ∧
     length (oilReferenceDensity_ s) = n ∧
     length (waterReferenceDensity_ s) = n) ∧
    take k (gasReferenceDensity_ s) = gas <$> take k densityTable ∧
    take k (oilReferenceDensity_ s) = oil <$> take k densityTable ∧
    take k (waterReferenceDensity_ s) = water <$> take k densityTable))
    in Hrun.
  - destruct Hrun as ((HG' & HO' & HW') & HtG & HtO & HtW). simpl in *.
    rewrite take_ge in HtG, HtO, HtW by lia. done.
  - done.
  - intros k s1 s2 Hk ((HG' & HO' & HW') & HtG & HtO & HtW) Hbody.
    unfold densityRegion in Hbody.
    apply bind_Ok in Hbody as (d & Hd%at_index_Ok & Hbody).
    injection Hbody as <-. simpl. rewrite !length_insert.
    split; [done|].
    rewrite (take_S_r _ _ _ Hd), !fmap_app. simpl.
    rewrite (take_S_r _ k (gas d)), (take_S_r _ k (oil d)),
      (take_S_r _ k (water d)) by (apply list_lookup_insert_eq; lia).
    rewrite !take_insert_ge by done. by rewrite HtG, HtO, HtW.
Qed.

End SaltAndDensity.

(** ** The members of the finished object *)

Section FinishedMembers.

Context {Scalar : Type} `{ScalarOps Scalar}.

Local Abbreviation Tabulated2D :=
  (list (Scalar * list (Scalar * Scalar))) (only parsing).

(** X1. On completion the reference densities of the object are the columns
    of the density table: the region [r] has the gas, oil and water density
    of the record [r], and the loops that follow the first one leave them as
    they are. *)
Theorem reference_densities_are_the_density_columns
    (eclState : EclipseState Scalar) (schedule : Schedule Scalar)
    (st : WetHumidGasPvt Scalar) :
  initFromState eclState schedule = Ok st →
  gasReferenceDensity_ st = gas <$> getDensityTable eclState ∧
  oilReferenceDensity_ st = oil <$> getDensityTable eclState ∧
  waterReferenceDensity_ st = water <$> getDensityTable eclState.
Proof.
  intros Hrun.
  apply initFromState_Ok in Hrun
    as (Hdn & Hgn & st1 & st2 & st3 & st4 & Hd & Hs & Hw & Hg & Hv).
  apply readVapPars_Ok in Hv as (step & rest & _ & ->). simpl.
  frame Hg (@gasReferenceDensity_ Scalar).
  frame Hg (@oilReferenceDensity_ Scalar).
  frame Hg (@waterReferenceDensity_ Scalar).
  frame Hw (@gasReferenceDensity_ Scalar).
  frame Hw (@oilReferenceDensity_ Scalar).
  frame Hw (@waterReferenceDensity_ Scalar).
  assert (gasReferenceDensity_ st2 = gasReferenceDensity_ st1 ∧
          oilReferenceDensity_ st2 = oilReferenceDensity_ st1 ∧
          waterReferenceDensity_ st2 = waterReferenceDensity_ st1)
    as (Hs1 & Hs2 & Hs3).
  { case_bool_decide.
    - by injection Hs as <-.
    - frame Hs (@gasReferenceDensity_ Scalar).
      frame Hs (@oilReferenceDensity_ Scalar).
      frame Hs (@waterReferenceDensity_ Scalar). done. }
  apply densityLoop_columns in Hd as (HG & HO & HW);
    [|simpl; by rewrite length_replicate..].
  rewrite take_ge in HG, HO, HW by lia. split_and!; congruence.
Qed.

(** X2. On completion the salt flag tells whether the input has salt tables.
    With salt tables, the salt factor table of every region holds the
    samples of the salt table of the region, a node per saturated row with
    the pairs (C_SALT, RVW) of its undersaturated table in their order:
    nothing is added to a branch, also not to one with fewer than two
    samples. Without salt tables the salt factor tables stay empty. *)
Theorem salt_factor_tables_hold_the_salt_samples
    (eclState : EclipseState Scalar) (schedule : Schedule Scalar)
    (st : WetHumidGasPvt Scalar) :
  initFromState eclState schedule = Ok st →
  (enableRwgSalt_ st = true ↔ getRwgSaltTables eclState ≠ []) ∧
  length (saturatedWaterVaporizationSaltFactorTable_ st)
    = length (getDensityTable eclState) ∧
  (getRwgSaltTables eclState = [] →
   saturatedWaterVaporizationSaltFactorTable_ st
     = replicate (length (getDensityTable eclState)) []) ∧
  (getRwgSaltTables eclState ≠ [] →
   ∀ r, r < length (getDensityTable eclState) →
     ∃ rwgsaltTable,
       getRwgSaltTables eclState !! r = Some rwgsaltTable ∧
       saturatedWaterVaporizationSaltFactorTable_ st !! r
         = Some (saltSamples rwgsaltTable)).
Proof.
  intros Hrun. set (n := length (getDensityTable eclState)).
  apply initFromState_Ok in Hrun
    as (Hdn & Hgn & st1 & st2 & st3 & st4 & Hd & Hs & Hw & Hg & Hv).
  rewrite <- Hdn in *. fold n in Hd, Hs, Hw, Hg.
  apply readVapPars_Ok in Hv as (step & rest & _ & ->). simpl.
  frame Hg (@saturatedWaterVaporizationSaltFactorTable_ Scalar).
  frame Hg (@enableRwgSalt_ Scalar).
  frame Hw (@saturatedWaterVaporizationSaltFactorTable_ Scalar).
  frame Hw (@enableRwgSalt_ Scalar).
  frame Hd (@saturatedWaterVaporizationSaltFactorTable_ Scalar).
  rewrite Hframe, Hframe0, Hframe1, Hframe2. simpl in Hframe3.
  case_bool_decide as Hsalt.
  - injection Hs as <-. simpl. rewrite Hframe3, length_replicate.
    split_and!; [split; done|done..].
  - frame Hs (@enableRwgSalt_ Scalar). rewrite Hframe4. simpl.
    apply (saltLoop_samples _ _ n) in Hs as [Hlen Hsamples]; [|done].
    split_and!; [split; done|done..].
Qed.

(** X3. On completion the water vaporization factor table of a region holds
    the columns PG and RW of the saturated table of its PVTGW table, and the
    oil vaporization factor table the columns PG and RV of the saturated
    table of its PVTG table: unlike the two saturated curves, which the two
    loops share, each is written by one loop only. *)
Theorem vaporization_factor_tables_hold_the_saturated_ratios
    (eclState : EclipseState Scalar) (schedule : Schedule Scalar)
    (st : WetHumidGasPvt Scalar) :
  initFromState eclState schedule = Ok st →
  (∀ r pvtgwTable, getPvtgwTables eclState !! r = Some pvtgwTable →
     saturatedWaterVaporizationFactorTable_ st !! r
       = Some (saturatedRatio pvtgwTable)) ∧
  (∀ r pvtgTable, getPvtgTables eclState !! r = Some pvtgTable →
     saturatedOilVaporizationFactorTable_ st !! r
       = Some (saturatedRatio pvtgTable)).
Proof.
  intros [Hw Hg]%initFromState_regions. split.
  - intros r tbl Htbl.
    destruct (Hw r tbl Htbl) as (ft & Hfill & _ & _ & _ & ->).
    by apply fillFamilyTables_new in Hfill as (_ & _ & ->).
  - intros r tbl Htbl.
    destruct (Hg r tbl Htbl) as (ft & Hfill & _ & _ & _ & ->).
    by apply fillFamilyTables_new in Hfill as (_ & _ & ->).
Qed.

Lemma extendsBranches_fst (t t' : Tabulated2D) :
  extendsBranches t t' → t'.*1 = t.*1.
Proof.
  intros [Hn Hnodes]. apply list_eq. intros i. rewrite !list_lookup_fmap.
  destruct (t !! i) as [[x samples]|] eqn:Hi.
  - by destruct (Hnodes i x samples Hi) as (pts & -> & _).
  - apply lookup_ge_None in Hi. rewrite lookup_ge_None_2; [done|].
    unfold numX in Hn. lia.
Qed.

Lemma rawTables_pressures (pvtTable : PvtxTable Scalar) :
  numRows (getSaturatedTable pvtTable) ≤ length (underSaturatedTables pvtTable) →
  (rawTables pvtTable).1.*1 = sat_PG <$> getSaturatedTable pvtTable ∧
  (rawTables pvtTable).2.*1 = sat_PG <$> getSaturatedTable pvtTable.
Proof.
  intros Hlen. unfold rawTables. simpl.
  split; apply list_eq; intros i;
    rewrite !list_lookup_fmap, lookup_zip_with;
    (destruct (getSaturatedTable pvtTable !! i) as [row|] eqn:Hrow; [|done]);
    simpl;
    (destruct (underSaturatedTables pvtTable !! i) as [ust|] eqn:Hust;
       [done|]);
    apply lookup_lt_Some in Hrow; apply lookup_ge_None in Hust;
    unfold numRows in Hlen; lia.
Qed.

(** X4. On completion the 2-D tables of a region keep what the input has
    measured. In the inverse-B table and in the viscosity table made of a
    PVTGW or PVTG table, the x positions are the pressures of the saturated
    rows, and the branch of every node starts with the samples of its
    undersaturated table, in the order of its rows; a node whose
    undersaturated table has two rows or more has these samples and no
    other. *)
Theorem measured_samples_are_kept
    (eclState : EclipseState Scalar) (schedule : Schedule Scalar)
    (st : WetHumidGasPvt Scalar) :
  initFromState eclState schedule = Ok st →
  (∀ r pvtgwTable, getPvtgwTables eclState !! r = Some pvtgwTable →
     ∃ invGasB gasMu,
       inverseGasBRvSat_ st !! r = Some invGasB ∧
       gasMuRvSat_ st !! r = Some gasMu ∧
       invGasB.*1 = sat_PG <$> getSaturatedTable pvtgwTable ∧
       gasMu.*1 = sat_PG <$> getSaturatedTable pvtgwTable ∧
       extendsBranches (rawTables pvtgwTable).1 invGasB ∧
       extendsBranches (rawTables pvtgwTable).2 gasMu) ∧
  (∀ r pvtgTable, getPvtgTables eclState !! r = Some pvtgTable →
     ∃ invGasB gasMu,
       inverseGasBRvwSat_ st !! r = Some invGasB ∧
       gasMuRvwSat_ st !! r = Some gasMu ∧
       invGasB.*1 = sat_PG <$> getSaturatedTable pvtgTable ∧
       gasMu.*1 = sat_PG <$> getSaturatedTable pvtgTable ∧
       extendsBranches (rawTables pvtgTable).1 invGasB ∧
       extendsBranches (rawTables pvtgTable).2 gasMu).
Proof.
  intros [Hw Hg]%initFromState_regions. split.
  - intros r tbl Htbl.
    destruct (Hw r tbl Htbl) as (ft & Hfill & _ & HMu & HB & _).
    apply fillFamilyTables_new in Hfill as (Hlen & Hcomplete & _).
    apply completeTable_extends in Hcomplete as [HextB HextMu];
      [|apply shape_rawTables]. simpl in HextB, HextMu.
    destruct (rawTables_pressures tbl Hlen) as [HpB HpMu].
    exists (f_invGasB ft), (f_gasMu ft). split_and!; [done..| | |done|done].
    + by rewrite (extendsBranches_fst _ _ HextB).
    + by rewrite (extendsBranches_fst _ _ HextMu).
  - intros r tbl Htbl.
    destruct (Hg r tbl Htbl) as (ft & Hfill & _ & HMu & HB & _).
    apply fillFamilyTables_new in Hfill as (Hlen & Hcomplete & _).
    apply completeTable_extends in Hcomplete as [HextB HextMu];
      [|apply shape_rawTables]. simpl in HextB, HextMu.
    destruct (rawTables_pressures tbl Hlen) as [HpB HpMu].
    exists (f_invGasB ft), (f_gasMu ft). split_and!; [done..| | |done|done].
    + by rewrite (extendsBranches_fst _ _ HextB).
    + by rewrite (extendsBranches_fst _ _ HextMu).
Qed.

(** X5. On completion the inverse-B table and the viscosity table of a
    region and a family have their samples at the same positions: the same
    x positions and, at each of them, the same y positions in the same
    order, the synthesized ones included. *)
Theorem tables_of_a_family_share_positions
    (eclState : EclipseState Scalar) (schedule : Schedule Scalar)
    (st : WetHumidGasPvt Scalar) (r : nat) (invGasB gasMu : Tabulated2D) :
  initFromState eclState schedule = Ok st →
  inverseGasBRvSat_ st !! r = Some invGasB ∧ gasMuRvSat_ st !! r = Some gasMu ∨
  inverseGasBRvwSat_ st !! r = Some invGasB ∧
    gasMuRvwSat_ st !! r = Some gasMu →
  positions invGasB = positions gasMu.
Proof.
  intros Hrun Htables.
  pose proof (initFromState_tables _ _ _ Hrun)
    as (L1 & L2 & L3 & L4 & _). simpl in L1, L2, L3, L4.
  pose proof (initFromState_Ok _ _ _ Hrun) as (_ & Hgn & _).
  apply initFromState_regions in Hrun as [Hw Hg].
  destruct Htables as [[HB HMu]|[HB HMu]].
  - apply lookup_lt_Some in HB as Hr. rewrite L1 in Hr.
    apply lookup_lt_is_Some_2 in Hr as [tbl Htbl].
    destruct (Hw r tbl Htbl) as (ft & Hfill & _ & HMu' & HB' & _).
    rewrite HB in HB'. rewrite HMu in HMu'.
    injection HB' as ->. injection HMu' as ->.
    apply fillFamilyTables_new in Hfill as (_ & Hcomplete & _).
    apply completeTable_positions in Hcomplete; [done|].
    apply positions_rawTables.
  - apply lookup_lt_Some in HB as Hr. rewrite L3, <- Hgn in Hr.
    apply lookup_lt_is_Some_2 in Hr as [tbl Htbl].
    destruct (Hg r tbl Htbl) as (ft & Hfill & _ & HMu' & HB' & _).
    rewrite HB in HB'. rewrite HMu in HMu'.
    injection HB' as ->. injection HMu' as ->.
    apply fillFamilyTables_new in Hfill as (_ & Hcomplete & _).
    apply completeTable_positions in Hcomplete; [done|].
    apply positions_rawTables.
Qed.

End FinishedMembers.

(** ** The exceptions and the input *)

Section Exceptions.

Context {Scalar : Type} `{ScalarOps Scalar}.

Local Abbreviation Tabulated2D :=
  (list (Scalar * list (Scalar * Scalar))) (only parsing).

Lemma masterless_not_lastNodeMeasured (pvtTable : PvtxTable Scalar)
    (xIdx : nat) :
  masterless pvtTable xIdx → ¬ lastNodeMeasured pvtTable.
Proof.
  intros (Hx & [single Hsingle] & Hnone) (k & last & Hk & Hlast & Hrows).
  destruct (decide (xIdx = k)) as [->|Hne].
  - rewrite Hsingle in Hlast. injection Hlast as <-. simpl in Hrows. lia.
  - destruct (Hnone k) as (tk & Htk & Hle); [lia|].
    rewrite Hlast in Htk. injection Htk as <-. lia.
Qed.

(** The loop body of a family does not complete on a table with a
    masterless node. *)
Lemma fillFamilyTables_not_masterless (name : TableName)
    (pvtTable : PvtxTable Scalar) (ft ft' : FamilyTables Scalar) (xIdx : nat) :
  fillFamilyTables name pvtTable ft = Ok ft' → ¬ masterless pvtTable xIdx.
Proof.
  intros Hfill (Hx & [single Hsingle] & Hnone).
  eapply fillFamilyTables_masterless; [done..|]. by exists ft'.
Qed.

(** The loop body of a family, from empty 2-D tables, raises
    ExtrapolationImpossible for a masterless node only. *)
Lemma fillFamilyTables_ExtrapolationImpossible (name name' : TableName)
    (pvtTable : PvtxTable Scalar) (ft : FamilyTables Scalar) :
  fillFamilyTables name pvtTable ft = Raise (ExtrapolationImpossible name') →
  f_invGasB ft = [] → f_gasMu ft = [] →
  name' = name ∧ ∃ xIdx, masterless pvtTable xIdx.
Proof.
  unfold fillFamilyTables. intros Hrun HB HMu.
  apply bind_Raise in Hrun as [Hrun | (a & Hextract & Hrun)].
  { exfalso.
    eapply lowLevel_not_ExtrapolationImpossible, forRange_lowLevel; [|done].
    intros i a. apply extractRow_Raise. }
  apply bind_Raise in Hrun as [Hrun | (t & _ & Hrun)]; [|done].
  apply extractRows_raw in Hextract as [Hraw Hlen]; [|done..].
  rewrite Hraw in Hrun. unfold completeTable in Hrun.
  apply forRange_Raise in Hrun as (xIdx & u & Hx & Hpre & Hnode).
  rewrite Nat.sub_0_r in Hpre.
  apply completeTable_prefix with (j := xIdx) in Hpre; [|done].
  apply completeNode_Raise in Hnode as [Hlow|(Hname & Hone & m & Hm & Hend)];
    [by apply lowLevel_not_ExtrapolationImpossible in Hlow|].
  injection Hname as ->. split; [done|]. exists xIdx.
  rewrite Hpre in Hone. unfold numY, rawTables in Hone. simpl in Hone.
  rewrite lookup_zip_with in Hone.
  destruct (getSaturatedTable pvtTable !! xIdx) as [row|] eqn:Hrow;
    [|done]. simpl in Hone.
  destruct (underSaturatedTables pvtTable !! xIdx) as [ust|] eqn:Hust;
    [|done]. simpl in Hone. rewrite length_fmap in Hone.
  destruct ust as [|single [|? ?]]; [done| |done].
  apply findMasterTableIdx_Ok in Hm as (_ & _ & Hskip).
  split_and!.
  - by eapply lookup_lt_Some.
  - exists single. by apply at_index_Ok.
  - intros j Hj. apply Hskip. lia.
Qed.

(** The exceptions of the loop body of a region, with what they tell of the
    table of the region. *)
Lemma pvtgwRegion_Raise_table (pvtgwTables : list (PvtxTable Scalar))
    (regionIdx : nat) (st : WetHumidGasPvt Scalar) (e : Error) :
  pvtgwRegion pvtgwTables regionIdx st = Raise e →
  (∀ ft, get_pvtgw regionIdx st = Ok ft → f_invGasB ft = [] ∧ f_gasMu ft = []) →
  lowLevel e ∨
  ∃ pvtgwTable,
    pvtgwTables !! regionIdx = Some pvtgwTable ∧
    (e = InsufficientData PVTGW ∧ numRows (getSaturatedTable pvtgwTable) < 2 ∨
     e = ExtrapolationImpossible PVTGW ∧
     2 ≤ numRows (getSaturatedTable pvtgwTable) ∧
     ∃ xIdx, masterless pvtgwTable xIdx).
Proof.
  unfold pvtgwRegion. intros Hrun Hnew.
  apply bind_Raise in Hrun as [Hrun | (tbl & Htbl%at_index_Ok & Hrun)];
    [left; by eapply at_index_Raise|].
  apply bind_Raise in Hrun as [[-> Hrows]%requireTwoRows_Raise | (u & Hu & Hrun)];
    [right; exists tbl; auto|].
  assert (2 ≤ numRows (getSaturatedTable tbl)) as Hrows.
  { unfold requireTwoRows in Hu. case_bool_decide; [done|lia]. }
  apply bind_Raise in Hrun as [Hrun | (ft & Hget & Hrun)];
    [left; by eapply get_pvtgw_Raise|].
  apply bind_Raise in Hrun as [Hrun | (ft' & _ & Hrun)]; [|done].
  destruct (Hnew ft Hget) as [HB HMu].
  apply fillFamilyTables_Raise in Hrun as Hkind.
  destruct Hkind as [?| ->]; [by left|].
  apply fillFamilyTables_ExtrapolationImpossible in Hrun as [_ Hnode];
    [|done..].
  right. exists tbl. auto.
Qed.

Lemma pvtgRegion_Raise_table (pvtgTables : list (PvtxTable Scalar))
    (regionIdx : nat) (st : WetHumidGasPvt Scalar) (e : Error) :
  pvtgRegion pvtgTables regionIdx st = Raise e →
  (∀ ft, get_pvtg regionIdx st = Ok ft → f_invGasB ft = [] ∧ f_gasMu ft = []) →
  lowLevel e ∨
  ∃ pvtgTable,
    pvtgTables !! regionIdx = Some pvtgTable ∧
    (e = InsufficientData PVTG ∧ numRows (getSaturatedTable pvtgTable) < 2 ∨
     e = ExtrapolationImpossible PVTG ∧
     2 ≤ numRows (getSaturatedTable pvtgTable) ∧
     ∃ xIdx, masterless pvtgTable xIdx).
Proof.
  unfold pvtgRegion. intros Hrun Hnew.
  apply bind_Raise in Hrun as [Hrun | (tbl & Htbl%at_index_Ok & Hrun)];
    [left; by eapply at_index_Raise|].
  apply bind_Raise in Hrun as [[-> Hrows]%requireTwoRows_Raise | (u & Hu & Hrun)];
    [right; exists tbl; auto|].
  assert (2 ≤ numRows (getSaturatedTable tbl)) as Hrows.
  { unfold requireTwoRows in Hu. case_bool_decide; [done|lia]. }
  apply bind_Raise in Hrun as [Hrun | (ft & Hget & Hrun)];
    [left; by eapply get_pvtg_Raise|].
  apply bind_Raise in Hrun as [Hrun | (ft' & _ & Hrun)]; [|done].
  destruct (Hnew ft Hget) as [HB HMu].
  apply fillFamilyTables_Raise in Hrun as Hkind.
  destruct Hkind as [?| ->]; [by left|].
  apply fillFamilyTables_ExtrapolationImpossible in Hrun as [_ Hnode];
    [|done..].
  right. exists tbl. auto.
Qed.

Lemma saltRegion_Raise_table (rwgsaltTables : list (RwgsaltTable Scalar))
    (regionIdx : nat) (st : WetHumidGasPvt Scalar) (e : Error) :
  saltRegion rwgsaltTables regionIdx st = Raise e →
  lowLevel e ∨
  ∃ rwgsaltTable,
    rwgsaltTables !! regionIdx = Some rwgsaltTable ∧
    e = InsufficientData RWGSALT ∧
    numRows (salt_getSaturatedTable rwgsaltTable) < 2.
Proof.
  intros Hrun. apply saltRegion_Raise in Hrun as Hkind.
  destruct Hkind as [?| ->]; [by left|]. right.
  unfold saltRegion in Hrun.
  apply bind_Raise in Hrun as [Hrun | (tbl & Htbl%at_index_Ok & Hrun)];
    [by apply at_index_Raise in Hrun as [?|?]|].
  cbn zeta in Hrun.
  apply bind_Raise in Hrun as [[_ Hrows]%requireTwoRows_Raise | (u & Hu & Hrun)];
    [by exists tbl|].
  exfalso.
  apply bind_Raise in Hrun as [Hrun | (t0 & _ & Hrun)];
    [by apply at_index_Raise in Hrun as [?|?]|].
  apply bind_Raise in Hrun as [Hrun | (t & _ & Hrun)]; [|done].
  apply forRange_lowLevel in Hrun as [?|?]; [done..|].
  intros k t1 Hrow. unfold saltRow in Hrow.
  apply bind_Raise in Hrow as [Hrow | (ust & _ & Hrow)];
    [by eapply at_index_Raise|].
  apply bind_Raise in Hrow as [Hrow | (pg & _ & Hrow)];
    [by eapply at_index_Raise|].
  eapply forRange_lowLevel; [|done]. intros i t2 Hi. unfold appendSalt in Hi.
  apply bind_Raise in Hi as [Hi | (row & _ & Hi)];
    [by eapply at_index_Raise|].
  by eapply appendSamplePoint_Raise.
Qed.

(** The 2-D tables of the regions a loop has not reached are those of a new
    object. *)
Lemma pvtgwLoop_new (pvtgwTables : list (PvtxTable Scalar)) (k n r : nat)
    (st s : WetHumidGasPvt Scalar) (ft : FamilyTables Scalar) :
  forRange (pvtgwRegion pvtgwTables) 0 k st = Ok s →
  gasMuRvSat_ st = replicate n [] →
  inverseGasBRvSat_ st = replicate n [] →
  k ≤ r →
  get_pvtgw r s = Ok ft → f_invGasB ft = [] ∧ f_gasMu ft = [].
Proof.
  intros Hpre HMu HB Hr Hget.
  rewrite (proj2 (pvtgwLoop_regions _ _ _ _ Hpre) r Hr) in Hget.
  apply get_pvtgw_lookup in Hget as (G1 & G2 & _).
  rewrite HMu in G1. rewrite HB in G2.
  by apply lookup_replicate in G1 as [-> _], G2 as [-> _].
Qed.

Lemma pvtgLoop_new (pvtgTables : list (PvtxTable Scalar)) (k n r : nat)
    (st s : WetHumidGasPvt Scalar) (ft : FamilyTables Scalar) :
  forRange (pvtgRegion pvtgTables) 0 k st = Ok s →
  gasMuRvwSat_ st = replicate n [] →
  inverseGasBRvwSat_ st = replicate n [] →
  k ≤ r →
  get_pvtg r s = Ok ft → f_invGasB ft = [] ∧ f_gasMu ft = [].
Proof.
  intros Hpre HMu HB Hr Hget.
  rewrite (proj2 (pvtgLoop_regions _ _ _ _ Hpre) r Hr) in Hget.
  apply get_pvtg_lookup in Hget as (G1 & G2 & _).
  rewrite HMu in G1. rewrite HB in G2.
  by apply lookup_replicate in G1 as [-> _], G2 as [-> _].
Qed.

End Exceptions.

Section FirstDefect.

Context {Scalar : Type} `{ScalarOps Scalar}.

Local Abbreviation Tabulated2D :=
  (list (Scalar * list (Scalar * Scalar))) (only parsing).

Lemma pvtgwLoop_accepted (pvtgwTables : list (PvtxTable Scalar)) (n : nat)
    (st st' : WetHumidGasPvt Scalar) :
  forRange (pvtgwRegion pvtgwTables) 0 n st = Ok st' →
  ∀ r pvtgwTable, r < n → pvtgwTables !! r = Some pvtgwTable →
    accepted pvtgwTable.
Proof.
  intros Hrun r tbl Hr Htbl.
  destruct (proj1 (pvtgwLoop_regions _ _ _ _ Hrun) r Hr)
    as (tbl' & ft & ft' & Htbl' & Hrows & _ & Hfill & _).
  rewrite Htbl in Htbl'. injection Htbl' as <-. split; [done|].
  intros xIdx. by eapply fillFamilyTables_not_masterless.
Qed.

Lemma pvtgLoop_accepted (pvtgTables : list (PvtxTable Scalar)) (n : nat)
    (st st' : WetHumidGasPvt Scalar) :
  forRange (pvtgRegion pvtgTables) 0 n st = Ok st' →
  ∀ r pvtgTable, r < n → pvtgTables !! r = Some pvtgTable →
    accepted pvtgTable.
Proof.
  intros Hrun r tbl Hr Htbl.
  destruct (proj1 (pvtgLoop_regions _ _ _ _ Hrun) r Hr)
    as (tbl' & ft & ft' & Htbl' & Hrows & _ & Hfill & _).
  rewrite Htbl in Htbl'. injection Htbl' as <-. split; [done|].
  intros xIdx. by eapply fillFamilyTables_not_masterless.
Qed.

Lemma saltStage_accepted (eclState : EclipseState Scalar)
    (st1 st2 : WetHumidGasPvt Scalar) :
  (if bool_decide (getRwgSaltTables eclState = [])
   then Ok (set_enableRwgSalt false st1)
   else forRange (saltRegion (getRwgSaltTables eclState)) 0
          (length (getPvtgwTables eclState))
          (set_enableRwgSalt true st1)) = Ok st2 →
  saltAccepted eclState.
Proof.
  intros Hs. case_bool_decide; [by left|]. right. intros r Hr.
  destruct (forRange_Ok_at _ _ _ r _ _ Hs ltac:(lia)) as (s1 & s2 & _ & Hb).
  apply saltRegion_Ok in Hb as (tbl & t & Htbl & Hrows & _). eauto.
Qed.

(** An exception of [initFromState] that is not the one of an access or of
    an assertion is the one of a comparison of counts, or tells the first
    defect in the order of the three loops over the regions, and in each of
    them of the regions. *)
Lemma initFromState_first_defect (eclState : EclipseState Scalar)
    (schedule : Schedule Scalar) (e : Error) :
  initFromState eclState schedule = Raise e →
  lowLevel e ∨
  (∃ name a b, e = TableMismatch name a b) ∨
  (∃ r rwgsaltTable,
     r < length (getPvtgwTables eclState) ∧
     getRwgSaltTables eclState !! r = Some rwgsaltTable ∧
     e = InsufficientData RWGSALT ∧
     numRows (salt_getSaturatedTable rwgsaltTable) < 2 ∧
     ∀ r' t, r' < r → getRwgSaltTables eclState !! r' = Some t →
       2 ≤ numRows (salt_getSaturatedTable t)) ∨
  (saltAccepted eclState ∧
   ∃ r pvtgwTable,
     getPvtgwTables eclState !! r = Some pvtgwTable ∧
     faulty PVTGW pvtgwTable e ∧
     ∀ r' t, r' < r → getPvtgwTables eclState !! r' = Some t → accepted t) ∨
  (saltAccepted eclState ∧
   (∀ r t, getPvtgwTables eclState !! r = Some t → accepted t) ∧
   ∃ r pvtgTable,
     getPvtgTables eclState !! r = Some pvtgTable ∧
     faulty PVTG pvtgTable e ∧
     ∀ r' t, r' < r → getPvtgTables eclState !! r' = Some t → accepted t).
Proof.
  intros Hrun. unfold initFromState in Hrun.
  case_bool_decide as Hw; [injection Hrun as <-; right; left; eauto|].
  case_bool_decide as Hg; [injection Hrun as <-; right; left; eauto|].
  set (n := length (getPvtgwTables eclState)) in *.
  apply bind_Raise in Hrun as [Hrun | (st1 & Hd & Hrun)].
  { left. eapply forRange_lowLevel; [|done]. intros k s1.
    apply densityRegion_Raise. }
  cbn zeta in Hrun.
  replace (negb (bool_decide (getRwgSaltTables eclState = [])))
    with (bool_decide (getRwgSaltTables eclState ≠ [])) in Hrun
    by (by repeat case_bool_decide).
  apply bind_Raise in Hrun as [Hrun | (st2 & Hs & Hrun)].
  { case_bool_decide as Hsalt; [|done].
    apply forRange_Raise in Hrun as (k & s1 & Hk & Hpre & Hb).
    apply saltRegion_Raise_table in Hb as [?|(tbl & Htbl & -> & Hrows)];
      [by left|].
    right. right. left. exists k, tbl. split_and!; [lia|done..|].
    intros r' t Hr' Ht. rewrite Nat.sub_0_r in Hpre.
    destruct (forRange_Ok_at _ _ _ r' _ _ Hpre ltac:(lia))
      as (s2 & s3 & _ & Hb).
    apply saltRegion_Ok in Hb as (tbl' & ? & Htbl' & Hrows' & _).
    rewrite Ht in Htbl'. by injection Htbl' as <-. }
  assert ((if bool_decide (getRwgSaltTables eclState = [])
           then Ok (set_enableRwgSalt false st1)
           else forRange (saltRegion (getRwgSaltTables eclState)) 0 n
                  (set_enableRwgSalt true st1)) = Ok st2) as Hs'.
  { by repeat case_bool_decide. }
  pose proof (saltStage_accepted _ _ _ Hs') as Hsalt.
  destruct (initFromState_before_PVTGW _ _ _ _ Hd Hs')
    as (H1 & H2 & H3 & H4 & _).
  apply bind_Raise in Hrun as [Hrun | (st3 & Hpvtgw & Hrun)].
  { apply forRange_Raise in Hrun as (k & s1 & Hk & Hpre & Hb).
    rewrite Nat.sub_0_r in Hpre.
    apply pvtgwRegion_Raise_table in Hb as [?|(tbl & Htbl & Hfaulty)];
      [by left| |intros ft Hft; by eapply (pvtgwLoop_new _ k n k st2 s1)].
    right. right. right. left. split; [done|]. exists k, tbl.
    split_and!; [done..|]. intros r' t Hr'.
    by eapply pvtgwLoop_accepted. }
  assert (∀ r t, getPvtgwTables eclState !! r = Some t → accepted t) as Hall.
  { intros r t Ht. eapply (pvtgwLoop_accepted _ _ _ _ Hpvtgw r); [|done].
    by eapply lookup_lt_Some. }
  apply bind_Raise in Hrun as [Hrun | (st4 & _ & Hrun)].
  { apply forRange_Raise in Hrun as (k & s1 & Hk & Hpre & Hb).
    rewrite Nat.sub_0_r in Hpre.
    frame Hpvtgw (@gasMuRvwSat_ Scalar).
    frame Hpvtgw (@inverseGasBRvwSat_ Scalar).
    apply pvtgRegion_Raise_table in Hb as [?|(tbl & Htbl & Hfaulty)];
      [by left| |intros ft Hft;
                 eapply (pvtgLoop_new _ k n k st3 s1); [done| | |done..];
                 congruence].
    right. right. right. right. split_and!; [done..|]. exists k, tbl.
    split_and!; [done..|]. intros r' t Hr'.
    by eapply pvtgLoop_accepted. }
  apply bind_Raise in Hrun as [Hrun | (st5 & _ & Hrun)]; [|done].
  left. by eapply readVapPars_Raise.
Qed.

End FirstDefect.

(** ** Well-formed input *)

Section Progress.

Context {Scalar : Type} `{ScalarOps Scalar}.

Local Abbreviation Tabulated2D :=
  (list (Scalar * list (Scalar * Scalar))) (only parsing).

Lemma densityLoop_total (densityTable : list (DensityRecord Scalar))
    (n : nat) (st : WetHumidGasPvt Scalar) :
  n ≤ length densityTable →
  isOk (forRange (densityRegion densityTable) 0 n st).
Proof.
  intros Hn.
  destruct (forRange_total (λ _ _, True) (densityRegion densityTable) 0 n st)
    as (st' & Hrun & _); [done| |by exists st'].
  intros k s1 Hk _. unfold densityRegion.
  destruct (at_index_lt densityTable k) as (d & -> & _); [lia|].
  rewrite Ok_bind. eauto.
Qed.

Lemma appendSalt_total (outerIdx : nat)
    (underSaturatedTable : list (RwgsaltRow Scalar)) (t : Tabulated2D) :
  outerIdx < numX t →
  ∃ t', forRange (appendSalt outerIdx underSaturatedTable)
          0 (numRows underSaturatedTable) t = Ok t' ∧
        numX t' = numX t.
Proof.
  intros Hi.
  apply (forRange_total (λ _ u, numX u = numX t)); [done|].
  intros k u Hk Hu. unfold appendSalt.
  destruct (at_index_lt underSaturatedTable k) as (row & -> & _);
    [unfold numRows in Hk; lia|].
  rewrite Ok_bind. cbn zeta. rewrite appendSamplePoint_lt by lia.
  eexists. split; [done|]. by rewrite numX_appendSamples.
Qed.

Lemma saltRows_total (rwgsaltTable : RwgsaltTable Scalar) :
  saltWellFormed rwgsaltTable →
  isOk (forRange (saltRow rwgsaltTable) 0
          (numRows (salt_getSaturatedTable rwgsaltTable)) []).
Proof.
  intros Hwf.
  destruct (forRange_total (λ k (u : Tabulated2D), numX u = k)
    (saltRow rwgsaltTable) 0
    (numRows (salt_getSaturatedTable rwgsaltTable)) [])
    as (t & Hrun & _); [done| |by exists t].
  intros k u Hk Hu. unfold saltRow, salt_getUnderSaturatedTable.
  destruct (at_index_lt (salt_underSaturatedTables rwgsaltTable) k)
    as (ust & -> & _); [rewrite Hwf; lia|].
  destruct (at_index_lt (salt_getSaturatedTable rwgsaltTable) k)
    as (pg & -> & _); [unfold numRows in Hk; lia|].
  rewrite !Ok_bind.
  destruct (appendSalt_total k ust (appendXPos pg u)) as (t' & -> & Hn).
  - unfold numX, appendXPos in *. rewrite length_app. simpl. lia.
  - exists t'. split; [done|]. rewrite Hn. unfold numX, appendXPos in *.
    rewrite length_app. simpl. lia.
Qed.

(** On well-formed salt tables, one for each region, the loop of the
    RWGSALT block completes or raises InsufficientData. *)
Lemma saltLoop_progress (rwgsaltTables : list (RwgsaltTable Scalar))
    (n : nat) (st : WetHumidGasPvt Scalar) :
  n ≤ length rwgsaltTables →
  Forall saltWellFormed rwgsaltTables →
  saturatedWaterVaporizationSaltFactorTable_ st = replicate n [] →
  isOk (forRange (saltRegion rwgsaltTables) 0 n st) ∨
  forRange (saltRegion rwgsaltTables) 0 n st = Raise (InsufficientData RWGSALT).
Proof.
  intros Hn Hwf Hnew.
  destruct (forRange_Ok_or_Raise
    (λ k s, ∀ r, k ≤ r < n →
       saturatedWaterVaporizationSaltFactorTable_ s !! r = Some [])
    (saltRegion rwgsaltTables) (InsufficientData RWGSALT) 0 n st)
    as [(st' & Hrun & _)| Hrun]; [| |left; by exists st'|by right].
  - intros r Hr. rewrite Hnew. apply lookup_replicate. split; [done|lia].
  - intros k s1 Hk Hrest. unfold saltRegion.
    destruct (at_index_lt rwgsaltTables k) as (tbl & -> & Htbl); [lia|].
    rewrite Ok_bind. cbn zeta. unfold requireTwoRows.
    case_bool_decide; [by right|]. rewrite Ok_bind.
    rewrite (proj2 (at_index_Ok _ _ _) (Hrest k ltac:(lia))), Ok_bind.
    destruct (saltRows_total tbl) as [t ->];
      [by apply (Forall_lookup_1 _ _ _ _ Hwf Htbl)|].
    rewrite Ok_bind. left. eexists. split; [done|]. simpl.
    intros r Hr. rewrite list_lookup_insert_ne by lia. apply Hrest. lia.
Qed.

(** On a well-formed table and from empty 2-D tables, the loop body of a
    region completes or raises an exception that names the table. *)
Lemma pvtgwRegion_progress (pvtgwTables : list (PvtxTable Scalar))
    (regionIdx : nat) (pvtgwTable : PvtxTable Scalar)
    (st : WetHumidGasPvt Scalar) (ft : FamilyTables Scalar) :
  pvtgwTables !! regionIdx = Some pvtgwTable →
  wellFormed pvtgwTable →
  get_pvtgw regionIdx st = Ok ft →
  f_invGasB ft = [] → f_gasMu ft = [] →
  (∃ ft', pvtgwRegion pvtgwTables regionIdx st
            = Ok (set_pvtgw regionIdx ft' st)) ∨
  pvtgwRegion pvtgwTables regionIdx st = Raise (InsufficientData PVTGW) ∨
  pvtgwRegion pvtgwTables regionIdx st = Raise (ExtrapolationImpossible PVTGW).
Proof.
  intros Htbl%at_index_Ok Hwf Hget HB HMu. unfold pvtgwRegion, requireTwoRows.
  rewrite Htbl, Ok_bind. case_bool_decide; [auto|].
  rewrite Ok_bind, Hget, Ok_bind.
  destruct (fillFamilyTables_wellFormed PVTGW pvtgwTable ft)
    as [[ft' ->]| ->]; [done..| |auto].
  left. by exists ft'.
Qed.

Lemma pvtgRegion_progress (pvtgTables : list (PvtxTable Scalar))
    (regionIdx : nat) (pvtgTable : PvtxTable Scalar)
    (st : WetHumidGasPvt Scalar) (ft : FamilyTables Scalar) :
  pvtgTables !! regionIdx = Some pvtgTable →
  wellFormed pvtgTable →
  get_pvtg regionIdx st = Ok ft →
  f_invGasB ft = [] → f_gasMu ft = [] →
  (∃ ft', pvtgRegion pvtgTables regionIdx st
            = Ok (set_pvtg regionIdx ft' st)) ∨
  pvtgRegion pvtgTables regionIdx st = Raise (InsufficientData PVTG) ∨
  pvtgRegion pvtgTables regionIdx st = Raise (ExtrapolationImpossible PVTG).
Proof.
  intros Htbl%at_index_Ok Hwf Hget HB HMu. unfold pvtgRegion, requireTwoRows.
  rewrite Htbl, Ok_bind. case_bool_decide; [auto|].
  rewrite Ok_bind, Hget, Ok_bind.
  destruct (fillFamilyTables_wellFormed PVTG pvtgTable ft)
    as [[ft' ->]| ->]; [done..| |auto].
  left. by exists ft'.
Qed.

Lemma runtime_errors_not_lowLevel (name : TableName) :
  ¬ lowLevel (InsufficientData name) ∧
  ¬ lowLevel (ExtrapolationImpossible name).
Proof. split; by intros [?|?]. Qed.

Lemma pvtgwLoop_progress (pvtgwTables : list (PvtxTable Scalar)) (n : nat)
    (st : WetHumidGasPvt Scalar) :
  n ≤ length pvtgwTables →
  Forall wellFormed pvtgwTables →
  (∀ r, r < n →
     ∃ ft, get_pvtgw r st = Ok ft ∧ f_invGasB ft = [] ∧ f_gasMu ft = []) →
  isOk (forRange (pvtgwRegion pvtgwTables) 0 n st) ∨
  ∃ e, forRange (pvtgwRegion pvtgwTables) 0 n st = Raise e ∧ ¬ lowLevel e.
Proof.
  intros Hn Hwf Hnew.
  destruct (forRange_Ok_or_Raise_in
    (λ k s, ∀ r, k ≤ r → get_pvtgw r s = get_pvtgw r st)
    (λ e, ¬ lowLevel e) (pvtgwRegion pvtgwTables) 0 n st)
    as [(st' & Hrun & _)| Hrun]; [done| |left; by exists st'|by right].
  intros k s1 Hk Hrest.
  destruct (lookup_lt_is_Some_2 pvtgwTables k) as [tbl Htbl]; [lia|].
  destruct (Hnew k) as (ft & Hget & HB & HMu); [lia|].
  rewrite <- Hrest in Hget by done.
  destruct (pvtgwRegion_progress pvtgwTables k tbl s1 ft)
    as [[ft' ->]|[-> | ->]]; [done| |done..| | |].
  - by apply (Forall_lookup_1 _ _ _ _ Hwf Htbl).
  - left. eexists. split; [done|]. intros r Hr.
    rewrite get_set_pvtgw_ne by lia. apply Hrest. lia.
  - right. eexists. split; [done|]. apply runtime_errors_not_lowLevel.
  - right. eexists. split; [done|]. apply runtime_errors_not_lowLevel.
Qed.

Lemma pvtgLoop_progress (pvtgTables : list (PvtxTable Scalar)) (n : nat)
    (st : WetHumidGasPvt Scalar) :
  n ≤ length pvtgTables →
  Forall wellFormed pvtgTables →
  (∀ r, r < n →
     ∃ ft, get_pvtg r st = Ok ft ∧ f_invGasB ft = [] ∧ f_gasMu ft = []) →
  isOk (forRange (pvtgRegion pvtgTables) 0 n st) ∨
  ∃ e, forRange (pvtgRegion pvtgTables) 0 n st = Raise e ∧ ¬ lowLevel e.
Proof.
  intros Hn Hwf Hnew.
  destruct (forRange_Ok_or_Raise_in
    (λ k s, ∀ r, k ≤ r → get_pvtg r s = get_pvtg r st)
    (λ e, ¬ lowLevel e) (pvtgRegion pvtgTables) 0 n st)
    as [(st' & Hrun & _)| Hrun]; [done| |left; by exists st'|by right].
  intros k s1 Hk Hrest.
  destruct (lookup_lt_is_Some_2 pvtgTables k) as [tbl Htbl]; [lia|].
  destruct (Hnew k) as (ft & Hget & HB & HMu); [lia|].
  rewrite <- Hrest in Hget by done.
  destruct (pvtgRegion_progress pvtgTables k tbl s1 ft)
    as [[ft' ->]|[-> | ->]]; [done| |done..| | |].
  - by apply (Forall_lookup_1 _ _ _ _ Hwf Htbl).
  - left. eexists. split; [done|]. intros r Hr.
    rewrite get_set_pvtg_ne by lia. apply Hrest. lia.
  - right. eexists. split; [done|]. apply runtime_errors_not_lowLevel.
  - right. eexists. split; [done|]. apply runtime_errors_not_lowLevel.
Qed.

Lemma readVapPars_total (schedule : Schedule Scalar)
    (st : WetHumidGasPvt Scalar) :
  schedule ≠ [] → isOk (readVapPars schedule st).
Proof.
  intros Hne. destruct schedule as [|step rest]; [done|].
  unfold readVapPars. simpl. by eexists.
Qed.

(** The part of [initFromState] after the RWGSALT block. *)
Lemma initFromState_tail_progress (eclState : EclipseState Scalar)
    (schedule : Schedule Scalar) (n : nat) (st2 : WetHumidGasPvt Scalar) :
  Forall wellFormed (getPvtgwTables eclState) →
  Forall wellFormed (getPvtgTables eclState) →
  n = length (getPvtgwTables eclState) →
  n = length (getPvtgTables eclState) →
  schedule ≠ [] →
  gasMuRvSat_ st2 = replicate n [] ∧
  inverseGasBRvSat_ st2 = replicate n [] ∧
  gasMuRvwSat_ st2 = replicate n [] ∧
  inverseGasBRvwSat_ st2 = replicate n [] ∧
  inverseSaturatedGasB_ st2 = replicate n emptyTabulated1D ∧
  inverseSaturatedGasBMu_ st2 = replicate n emptyTabulated1D ∧
  saturatedWaterVaporizationFactorTable_ st2 = replicate n emptyTabulated1D ∧
  saturatedOilVaporizationFactorTable_ st2 = replicate n emptyTabulated1D →
  let tail :=
    st ← forRange (pvtgwRegion (getPvtgwTables eclState)) 0 n st2;
    st ← forRange (pvtgRegion (getPvtgTables eclState)) 0 n st;
    st ← readVapPars schedule st;
    mret (initEnd st) in
  isOk tail ∨ ∃ e, tail = Raise e ∧ ¬ lowLevel e.
Proof.
  intros Hwfw Hwfg Hnw Hng Hschedule (H1 & H2 & H3 & H4 & H5 & H6 & H7 & H8).
  cbn zeta.
  destruct (pvtgwLoop_progress (getPvtgwTables eclState) n st2)
    as [[st3 Hpvtgw]|(e & Hpvtgw & He)]; [lia|done| | |].
  { intros r Hr. exists newFamilyTables. split; [|done].
    apply get_pvtgw_lookup. rewrite H1, H2, H5, H6, H7. simpl.
    by rewrite !lookup_replicate_2. }
  2: { right. rewrite Hpvtgw. by exists e. }
  rewrite Hpvtgw, Ok_bind.
  frame Hpvtgw (@gasMuRvwSat_ Scalar).
  frame Hpvtgw (@inverseGasBRvwSat_ Scalar).
  frame Hpvtgw (@saturatedOilVaporizationFactorTable_ Scalar).
  destruct (pvtgLoop_progress (getPvtgTables eclState) n st3)
    as [[st4 Hpvtg]|(e & Hpvtg & He)]; [lia|done| | |].
  { intros r Hr.
    destruct (proj1 (pvtgwLoop_regions _ _ _ _ Hpvtgw) r Hr)
      as (? & ? & ft' & _ & _ & _ & _ & Hget).
    apply get_pvtgw_lookup in Hget as (_ & _ & L3 & L4 & _).
    exists {| f_gasMu := []; f_invGasB := [];
              f_invSatGasB := f_invSatGasB ft';
              f_invSatGasBMu := f_invSatGasBMu ft';
              f_vaporizationFac := emptyTabulated1D |}.
    split; [|done].
    apply get_pvtg_lookup. rewrite Hframe, Hframe0, Hframe1, H3, H4, H8.
    simpl. by rewrite !lookup_replicate_2. }
  2: { right. rewrite Hpvtg. by exists e. }
  rewrite Hpvtg, Ok_bind.
  destruct (readVapPars_total schedule st4) as [st5 ->]; [done|].
  left. by eexists.
Qed.

(** On a well-formed input deck and a schedule with a first report step,
    [initFromState] completes or raises one of its [std::runtime_error]s:
    no assertion fails and no container is accessed outside its bounds. *)
Lemma initFromState_progress (eclState : EclipseState Scalar)
    (schedule : Schedule Scalar) :
  wellFormedDeck eclState →
  schedule ≠ [] →
  isOk (initFromState eclState schedule) ∨
  ∃ e, initFromState eclState schedule = Raise e ∧ ¬ lowLevel e.
Proof.
  intros (Hwfw & Hwfg & Hwfs) Hschedule. unfold initFromState.
  case_bool_decide as Hw;
    [right; eexists; split; [done|]; by intros [?|?]|].
  case_bool_decide as Hg;
    [right; eexists; split; [done|]; by intros [?|?]|].
  set (n := length (getPvtgwTables eclState)) in *.
  destruct (densityLoop_total (getDensityTable eclState) n (setNumRegions n))
    as [st1 Hd]; [lia|].
  rewrite Hd, Ok_bind. cbn zeta.
  frame Hd (@saturatedWaterVaporizationSaltFactorTable_ Scalar).
  simpl in Hframe.
  pose proof (initFromState_before_PVTGW eclState n st1) as Hbefore.
  case_bool_decide as Hnil; simpl.
  - apply initFromState_tail_progress; [done..|lia|done|].
    by apply Hbefore.
  - destruct Hwfs as [?|[Hlen Hwf]]; [done|].
    destruct (saltLoop_progress (getRwgSaltTables eclState) n
      (set_enableRwgSalt true st1)) as [[st2 Hs]|Hs]; [done..| |].
    + rewrite Hs, Ok_bind.
      apply initFromState_tail_progress; [done..|lia|done|].
      by apply Hbefore.
    + right. rewrite Hs. eexists. split; [done|].
      apply runtime_errors_not_lowLevel.
Qed.

End Progress.

(** ** The exception of the first defect *)

Section NamedExceptions.

Context {Scalar : Type} `{ScalarOps Scalar}.

Local Abbreviation Tabulated2D :=
  (list (Scalar * list (Scalar * Scalar))) (only parsing).

(** The loop body of a family completes on a table without a defect. *)
Lemma fillFamilyTables_passes (name : TableName) (pvtTable : PvtxTable Scalar)
    (ft : FamilyTables Scalar) :
  passes pvtTable → f_invGasB ft = [] → f_gasMu ft = [] →
  isOk (fillFamilyTables name pvtTable ft).
Proof.
  intros (Hwf & _ & Hlast) HB HMu.
  destruct (fillFamilyTables_wellFormed name pvtTable ft) as [Hok|Hr];
    [done..|].
  by apply fillFamilyTables_lastNodeMeasured in Hr.
Qed.

(** On a well-formed table with a masterless node it raises
    ExtrapolationImpossible. *)
Lemma fillFamilyTables_masterless_raises (name : TableName)
    (pvtTable : PvtxTable Scalar) (ft : FamilyTables Scalar) (xIdx : nat) :
  wellFormed pvtTable → masterless pvtTable xIdx →
  f_invGasB ft = [] → f_gasMu ft = [] →
  fillFamilyTables name pvtTable ft = Raise (ExtrapolationImpossible name).
Proof.
  intros Hwf Hnode HB HMu.
  destruct (fillFamilyTables_wellFormed name pvtTable ft) as [[ft' Hok]|Hr];
    [done..| |done].
  by apply fillFamilyTables_not_masterless with (xIdx := xIdx) in Hok.
Qed.

Lemma pvtgwRegion_masterless (pvtgwTables : list (PvtxTable Scalar))
    (regionIdx xIdx : nat) (pvtgwTable : PvtxTable Scalar)
    (st : WetHumidGasPvt Scalar) (ft : FamilyTables Scalar) :
  pvtgwTables !! regionIdx = Some pvtgwTable →
  wellFormed pvtgwTable →
  2 ≤ numRows (getSaturatedTable pvtgwTable) →
  masterless pvtgwTable xIdx →
  get_pvtgw regionIdx st = Ok ft → f_invGasB ft = [] → f_gasMu ft = [] →
  pvtgwRegion pvtgwTables regionIdx st = Raise (ExtrapolationImpossible PVTGW).
Proof.
  intros Htbl%at_index_Ok Hwf Hrows Hnode Hget HB HMu.
  unfold pvtgwRegion, requireTwoRows. rewrite Htbl, Ok_bind.
  rewrite bool_decide_eq_false_2 by lia. rewrite Ok_bind, Hget, Ok_bind.
  by rewrite (fillFamilyTables_masterless_raises PVTGW pvtgwTable ft xIdx).
Qed.

Lemma pvtgRegion_masterless (pvtgTables : list (PvtxTable Scalar))
    (regionIdx xIdx : nat) (pvtgTable : PvtxTable Scalar)
    (st : WetHumidGasPvt Scalar) (ft : FamilyTables Scalar) :
  pvtgTables !! regionIdx = Some pvtgTable →
  wellFormed pvtgTable →
  2 ≤ numRows (getSaturatedTable pvtgTable) →
  masterless pvtgTable xIdx →
  get_pvtg regionIdx st = Ok ft → f_invGasB ft = [] → f_gasMu ft = [] →
  pvtgRegion pvtgTables regionIdx st = Raise (ExtrapolationImpossible PVTG).
Proof.
  intros Htbl%at_index_Ok Hwf Hrows Hnode Hget HB HMu.
  unfold pvtgRegion, requireTwoRows. rewrite Htbl, Ok_bind.
  rewrite bool_decide_eq_false_2 by lia. rewrite Ok_bind, Hget, Ok_bind.
  by rewrite (fillFamilyTables_masterless_raises PVTG pvtgTable ft xIdx).
Qed.

(** The loops over the regions complete for the regions whose tables have no
    defect, and leave the tables of the regions after them as they are. *)
Lemma saltLoop_passes (rwgsaltTables : list (RwgsaltTable Scalar)) (k : nat)
    (st : WetHumidGasPvt Scalar) :
  (∀ r, r < k → ∃ t, rwgsaltTables !! r = Some t ∧ saltPasses t) →
  (∀ r, r < k →
     saturatedWaterVaporizationSaltFactorTable_ st !! r = Some []) →
  isOk (forRange (saltRegion rwgsaltTables) 0 k st).
Proof.
  intros Hpass Hnew.
  destruct (forRange_total
    (λ j s, ∀ r, j ≤ r < k →
       saturatedWaterVaporizationSaltFactorTable_ s !! r = Some [])
    (saltRegion rwgsaltTables) 0 k st) as (st' & Hrun & _);
    [intros r Hr; apply Hnew; lia| |by exists st'].
  intros j s1 Hj Hrest. unfold saltRegion.
  destruct (Hpass j) as (tbl & Htbl & Hwf & Hrows); [lia|].
  rewrite (proj2 (at_index_Ok _ _ _) Htbl), Ok_bind. cbn zeta.
  unfold requireTwoRows. rewrite bool_decide_eq_false_2 by lia.
  rewrite Ok_bind.
  rewrite (proj2 (at_index_Ok _ _ _) (Hrest j ltac:(lia))), Ok_bind.
  destruct (saltRows_total tbl) as [t ->]; [done|].
  rewrite Ok_bind. eexists. split; [done|]. simpl.
  intros r Hr. rewrite list_lookup_insert_ne by lia. apply Hrest. lia.
Qed.

Lemma pvtgwLoop_passes (pvtgwTables : list (PvtxTable Scalar)) (k : nat)
    (st : WetHumidGasPvt Scalar) :
  k ≤ length pvtgwTables →
  (∀ r t, r < k → pvtgwTables !! r = Some t → passes t) →
  (∀ r, r < k →
     ∃ ft, get_pvtgw r st = Ok ft ∧ f_invGasB ft = [] ∧ f_gasMu ft = []) →
  ∃ st', forRange (pvtgwRegion pvtgwTables) 0 k st = Ok st' ∧
         ∀ r, k ≤ r → get_pvtgw r st' = get_pvtgw r st.
Proof.
  intros Hk Hpass Hnew.
  apply (forRange_total
    (λ j s, ∀ r, j ≤ r → get_pvtgw r s = get_pvtgw r st)); [done|].
  intros j s1 Hj Hrest.
  destruct (lookup_lt_is_Some_2 pvtgwTables j) as [tbl Htbl]; [lia|].
  destruct (Hnew j) as (ft & Hget & HB & HMu); [lia|].
  rewrite <- Hrest in Hget by done.
  destruct (Hpass j tbl) as (Hwf & Hrows & Hlast); [lia|done|].
  unfold pvtgwRegion, requireTwoRows.
  rewrite (proj2 (at_index_Ok _ _ _) Htbl), Ok_bind.
  rewrite bool_decide_eq_false_2 by lia. rewrite Ok_bind, Hget, Ok_bind.
  destruct (fillFamilyTables_passes PVTGW tbl ft) as [ft' ->]; [done..|].
  rewrite Ok_bind. eexists. split; [done|].
  intros r Hr. rewrite get_set_pvtgw_ne by lia. apply Hrest. lia.
Qed.

Lemma pvtgLoop_passes (pvtgTables : list (PvtxTable Scalar)) (k : nat)
    (st : WetHumidGasPvt Scalar) :
  k ≤ length pvtgTables →
  (∀ r t, r < k → pvtgTables !! r = Some t → passes t) →
  (∀ r, r < k →
     ∃ ft, get_pvtg r st = Ok ft ∧ f_invGasB ft = [] ∧ f_gasMu ft = []) →
  ∃ st', forRange (pvtgRegion pvtgTables) 0 k st = Ok st' ∧
         ∀ r, k ≤ r → get_pvtg r st' = get_pvtg r st.
Proof.
  intros Hk Hpass Hnew.
  apply (forRange_total
    (λ j s, ∀ r, j ≤ r → get_pvtg r s = get_pvtg r st)); [done|].
  intros j s1 Hj Hrest.
  destruct (lookup_lt_is_Some_2 pvtgTables j) as [tbl Htbl]; [lia|].
  destruct (Hnew j) as (ft & Hget & HB & HMu); [lia|].
  rewrite <- Hrest in Hget by done.
  destruct (Hpass j tbl) as (Hwf & Hrows & Hlast); [lia|done|].
  unfold pvtgRegion, requireTwoRows.
  rewrite (proj2 (at_index_Ok _ _ _) Htbl), Ok_bind.
  rewrite bool_decide_eq_false_2 by lia. rewrite Ok_bind, Hget, Ok_bind.
  destruct (fillFamilyTables_passes PVTG tbl ft) as [ft' ->]; [done..|].
  rewrite Ok_bind. eexists. split; [done|].
  intros r Hr. rewrite get_set_pvtg_ne by lia. apply Hrest. lia.
Qed.

(** [initFromState] up to the loop "Table PVTGW", when the counts agree and
    the RWGSALT block has nothing to object to: the rest runs on an object
    whose tables of PVTGW and PVTG are those of a new object. *)
Lemma initFromState_from_PVTGW (eclState : EclipseState Scalar)
    (schedule : Schedule Scalar) :
  countsAgree eclState →
  saltStagePasses eclState →
  let n := length (getPvtgwTables eclState) in
  ∃ st2,
    initFromState eclState schedule
      = (st ← forRange (pvtgwRegion (getPvtgwTables eclState)) 0 n st2;
         st ← forRange (pvtgRegion (getPvtgTables eclState)) 0 n st;
         st ← readVapPars schedule st;
         mret (initEnd st)) ∧
    gasMuRvSat_ st2 = replicate n [] ∧
    inverseGasBRvSat_ st2 = replicate n [] ∧
    gasMuRvwSat_ st2 = replicate n [] ∧
    inverseGasBRvwSat_ st2 = replicate n [] ∧
    inverseSaturatedGasB_ st2 = replicate n emptyTabulated1D ∧
    inverseSaturatedGasBMu_ st2 = replicate n emptyTabulated1D ∧
    saturatedWaterVaporizationFactorTable_ st2 = replicate n emptyTabulated1D ∧
    saturatedOilVaporizationFactorTable_ st2 = replicate n emptyTabulated1D.
Proof.
  intros [Hw Hg] Hsalt n. unfold initFromState.
  rewrite (bool_decide_eq_false_2
             (length (getPvtgwTables eclState)
                ≠ length (getDensityTable eclState))) by lia.
  rewrite (bool_decide_eq_false_2
             (length (getPvtgTables eclState)
                ≠ length (getDensityTable eclState))) by lia.
  fold n.
  destruct (densityLoop_total (getDensityTable eclState) n (setNumRegions n))
    as [st1 Hd]; [lia|].
  rewrite Hd, Ok_bind. cbn zeta.
  frame Hd (@saturatedWaterVaporizationSaltFactorTable_ Scalar).
  simpl in Hframe.
  pose proof (initFromState_before_PVTGW eclState n st1) as Hbefore.
  case_bool_decide as Hnil; simpl.
  - exists (set_enableRwgSalt false st1). split; [done|]. by apply Hbefore.
  - destruct Hsalt as [?|Hsalt]; [done|].
    destruct (saltLoop_passes (getRwgSaltTables eclState) n
                (set_enableRwgSalt true st1)) as [st2 Hs]; [done| |].
    { intros r Hr. simpl. rewrite Hframe. by apply lookup_replicate. }
    rewrite Hs, Ok_bind. exists st2. split; [done|]. by apply Hbefore.
Qed.

(** The exception of the loop body of PVTGW for the first region whose table
    has a defect is the one of [initFromState]. *)
Lemma initFromState_raises_in_PVTGW (eclState : EclipseState Scalar)
    (schedule : Schedule Scalar) (regionIdx : nat) (e : Error) :
  countsAgree eclState →
  saltStagePasses eclState →
  regionIdx < length (getPvtgwTables eclState) →
  (∀ r t, r < regionIdx → getPvtgwTables eclState !! r = Some t → passes t) →
  (∀ st ft, get_pvtgw regionIdx st = Ok ft →
     f_invGasB ft = [] → f_gasMu ft = [] →
     pvtgwRegion (getPvtgwTables eclState) regionIdx st = Raise e) →
  initFromState eclState schedule = Raise e.
Proof.
  intros Hcounts Hsalt Hr Hpass Hbody.
  destruct (initFromState_from_PVTGW eclState schedule Hcounts Hsalt)
    as (st2 & -> & H1 & H2 & _ & _ & H5 & H6 & H7 & _).
  set (n := length (getPvtgwTables eclState)) in *.
  assert (∀ r, r < n → get_pvtgw r st2 = Ok newFamilyTables) as Hnew.
  { intros r Hlt. apply get_pvtgw_lookup. rewrite H1, H2, H5, H6, H7. simpl.
    by rewrite !lookup_replicate_2. }
  destruct (pvtgwLoop_passes (getPvtgwTables eclState) regionIdx st2)
    as (st' & Hpre & Hrest); [lia|done| |].
  { intros r Hlt. exists newFamilyTables. split; [apply Hnew; lia|done]. }
  rewrite (forRange_Raise_at _ 0 n regionIdx st2 st' e); [done|lia| |].
  - by rewrite Nat.sub_0_r.
  - apply (Hbody st' newFamilyTables); [|done..].
    rewrite Hrest by done. by apply Hnew.
Qed.

(** The same for PVTG, whose loop runs when the one of PVTGW has completed. *)
Lemma initFromState_raises_in_PVTG (eclState : EclipseState Scalar)
    (schedule : Schedule Scalar) (regionIdx : nat) (e : Error) :
  countsAgree eclState →
  saltStagePasses eclState →
  regionIdx < length (getPvtgwTables eclState) →
  (∀ r t, getPvtgwTables eclState !! r = Some t → passes t) →
  (∀ r t, r < regionIdx → getPvtgTables eclState !! r = Some t → passes t) →
  (∀ st ft, get_pvtg regionIdx st = Ok ft →
     f_invGasB ft = [] → f_gasMu ft = [] →
     pvtgRegion (getPvtgTables eclState) regionIdx st = Raise e) →
  initFromState eclState schedule = Raise e.
Proof.
  intros Hcounts Hsalt Hr Hpassw Hpassg Hbody.
  destruct (initFromState_from_PVTGW eclState schedule Hcounts Hsalt)
    as (st2 & -> & H1 & H2 & H3 & H4 & H5 & H6 & H7 & H8).
  destruct Hcounts as [Hw Hg].
  set (n := length (getPvtgwTables eclState)) in *.
  destruct (pvtgwLoop_passes (getPvtgwTables eclState) n st2)
    as (st3 & Hpvtgw & _); [done|by eauto| |].
  { intros r Hlt. exists newFamilyTables. split; [|done].
    apply get_pvtgw_lookup. rewrite H1, H2, H5, H6, H7. simpl.
    by rewrite !lookup_replicate_2. }
  rewrite Hpvtgw, Ok_bind.
  frame Hpvtgw (@gasMuRvwSat_ Scalar).
  frame Hpvtgw (@inverseGasBRvwSat_ Scalar).
  frame Hpvtgw (@saturatedOilVaporizationFactorTable_ Scalar).
  assert (∀ r, r < n →
    ∃ ft, get_pvtg r st3 = Ok ft ∧ f_invGasB ft = [] ∧ f_gasMu ft = [])
    as Hnew.
  { intros r Hlt.
    destruct (proj1 (pvtgwLoop_regions _ _ _ _ Hpvtgw) r Hlt)
      as (? & ? & ft' & _ & _ & _ & _ & Hget).
    apply get_pvtgw_lookup in Hget as (_ & _ & L3 & L4 & _).
    exists {| f_gasMu := []; f_invGasB := [];
              f_invSatGasB := f_invSatGasB ft';
              f_invSatGasBMu := f_invSatGasBMu ft';
              f_vaporizationFac := emptyTabulated1D |}.
    split; [|done].
    apply get_pvtg_lookup. rewrite Hframe, Hframe0, Hframe1, H3, H4, H8.
    simpl. by rewrite !lookup_replicate_2. }
  destruct (pvtgLoop_passes (getPvtgTables eclState) regionIdx st3)
    as (st' & Hpre & Hrest); [lia|done| |].
  { intros r Hlt. apply Hnew. lia. }
  rewrite (forRange_Raise_at _ 0 n regionIdx st3 st' e); [done|lia| |].
  - by rewrite Nat.sub_0_r.
  - destruct (Hnew regionIdx Hr) as (ft & Hget & HB & HMu).
    apply (Hbody st' ft); [|done..]. by rewrite Hrest.
Qed.

(** The exception of the RWGSALT block for the first region whose salt table
    has fewer than two saturated rows. *)
Lemma initFromState_raises_in_RWGSALT (eclState : EclipseState Scalar)
    (schedule : Schedule Scalar) (regionIdx : nat)
    (rwgsaltTable : RwgsaltTable Scalar) :
  countsAgree eclState →
  regionIdx < length (getPvtgwTables eclState) →
  getRwgSaltTables eclState !! regionIdx = Some rwgsaltTable →
  numRows (salt_getSaturatedTable rwgsaltTable) < 2 →
  (∀ r, r < regionIdx →
     ∃ t, getRwgSaltTables eclState !! r = Some t ∧ saltPasses t) →
  initFromState eclState schedule = Raise (InsufficientData RWGSALT).
Proof.
  intros [Hw Hg] Hr Htbl Hrows Hpass. unfold initFromState.
  rewrite (bool_decide_eq_false_2
             (length (getPvtgwTables eclState)
                ≠ length (getDensityTable eclState))) by lia.
  rewrite (bool_decide_eq_false_2
             (length (getPvtgTables eclState)
                ≠ length (getDensityTable eclState))) by lia.
  set (n := length (getPvtgwTables eclState)) in *.
  destruct (densityLoop_total (getDensityTable eclState) n (setNumRegions n))
    as [st1 Hd]; [lia|].
  rewrite Hd, Ok_bind. cbn zeta.
  frame Hd (@saturatedWaterVaporizationSaltFactorTable_ Scalar).
  simpl in Hframe.
  rewrite (bool_decide_eq_false_2 (getRwgSaltTables eclState = []))
    by (by intros Hnil; rewrite Hnil in Htbl).
  simpl.
  destruct (saltLoop_passes (getRwgSaltTables eclState) regionIdx
              (set_enableRwgSalt true st1)) as [st' Hpre]; [done| |].
  { intros r Hlt. simpl. rewrite Hframe. apply lookup_replicate.
    split; [done|lia]. }
  rewrite (forRange_Raise_at _ 0 n regionIdx _ st' (InsufficientData RWGSALT));
    [done|lia| |].
  - by rewrite Nat.sub_0_r.
  - by apply (saltRegion_short _ _ rwgsaltTable).
Qed.

End NamedExceptions.

Section FirstDefectRaises.

Context {Scalar : Type} `{ScalarOps Scalar}.

Local Abbreviation Tabulated2D :=
  (list (Scalar * list (Scalar * Scalar))) (only parsing).

(** C3. In the iteration of the extrapolation step for a node [xIdx] that has
    exactly one sample, the scan goes forward from [xIdx + 1] and the master
    is the first node whose undersaturated table has 2 rows or more: the
    node is extended from it. When there is no such node up to and including
    the last one (the node is masterless; so it is when it is the last node
    itself) the iteration raises ExtrapolationImpossible, and so does the
    construction: [initFromState] does not complete on an input whose PVTGW
    or PVTG table of some region has a masterless node, and it raises
    ExtrapolationImpossible, naming the family, when the checks that come
    before have passed (the counts agree, the RWGSALT block has nothing to
    object to, the tables that are processed before have no defect, and the
    table itself is well formed and has 2 saturated rows or more). *)
Theorem master_is_first_later_node (name : TableName)
    (pvtTable : PvtxTable Scalar) :
  (∀ xIdx (t : Tabulated2D * Tabulated2D),
     numY t.1 xIdx = 1 →
     (∀ m curTable masterTable,
        xIdx < m < numRows (getSaturatedTable pvtTable) →
        getUnderSaturatedTable pvtTable xIdx = Ok curTable →
        getUnderSaturatedTable pvtTable m = Ok masterTable →
        1 < numRows masterTable →
        (∀ j, xIdx < j < m →
           ∃ tj, getUnderSaturatedTable pvtTable j = Ok tj ∧ numRows tj ≤ 1) →
        completeNode name pvtTable xIdx t
          = extendTable_ xIdx curTable masterTable t.1 t.2) ∧
     ((∀ j, xIdx < j < numRows (getSaturatedTable pvtTable) →
         ∃ tj, getUnderSaturatedTable pvtTable j = Ok tj ∧ numRows tj ≤ 1) →
      completeNode name pvtTable xIdx t
        = Raise (ExtrapolationImpossible name))) ∧
  (∀ xIdx (eclState : EclipseState Scalar) (schedule : Schedule Scalar)
     regionIdx,
     masterless pvtTable xIdx →
     regionIdx < length (getPvtgwTables eclState) →
     (getPvtgwTables eclState !! regionIdx = Some pvtTable ∨
      getPvtgTables eclState !! regionIdx = Some pvtTable →
      ∃ e, initFromState eclState schedule = Raise e) ∧
     (countsAgree eclState →
      saltStagePasses eclState →
      wellFormed pvtTable →
      2 ≤ numRows (getSaturatedTable pvtTable) →
      (getPvtgwTables eclState !! regionIdx = Some pvtTable →
       (∀ r t, r < regionIdx → getPvtgwTables eclState !! r = Some t →
          passes t) →
       initFromState eclState schedule
         = Raise (ExtrapolationImpossible PVTGW)) ∧
      (getPvtgTables eclState !! regionIdx = Some pvtTable →
       (∀ r t, getPvtgwTables eclState !! r = Some t → passes t) →
       (∀ r t, r < regionIdx → getPvtgTables eclState !! r = Some t →
          passes t) →
       initFromState eclState schedule
         = Raise (ExtrapolationImpossible PVTG)))).
Proof.
  split.
  - intros xIdx t Hone. split.
    + intros m curTable masterTable. by apply completeNode_master.
    + by apply completeNode_masterless.
  - intros xIdx eclState schedule regionIdx Hnode Hr. split.
    + intros Htbl. apply (initFromState_not_Ok _ _ regionIdx); [done|].
      destruct Htbl as [Htbl|Htbl]; [left|right; left]; intros st [st' Hrun].
      * apply pvtgwRegion_Ok in Hrun
          as (tbl & ft & ft' & Htbl' & _ & _ & Hfill & _).
        rewrite Htbl in Htbl'. injection Htbl' as <-.
        by eapply fillFamilyTables_not_masterless.
      * apply pvtgRegion_Ok in Hrun
          as (tbl & ft & ft' & Htbl' & _ & _ & Hfill & _).
        rewrite Htbl in Htbl'. injection Htbl' as <-.
        by eapply fillFamilyTables_not_masterless.
    + intros Hcounts Hsalt Hwf Hrows. split.
      * intros Htbl Hpass.
        apply (initFromState_raises_in_PVTGW _ _ regionIdx); [done..|].
        intros st ft Hget HB HMu.
        by apply (pvtgwRegion_masterless _ _ xIdx pvtTable st ft).
      * intros Htbl Hpassw Hpassg.
        apply (initFromState_raises_in_PVTG _ _ regionIdx); [done..|].
        intros st ft Hget HB HMu.
        by apply (pvtgRegion_masterless _ _ xIdx pvtTable st ft).
Qed.

(** C5, as the code has it. When a saturated table read for a region (of the
    salt table, when there are salt tables, of PVTGW or of PVTG) has fewer
    than 2 rows, [initFromState] does not complete: it ends with an
    exception. The exception is InsufficientData, naming the table, unless a
    check that comes before raises first: it is InsufficientData when the
    counts agree and the tables that are processed before have no defect
    (for a salt table: the salt tables of the regions before; for PVTGW: the
    salt tables and the PVTGW tables of the regions before; for PVTG: the
    salt tables, all PVTGW tables and the PVTG tables of the regions
    before). *)
Theorem short_saturated_table_raises (eclState : EclipseState Scalar)
    (schedule : Schedule Scalar) (regionIdx : nat) :
  regionIdx < length (getPvtgwTables eclState) →
  ((∃ table, getRwgSaltTables eclState !! regionIdx = Some table ∧
             numRows (salt_getSaturatedTable table) < 2) ∨
   (∃ table, getPvtgwTables eclState !! regionIdx = Some table ∧
             numRows (getSaturatedTable table) < 2) ∨
   (∃ table, getPvtgTables eclState !! regionIdx = Some table ∧
             numRows (getSaturatedTable table) < 2) →
   ∃ e, initFromState eclState schedule = Raise e) ∧
  (countsAgree eclState →
   (∀ table,
      getRwgSaltTables eclState !! regionIdx = Some table →
      numRows (salt_getSaturatedTable table) < 2 →
      (∀ r, r < regionIdx →
         ∃ t, getRwgSaltTables eclState !! r = Some t ∧ saltPasses t) →
      initFromState eclState schedule = Raise (InsufficientData RWGSALT)) ∧
   (∀ table,
      getPvtgwTables eclState !! regionIdx = Some table →
      numRows (getSaturatedTable table) < 2 →
      saltStagePasses eclState →
      (∀ r t, r < regionIdx → getPvtgwTables eclState !! r = Some t →
         passes t) →
      initFromState eclState schedule = Raise (InsufficientData PVTGW)) ∧
   (∀ table,
      getPvtgTables eclState !! regionIdx = Some table →
      numRows (getSaturatedTable table) < 2 →
      saltStagePasses eclState →
      (∀ r t, getPvtgwTables eclState !! r = Some t → passes t) →
      (∀ r t, r < regionIdx → getPvtgTables eclState !! r = Some t →
         passes t) →
      initFromState eclState schedule = Raise (InsufficientData PVTG))).
Proof.
  intros Hr. split.
  - intros Hshort. apply (initFromState_not_Ok _ _ regionIdx); [done|].
    destruct Hshort as [(tbl & Htbl & Hrows)|[(tbl & Htbl & Hrows)
      |(tbl & Htbl & Hrows)]].
    + right. right. split; [by intros Hnil; rewrite Hnil in Htbl|].
      intros st. rewrite (saltRegion_short _ _ tbl) by done.
      apply not_isOk_Raise.
    + left. intros st. rewrite (pvtgwRegion_short _ _ tbl) by done.
      apply not_isOk_Raise.
    + right. left. intros st. rewrite (pvtgRegion_short _ _ tbl) by done.
      apply not_isOk_Raise.
  - intros Hcounts. split_and!.
    + intros tbl Htbl Hrows Hpass.
      by apply (initFromState_raises_in_RWGSALT _ _ regionIdx tbl).
    + intros tbl Htbl Hrows Hsalt Hpass.
      apply (initFromState_raises_in_PVTGW _ _ regionIdx); [done..|].
      intros st ft _ _ _. by apply (pvtgwRegion_short _ _ tbl).
    + intros tbl Htbl Hrows Hsalt Hpassw Hpassg.
      apply (initFromState_raises_in_PVTG _ _ regionIdx); [done..|].
      intros st ft _ _ _. by apply (pvtgRegion_short _ _ tbl).
Qed.

End FirstDefectRaises.

Section Diagnosis.

Context {Scalar : Type} `{ScalarOps Scalar}.

Local Abbreviation Tabulated2D :=
  (list (Scalar * list (Scalar * Scalar))) (only parsing).

Lemma accepted_lastNodeMeasured (pvtTable : PvtxTable Scalar) :
  wellFormed pvtTable →
  accepted pvtTable ↔
  2 ≤ numRows (getSaturatedTable pvtTable) ∧ lastNodeMeasured pvtTable.
Proof.
  intros Hwf. split.
  - intros [Hrows Hnode]. split; [done|].
    destruct (numRows (getSaturatedTable pvtTable)) as [|k] eqn:Hk; [lia|].
    destruct (wellFormed_lookup pvtTable k Hwf) as (t & _ & Hget & Hpos);
      [lia|].
    exists k, t. split_and!; [done..|].
    destruct t as [|single [|? ?]]; simpl in *; [lia| |lia].
    destruct (Hnode k). split_and!; [lia|by exists single|].
    intros j Hj. lia.
  - intros [Hrows Hlast]. split; [done|]. intros xIdx Hnode.
    by eapply masterless_not_lastNodeMeasured.
Qed.

(** X6. On a well-formed input deck (an undersaturated table with a row or
    more for every saturated row of every PVTGW and PVTG table, and no salt
    table or a salt table with an undersaturated table per saturated row
    for every region) [initFromState] completes exactly when the schedule
    has a first report step, the numbers of PVTGW tables, of PVTG tables
    and of density records agree, the salt tables of the regions have two
    saturated rows or more, and every PVTGW and PVTG table has two
    saturated rows or more and measured undersaturated samples (two rows or
    more) at its last node. *)
Theorem initFromState_completes_iff (eclState : EclipseState Scalar)
    (schedule : Schedule Scalar) :
  wellFormedDeck eclState →
  isOk (initFromState eclState schedule) ↔
  schedule ≠ [] ∧
  length (getPvtgwTables eclState) = length (getDensityTable eclState) ∧
  length (getPvtgTables eclState) = length (getDensityTable eclState) ∧
  saltAccepted eclState ∧
  ∀ pvtTable,
    pvtTable ∈ getPvtgwTables eclState ∨ pvtTable ∈ getPvtgTables eclState →
    2 ≤ numRows (getSaturatedTable pvtTable) ∧ lastNodeMeasured pvtTable.
Proof.
  intros Hdeck. pose proof Hdeck as (Hwfw & Hwfg & _). split.
  - intros [st Hrun].
    apply initFromState_Ok in Hrun
      as (Hdn & Hgn & st1 & st2 & st3 & st4 & Hd & Hs & Hw & Hg & Hv).
    apply readVapPars_Ok in Hv as (step & rest & -> & _).
    split_and!; [done|lia|lia|by eapply saltStage_accepted|].
    intros tbl [Htbl|Htbl].
    + apply accepted_lastNodeMeasured;
        [by apply (proj1 (Forall_forall _ _) Hwfw)|].
      apply list_elem_of_lookup in Htbl as [r Hr].
      eapply (pvtgwLoop_accepted _ _ _ _ Hw r); [|done].
      by eapply lookup_lt_Some.
    + apply accepted_lastNodeMeasured;
        [by apply (proj1 (Forall_forall _ _) Hwfg)|].
      apply list_elem_of_lookup in Htbl as [r Hr].
      eapply (pvtgLoop_accepted _ _ _ _ Hg r); [|done].
      apply lookup_lt_Some in Hr. lia.
  - intros (Hschedule & Hwn & Hgn & Hsalt & Htables).
    destruct (initFromState_progress eclState schedule Hdeck Hschedule)
      as [?|(e & Hrun & He)]; [done|]. exfalso.
    apply initFromState_first_defect in Hrun as Hdefect.
    destruct Hdefect as [?|[(name & a & b & ->)|[Hdefect|[Hdefect|Hdefect]]]];
      [done| | | |].
    + apply initFromState_TableMismatch in Hrun
        as (Hne & -> & [[_ ->]|[_ ->]]); lia.
    + destruct Hdefect as (r & tbl & Hr & Htbl & _ & Hrows & _).
      destruct Hsalt as [Hnil|Hsalt]; [by rewrite Hnil in Htbl|].
      destruct (Hsalt r Hr) as (tbl' & Htbl' & Hrows').
      rewrite Htbl in Htbl'. injection Htbl' as <-. lia.
    + destruct Hdefect as (_ & r & tbl & Htbl & Hfaulty & _).
      destruct (Htables tbl) as [Hrows Hlast];
        [left; by eapply list_elem_of_lookup_2|].
      destruct Hfaulty as [[_ ?]|(_ & _ & xIdx & Hnode)]; [lia|].
      by eapply masterless_not_lastNodeMeasured.
    + destruct Hdefect as (_ & _ & r & tbl & Htbl & Hfaulty & _).
      destruct (Htables tbl) as [Hrows Hlast];
        [right; by eapply list_elem_of_lookup_2|].
      destruct Hfaulty as [[_ ?]|(_ & _ & xIdx & Hnode)]; [lia|].
      by eapply masterless_not_lastNodeMeasured.
Qed.

(** X7. On a well-formed input deck and a schedule with a first report
    step, [initFromState] raises no other exception than its
    [std::runtime_error]s (TableMismatch, InsufficientData,
    ExtrapolationImpossible): no assertion fails and no container is
    accessed outside its bounds. *)
Theorem well_formed_deck_raises_runtime_errors_only
    (eclState : EclipseState Scalar) (schedule : Schedule Scalar) (e : Error) :
  wellFormedDeck eclState →
  schedule ≠ [] →
  initFromState eclState schedule = Raise e →
  e ≠ AssertionFailed ∧ e ≠ OutOfRange.
Proof.
  intros Hdeck Hschedule Hrun.
  destruct (initFromState_progress eclState schedule Hdeck Hschedule)
    as [[st Hok]|(e' & Hrun' & He)]; [congruence|].
  rewrite Hrun in Hrun'. injection Hrun' as <-.
  split; intros ->; apply He; [by left|by right].
Qed.

(** X8. An exception of [initFromState] tells a defect that the input has.
    InsufficientData names a table (RWGSALT, PVTGW or PVTG) of which some
    region has a saturated table with fewer than 2 rows.
    ExtrapolationImpossible names PVTGW or PVTG, never RWGSALT, and some
    table of that name has a node with a single undersaturated row after
    which no node has two or more. *)
Theorem exceptions_tell_a_defect_of_the_input (eclState : EclipseState Scalar)
    (schedule : Schedule Scalar) :
  (initFromState eclState schedule = Raise (InsufficientData RWGSALT) →
   ∃ r rwgsaltTable,
     getRwgSaltTables eclState !! r = Some rwgsaltTable ∧
     numRows (salt_getSaturatedTable rwgsaltTable) < 2) ∧
  (initFromState eclState schedule = Raise (InsufficientData PVTGW) →
   ∃ r pvtgwTable,
     getPvtgwTables eclState !! r = Some pvtgwTable ∧
     numRows (getSaturatedTable pvtgwTable) < 2) ∧
  (initFromState eclState schedule = Raise (InsufficientData PVTG) →
   ∃ r pvtgTable,
     getPvtgTables eclState !! r = Some pvtgTable ∧
     numRows (getSaturatedTable pvtgTable) < 2) ∧
  (initFromState eclState schedule = Raise (ExtrapolationImpossible PVTGW) →
   ∃ r pvtgwTable xIdx,
     getPvtgwTables eclState !! r = Some pvtgwTable ∧
     masterless pvtgwTable xIdx) ∧
  (initFromState eclState schedule = Raise (ExtrapolationImpossible PVTG) →
   ∃ r pvtgTable xIdx,
     getPvtgTables eclState !! r = Some pvtgTable ∧
     masterless pvtgTable xIdx) ∧
  initFromState eclState schedule ≠ Raise (ExtrapolationImpossible RWGSALT).
Proof.
  assert (∀ e, initFromState eclState schedule = Raise e →
            (∃ name, e = InsufficientData name ∨
                     e = ExtrapolationImpossible name) →
    (∃ r tbl, getRwgSaltTables eclState !! r = Some tbl ∧
       e = InsufficientData RWGSALT ∧
       numRows (salt_getSaturatedTable tbl) < 2) ∨
    (∃ r tbl, getPvtgwTables eclState !! r = Some tbl ∧ faulty PVTGW tbl e) ∨
    (∃ r tbl, getPvtgTables eclState !! r = Some tbl ∧ faulty PVTG tbl e))
    as Hdefect.
  { intros e Hrun [name He]. apply initFromState_first_defect in Hrun.
    destruct Hrun as [[-> | ->]|[(? & ? & ? & ->)|[Hsalt|[Hw|Hg]]]];
      [by destruct He..| | |].
    - destruct Hsalt as (r & tbl & _ & ? & ? & ? & _). left. eauto.
    - destruct Hw as (_ & r & tbl & ? & ? & _). right. left. eauto.
    - destruct Hg as (_ & _ & r & tbl & ? & ? & _). right. right. eauto. }
  split_and!; intros Hrun; apply Hdefect in Hrun as Hd; eauto;
    destruct Hd
      as [(r & tbl & ? & ? & ?)|[(r & tbl & ? & Hf)|(r & tbl & ? & Hf)]];
    try destruct Hf as [[? ?]|(? & ? & xIdx & ?)]; simplify_eq; eauto.
Qed.

(** X9. The exceptions come in the order of the loops. An exception of
    [initFromState] that names PVTGW tells that the salt tables have passed
    and that the PVTGW tables of the regions before the one it is raised
    for have no defect; one that names PVTG tells that the salt tables have
    passed and that no PVTGW table has a defect, nor the PVTG tables of the
    regions before. *)
Theorem exceptions_come_in_the_order_of_the_loops
    (eclState : EclipseState Scalar) (schedule : Schedule Scalar) (e : Error) :
  initFromState eclState schedule = Raise e →
  (e = InsufficientData PVTGW ∨ e = ExtrapolationImpossible PVTGW →
   saltAccepted eclState ∧
   ∃ r pvtgwTable,
     getPvtgwTables eclState !! r = Some pvtgwTable ∧
     faulty PVTGW pvtgwTable e ∧
     ∀ r' t, r' < r → getPvtgwTables eclState !! r' = Some t → accepted t) ∧
  (e = InsufficientData PVTG ∨ e = ExtrapolationImpossible PVTG →
   saltAccepted eclState ∧
   (∀ r t, getPvtgwTables eclState !! r = Some t → accepted t) ∧
   ∃ r pvtgTable,
     getPvtgTables eclState !! r = Some pvtgTable ∧
     faulty PVTG pvtgTable e ∧
     ∀ r' t, r' < r → getPvtgTables eclState !! r' = Some t → accepted t).
Proof.
  intros Hrun. apply initFromState_first_defect in Hrun.
  split; intros He.
  - destruct Hrun as [[-> | ->]|[(? & ? & ? & ->)|[Hsalt|[Hw|Hg]]]];
      [by destruct He..| |done|].
    + destruct Hsalt as (_ & _ & _ & _ & -> & _). by destruct He.
    + destruct Hg as (_ & _ & _ & tbl & _ & Hf & _).
      destruct Hf as [[-> _]|[-> _]]; by destruct He.
  - destruct Hrun as [[-> | ->]|[(? & ? & ? & ->)|[Hsalt|[Hw|Hg]]]];
      [by destruct He..| | |done].
    + destruct Hsalt as (_ & _ & _ & _ & -> & _). by destruct He.
    + destruct Hw as (_ & _ & tbl & _ & Hf & _).
      destruct Hf as [[-> _]|[-> _]]; by destruct He.
Qed.

End Diagnosis.

(** ** The regions, the extrapolation step and the extension of a node *)

Section Composition.

Context {Scalar : Type} `{ScalarOps Scalar}.

Local Abbreviation Tabulated2D :=
  (list (Scalar * list (Scalar * Scalar))) (only parsing).

(** X10. The tables of a region are made of the tables of that region only.
    In two completed runs, on any two inputs and schedules, a region of the
    one and a region of the other that have the same PVTGW table have the
    same inverse-B table, viscosity table and water vaporization factor
    table of PVTGW, and with the same PVTG table the same tables of PVTG:
    neither the tables of the other regions, nor the region index, nor the
    salt tables, the densities or the schedule have a part in them. *)
Theorem region_tables_depend_on_the_table_of_the_region
    (eclState eclState' : EclipseState Scalar)
    (schedule schedule' : Schedule Scalar)
    (st st' : WetHumidGasPvt Scalar) (r r' : nat)
    (pvtTable : PvtxTable Scalar) :
  initFromState eclState schedule = Ok st →
  initFromState eclState' schedule' = Ok st' →
  (getPvtgwTables eclState !! r = Some pvtTable →
   getPvtgwTables eclState' !! r' = Some pvtTable →
   inverseGasBRvSat_ st !! r = inverseGasBRvSat_ st' !! r' ∧
   gasMuRvSat_ st !! r = gasMuRvSat_ st' !! r' ∧
   saturatedWaterVaporizationFactorTable_ st !! r
     = saturatedWaterVaporizationFactorTable_ st' !! r') ∧
  (getPvtgTables eclState !! r = Some pvtTable →
   getPvtgTables eclState' !! r' = Some pvtTable →
   inverseGasBRvwSat_ st !! r = inverseGasBRvwSat_ st' !! r' ∧
   gasMuRvwSat_ st !! r = gasMuRvwSat_ st' !! r' ∧
   saturatedOilVaporizationFactorTable_ st !! r
     = saturatedOilVaporizationFactorTable_ st' !! r').
Proof.
  intros [Hw Hg]%initFromState_regions [Hw' Hg']%initFromState_regions.
  split; intros Htbl Htbl'.
  - destruct (Hw r pvtTable Htbl) as (ft & Hfill & _ & -> & -> & ->).
    destruct (Hw' r' pvtTable Htbl') as (ft' & Hfill' & _ & -> & -> & ->).
    rewrite Hfill in Hfill'. by injection Hfill' as <-.
  - destruct (Hg r pvtTable Htbl) as (ft & Hfill & _ & -> & -> & ->).
    destruct (Hg' r' pvtTable Htbl') as (ft' & Hfill' & _ & -> & -> & ->).
    rewrite Hfill in Hfill'. by injection Hfill' as <-.
Qed.

(** X11. The extrapolation step is idempotent: run again on the tables it
    has made, for whatever table and under whatever name, it completes and
    leaves them as they are. *)
Theorem extrapolation_step_is_idempotent (name name' : TableName)
    (pvtTable pvtTable' : PvtxTable Scalar)
    (t t' : Tabulated2D * Tabulated2D) :
  completeTable name pvtTable t = Ok t' →
  completeTable name' pvtTable' t' = Ok t'.
Proof.
  intros [Hcomplete _]%completeTable_Ok. by apply completeTable_complete.
Qed.

Lemma extendRows_short (xIdx : nat) (master : SimpleTable)
    (e : Extension Scalar) :
  numRows master < 2 → extendRows xIdx master e = Ok e.
Proof.
  intros Hn. destruct master as [|m0 [|m1 rest]]; simpl in *; [done..|lia].
Qed.

Lemma extendRows_reads (xIdx : nat) (master : SimpleTable)
    (e e' : Extension Scalar) :
  2 ≤ numRows master →
  extendRows xIdx master e = Ok e' →
  RvArray e ≠ [] ∧ gasBArray e ≠ [] ∧ gasMuArray e ≠ [].
Proof.
  intros Hn Hrun. destruct master as [|m0 [|m1 rest]]; simpl in Hn; [lia..|].
  rewrite extendRows_cons in Hrun.
  apply bind_Ok in Hrun as (e1 & Hstep & _). unfold extendStep in Hstep.
  cbn zeta in Hstep.
  apply bind_Ok in Hstep as (r & Hr%back_Ok & Hstep).
  apply bind_Ok in Hstep as (b & Hb%back_Ok & Hstep).
  apply bind_Ok in Hstep as (m & Hm%back_Ok & _).
  split_and!; intros Hnil; by rewrite Hnil in *.
Qed.

(** X12. When [extendPvtgwTable_] and [extendPvtgTable_] complete. With a
    master table of fewer than 2 rows the loop over its rows does not run:
    the call completes and leaves the tables as they are, whatever the
    current table and the index. With a master table of 2 rows or more the
    call completes exactly when the current table has a row ([back()] is
    taken of its columns) and the x position exists in both tables; it then
    adds one sample per row of the master table but the first to the node,
    in both tables, and nothing else. *)
Theorem extendTable_completes_iff (xIdx : nat)
    (curTable masterTable : SimpleTable) (invGasB0 gasMu0 : Tabulated2D) :
  (numRows masterTable < 2 →
   extendTable_ xIdx curTable masterTable invGasB0 gasMu0
     = Ok (invGasB0, gasMu0)) ∧
  (2 ≤ numRows masterTable →
   isOk (extendTable_ xIdx curTable masterTable invGasB0 gasMu0) ↔
   0 < numRows curTable ∧ xIdx < numX invGasB0 ∧ xIdx < numX gasMu0) ∧
  (∀ invGasB' gasMu',
     extendTable_ xIdx curTable masterTable invGasB0 gasMu0
       = Ok (invGasB', gasMu') →
     ∃ ptsB ptsMu,
       length ptsB = numRows masterTable - 1 ∧
       length ptsMu = numRows masterTable - 1 ∧
       invGasB' = appendSamples xIdx ptsB invGasB0 ∧
       gasMu' = appendSamples xIdx ptsMu gasMu0).
Proof.
  split_and!.
  - intros Hn. unfold extendTable_. by rewrite extendRows_short.
  - intros Hn. split.
    + intros [[invB mu] Hrun].
      apply extendTable_Ok in Hrun as Hnodes.
      destruct Hnodes as [[? ?] _]; [done|]. split_and!; [|done..].
      unfold extendTable_ in Hrun.
      apply bind_Ok in Hrun as (e & Hrows & _).
      apply extendRows_reads in Hrows as (Hcur & _); [|done].
      simpl in Hcur. destruct curTable; [done|]. simpl. lia.
    + intros (? & ? & ?). by apply extendTable_total.
  - intros invB mu Hrun. by apply extendTable_Ok in Hrun as [_ ?].
Qed.

Lemma extractRow_assert (pvtTable : PvtxTable Scalar)
    (a : Extraction Scalar) :
  0 < numRows (getSaturatedTable pvtTable) →
  x_invGasB a ≠ [] ∨ x_gasMu a ≠ [] →
  extractRow pvtTable 0 a = Raise AssertionFailed.
Proof.
  intros Hrows Hnodes. unfold extractRow.
  destruct (at_index_lt (getSaturatedTable pvtTable) 0) as (row & -> & _);
    [unfold numRows in Hrows; lia|].
  rewrite Ok_bind. cbn zeta. unfold numX, appendXPos.
  rewrite !length_app. simpl.
  destruct (x_invGasB a) as [|nodeB invB].
  - destruct (x_gasMu a) as [|nodeMu mu]; [by destruct Hnodes|].
    rewrite (bool_decide_eq_true_2 (length [] + 1 = 1)) by done.
    by rewrite (bool_decide_eq_false_2 (length (nodeMu :: mu) + 1 = 1))
      by (simpl; lia).
  - by rewrite (bool_decide_eq_false_2 (length (nodeB :: invB) + 1 = 1))
      by (simpl; lia).
Qed.

(** X15. The loop body of a family needs the empty 2-D tables of a new
    object. When the inverse-B table or the viscosity table of the region
    already has a node and the saturated table has a row, the first
    iteration of the loop over the saturated rows fails one of its two
    assertions on the number of x positions, before a sample is added (the
    assertions are taken to be compiled in). *)
Theorem loop_body_needs_empty_tables (name : TableName)
    (pvtTable : PvtxTable Scalar) (ft : FamilyTables Scalar) :
  0 < numRows (getSaturatedTable pvtTable) →
  f_invGasB ft ≠ [] ∨ f_gasMu ft ≠ [] →
  fillFamilyTables name pvtTable ft = Raise AssertionFailed.
Proof.
  intros Hrows Hnodes. unfold fillFamilyTables.
  destruct (numRows (getSaturatedTable pvtTable)) as [|n] eqn:Hn; [lia|].
  cbn [forRange]. by rewrite extractRow_assert by (rewrite ?Hn; done || lia).
Qed.

End Composition.

(** ** The branch of a node with a single sample *)

Section Synthesized.

Context {Scalar : Type} `{ScalarOps Scalar}.

Local Abbreviation Tabulated2D :=
  (list (Scalar * list (Scalar * Scalar))) (only parsing).

Hypothesis s_add_comm : ∀ a b : Scalar, (a + b)%Sc = (b + a)%Sc.

Lemma extendTable_single (xIdx : nat) (s : UnderSaturatedRow Scalar)
    (masterTable : SimpleTable) (invGasB0 gasMu0 : Tabulated2D) :
  xIdx < numX invGasB0 →
  xIdx < numX gasMu0 →
  extendTable_ xIdx [s] masterTable invGasB0 gasMu0 =
    Ok (appendSamples xIdx
          (inverseBSample <$> extrapolatedBranch s masterTable) invGasB0,
        appendSamples xIdx
          (viscositySample <$> extrapolatedBranch s masterTable) gasMu0).
Proof.
  intros HB HMu. unfold extendTable_.
  by rewrite (extendRows_spec s_add_comm xIdx masterTable s).
Qed.

(** The extrapolation step on the tables of the measured samples: the
    branch of a node with a single sample and a master. *)
Lemma completeTable_single (name : TableName) (pvtTable : PvtxTable Scalar)
    (t' : Tabulated2D * Tabulated2D) (xIdx m : nat)
    (s : UnderSaturatedRow Scalar) (masterTable : SimpleTable) :
  completeTable name pvtTable (rawTables pvtTable) = Ok t' →
  getUnderSaturatedTable pvtTable xIdx = Ok [s] →
  masterOf pvtTable xIdx m masterTable →
  branch t'.1 xIdx
    = inverseBSample <$> s :: extrapolatedBranch s masterTable ∧
  branch t'.2 xIdx
    = viscositySample <$> s :: extrapolatedBranch s masterTable.
Proof.
  intros Hrun Hs%at_index_Ok (Hm & Hmaster & Hrows & Hskip).
  destruct (lookup_lt_is_Some_2 (getSaturatedTable pvtTable) xIdx)
    as [row Hrow]; [unfold numRows in Hm; lia|].
  assert ((rawTables pvtTable).1 !! xIdx
            = Some (sat_PG row, inverseBSample <$> [s])) as HrawB.
  { unfold rawTables. simpl. rewrite lookup_zip_with, Hrow. simpl.
    by rewrite Hs. }
  assert ((rawTables pvtTable).2 !! xIdx
            = Some (sat_PG row, viscositySample <$> [s])) as HrawMu.
  { unfold rawTables. simpl. rewrite lookup_zip_with, Hrow. simpl.
    by rewrite Hs. }
  unfold completeTable in Hrun.
  apply (forRange_inv (λ j (u : Tabulated2D * Tabulated2D),
    (∀ i, j ≤ i → u.1 !! i = (rawTables pvtTable).1 !! i ∧
                   u.2 !! i = (rawTables pvtTable).2 !! i) ∧
    (xIdx < j →
     branch u.1 xIdx
       = inverseBSample <$> s :: extrapolatedBranch s masterTable ∧
     branch u.2 xIdx
       = viscositySample <$> s :: extrapolatedBranch s masterTable)))
    in Hrun.
  - apply Hrun. apply lookup_lt_Some in HrawB. unfold numX. lia.
  - split; [done|lia].
  - intros j u u' _ [Hrest Hdone] Hbody.
    destruct (decide (j = xIdx)) as [->|Hne].
    + destruct (Hrest xIdx (le_n _)) as [HuB HuMu].
      rewrite HrawB in HuB. rewrite HrawMu in HuMu.
      rewrite (completeNode_master name pvtTable xIdx m u [s] masterTable)
        in Hbody; [|unfold numY; by rewrite HuB|done|by apply at_index_Ok
                   |done..].
      rewrite extendTable_single in Hbody
        by (unfold numX; by eapply lookup_lt_Some).
      injection Hbody as <-. simpl. split.
      * intros i Hi. unfold appendSamples.
        rewrite !list_lookup_alter_ne by lia. apply Hrest. lia.
      * intros _. rewrite !branch_appendSamples_eq
          by (unfold numX; by eapply lookup_lt_Some).
        unfold branch. by rewrite HuB, HuMu.
    + apply completeNode_Ok in Hbody as (_ & ptsB & ptsMu & _ & _ & HB & HMu).
      rewrite HB, HMu. split.
      * intros i Hi. unfold appendSamples.
        rewrite !list_lookup_alter_ne by lia. apply Hrest. lia.
      * intros Hj. rewrite !branch_appendSamples_ne by done.
        apply Hdone. lia.
Qed.

(** X13. The branches of the finished tables that have synthesized samples.
    On completion, in the tables made of a PVTGW or PVTG table, the branch
    of a node whose undersaturated table has a single row is that row
    followed by the points extrapolated from it along the master table, the
    undersaturated table of the first later node with two rows or more:
    one point per row of the master table but the first, each from the one
    before. (Addition is taken to be commutative, as it is in binary64.) *)
Theorem single_sample_node_has_the_extrapolated_branch
    (eclState : EclipseState Scalar) (schedule : Schedule Scalar)
    (st : WetHumidGasPvt Scalar) (r : nat) (pvtTable : PvtxTable Scalar)
    (invGasB gasMu : Tabulated2D) (xIdx m : nat)
    (s : UnderSaturatedRow Scalar) (masterTable : SimpleTable) :
  initFromState eclState schedule = Ok st →
  getPvtgwTables eclState !! r = Some pvtTable ∧
    inverseGasBRvSat_ st !! r = Some invGasB ∧
    gasMuRvSat_ st !! r = Some gasMu ∨
  getPvtgTables eclState !! r = Some pvtTable ∧
    inverseGasBRvwSat_ st !! r = Some invGasB ∧
    gasMuRvwSat_ st !! r = Some gasMu →
  getUnderSaturatedTable pvtTable xIdx = Ok [s] →
  masterOf pvtTable xIdx m masterTable →
  branch invGasB xIdx
    = inverseBSample <$> s :: extrapolatedBranch s masterTable ∧
  branch gasMu xIdx
    = viscositySample <$> s :: extrapolatedBranch s masterTable.
Proof.
  intros [Hw Hg]%initFromState_regions Htables Hs Hmaster.
  destruct Htables as [(Htbl & HB & HMu)|(Htbl & HB & HMu)].
  - destruct (Hw r pvtTable Htbl) as (ft & Hfill & _ & HMu' & HB' & _).
    rewrite HB in HB'. rewrite HMu in HMu'.
    injection HB' as ->. injection HMu' as ->.
    apply fillFamilyTables_new in Hfill as (_ & Hcomplete & _).
    by apply (completeTable_single _ _ _ xIdx m s masterTable Hcomplete).
  - destruct (Hg r pvtTable Htbl) as (ft & Hfill & _ & HMu' & HB' & _).
    rewrite HB in HB'. rewrite HMu in HMu'.
    injection HB' as ->. injection HMu' as ->.
    apply fillFamilyTables_new in Hfill as (_ & Hcomplete & _).
    by apply (completeTable_single _ _ _ xIdx m s masterTable Hcomplete).
Qed.

End Synthesized.

(** ** The further properties on the sample inputs *)

Lemma sample_finished_salt :
  initFromState Sample.twoSaltTables Sample.schedule
    = Ok SampleMore.finishedSalt.
Proof. vm_compute. reflexivity. Qed.

Lemma sample_wellFormed_full : wellFormed Sample.full.
Proof. split; [reflexivity|]. repeat constructor. Qed.

Lemma sample_wellFormed_degenerate : wellFormed Sample.degenerate.
Proof. split; [reflexivity|]. repeat constructor. Qed.

Lemma sample_wellFormedDeck : wellFormedDeck Sample.eclState.
Proof.
  split_and!; [| |by left];
    repeat constructor; (apply sample_wellFormed_full
                         || apply sample_wellFormed_degenerate).
Qed.

Lemma sample_wellFormedDeck_twoDefects : wellFormedDeck Sample.twoDefects.
Proof.
  split_and!; [| |by left]; repeat constructor.
Qed.

Lemma sample_passes_full : passes Sample.full.
Proof.
  split; [apply sample_wellFormed_full|]. split; [vm_compute; lia|].
  exists 2, [Sample.m0; Sample.m1; Sample.m2].
  split_and!; [reflexivity|reflexivity|vm_compute; lia].
Qed.

Lemma sample_passes_degenerate : passes Sample.degenerate.
Proof.
  split; [apply sample_wellFormed_degenerate|]. split; [vm_compute; lia|].
  exists 2, [Sample.m0; Sample.m1; Sample.m2].
  split_and!; [reflexivity|reflexivity|vm_compute; lia].
Qed.

Lemma sample_saltPasses : saltPasses Sample.salt.
Proof. split; [reflexivity|vm_compute; lia]. Qed.

(** C3 on the sample tables. The scan from the node 1 of
    [SampleMore.twoDegenerate] passes the node 2, which has a single sample,
    and the node 1 is extended from the node 3. The last node of the PVTGW
    table of the region 1 of [SampleMore.masterlessSecond] has a single
    sample, the tables before it have no defect, and [initFromState] raises
    ExtrapolationImpossible. *)
Lemma sample_master :
  completeNode PVTGW SampleMore.twoDegenerate 1
      (rawTables SampleMore.twoDegenerate)
    = extendTable_ 1 [Sample.s1] [Sample.m0; Sample.m1; Sample.m2]
        (rawTables SampleMore.twoDegenerate).1
        (rawTables SampleMore.twoDegenerate).2 ∧
  initFromState SampleMore.masterlessSecond Sample.schedule
    = Raise (ExtrapolationImpossible PVTGW).
Proof.
  split.
  - destruct (proj1 (master_is_first_later_node PVTGW SampleMore.twoDegenerate)
                1 (rawTables SampleMore.twoDegenerate)) as [Hmaster _];
      [vm_compute; reflexivity|].
    apply (Hmaster 3).
    + vm_compute. lia.
    + reflexivity.
    + reflexivity.
    + vm_compute. lia.
    + intros j Hj. assert (j = 2) as -> by lia.
      eexists. split; [reflexivity|vm_compute; lia].
  - destruct (proj2 (master_is_first_later_node PVTGW Sample.lastDegenerate)
                1 SampleMore.masterlessSecond Sample.schedule 1)
      as [_ Hnamed].
    + split_and!; [vm_compute; lia|by exists Sample.s1|].
      intros j Hj. vm_compute in Hj. lia.
    + vm_compute. lia.
    + destruct Hnamed as [Hpvtgw _].
      * split; reflexivity.
      * by left.
      * split; [reflexivity|]. repeat constructor.
      * vm_compute. lia.
      * apply Hpvtgw; [reflexivity|].
        intros r t Hr Ht. assert (r = 0) as -> by lia.
        injection Ht as <-. apply sample_passes_full.
Defined.

(** C5 on the sample inputs: a saturated table of PVTG with one row in the
    region 1, after tables without a defect; a saturated table of PVTGW with
    one row; a salt table with one saturated row in the region 1, the PVTGW
    table of the region 0 having a defect as well; and the input of the
    counterexample, on which [initFromState] does not complete either. *)
Lemma sample_short_table :
  initFromState SampleMore.shortSecond Sample.schedule
    = Raise (InsufficientData PVTG) ∧
  initFromState Sample.oneRowState Sample.schedule
    = Raise (InsufficientData PVTGW) ∧
  initFromState SampleMore.shortSaltSecond Sample.schedule
    = Raise (InsufficientData RWGSALT) ∧
  ∃ e, initFromState Sample.twoDefects Sample.schedule = Raise e.
Proof.
  split_and!.
  - destruct (short_saturated_table_raises SampleMore.shortSecond
                Sample.schedule 1) as [_ Hnamed]; [vm_compute; lia|].
    destruct Hnamed as (_ & _ & Hpvtg); [split; reflexivity|].
    apply (Hpvtg Sample.oneRow); [reflexivity|vm_compute; lia|by left| |].
    + intros r t Ht. destruct r as [|[|r]]; [| |done].
      * injection Ht as <-. apply sample_passes_full.
      * injection Ht as <-. apply sample_passes_degenerate.
    + intros r t Hr Ht. assert (r = 0) as -> by lia.
      injection Ht as <-. apply sample_passes_full.
  - destruct (short_saturated_table_raises Sample.oneRowState
                Sample.schedule 0) as [_ Hnamed]; [vm_compute; lia|].
    destruct Hnamed as (_ & Hpvtgw & _); [split; reflexivity|].
    apply (Hpvtgw Sample.oneRow); [reflexivity|vm_compute; lia|by left|].
    intros r t Hr. lia.
  - destruct (short_saturated_table_raises SampleMore.shortSaltSecond
                Sample.schedule 1) as [_ Hnamed]; [vm_compute; lia|].
    destruct Hnamed as (Hsalt & _ & _); [split; reflexivity|].
    apply (Hsalt SampleMore.shortSalt); [reflexivity|vm_compute; lia|].
    intros r Hr. assert (r = 0) as -> by lia.
    exists Sample.salt. split; [reflexivity|apply sample_saltPasses].
  - destruct (short_saturated_table_raises Sample.twoDefects
                Sample.schedule 0) as [Hnever _]; [vm_compute; lia|].
    apply Hnever. right. right. exists Sample.oneRow.
    split; [reflexivity|vm_compute; lia].
Defined.

(** X1 on the sample input. *)
Lemma sample_reference_densities :
  gasReferenceDensity_ Sample.finished = [1; 1]%float ∧
  oilReferenceDensity_ Sample.finished = [800; 800]%float ∧
  waterReferenceDensity_ Sample.finished = [1000; 1000]%float.
Proof.
  apply (reference_densities_are_the_density_columns Sample.eclState
           Sample.schedule Sample.finished sample_finished).
Defined.

(** X2 on the input with one region and two salt tables: the node 1 of the
    salt table has one sample, and so has the node 1 of the salt factor
    table. *)
Lemma sample_salt_factor_table :
  enableRwgSalt_ SampleMore.finishedSalt = true ∧
  saturatedWaterVaporizationSaltFactorTable_ SampleMore.finishedSalt !! 0
    = Some (saltSamples Sample.salt) ∧
  numY (saltSamples Sample.salt) 1 = 1.
Proof.
  destruct (salt_factor_tables_hold_the_salt_samples Sample.twoSaltTables
              Sample.schedule SampleMore.finishedSalt sample_finished_salt)
    as (Hflag & _ & _ & Hsamples).
  split_and!.
  - apply Hflag. discriminate.
  - destruct (Hsamples ltac:(discriminate) 0 ltac:(vm_compute; lia))
      as (tbl & [= <-] & Htable). exact Htable.
  - reflexivity.
Defined.

(** X3 on the sample input. *)
Lemma sample_vaporization_factor_tables :
  saturatedWaterVaporizationFactorTable_ Sample.finished !! 0
    = Some (saturatedRatio Sample.full) ∧
  saturatedOilVaporizationFactorTable_ Sample.finished !! 0
    = Some (saturatedRatio Sample.degenerate).
Proof.
  destruct (vaporization_factor_tables_hold_the_saturated_ratios
              Sample.eclState Sample.schedule Sample.finished sample_finished)
    as [Hw Hg].
  split; [by apply Hw|by apply Hg].
Defined.

(** X4 on the sample input: the PVTGW table of the region 1. *)
Lemma sample_measured_samples :
  ∃ invGasB gasMu,
    inverseGasBRvSat_ Sample.finished !! 1 = Some invGasB ∧
    gasMuRvSat_ Sample.finished !! 1 = Some gasMu ∧
    invGasB.*1 = [10; 20; 30]%float ∧
    branch invGasB 0 = [inverseBSample (usRow 0.5 1 2);
                        inverseBSample (usRow 0.75 2 2.5)]%float ∧
    extendsBranches (rawTables Sample.degenerate).2 gasMu.
Proof.
  destruct (proj1 (measured_samples_are_kept Sample.eclState Sample.schedule
                     Sample.finished sample_finished) 1 Sample.degenerate)
    as (invGasB & gasMu & HB & HMu & Hx & _ & HextB & HextMu); [reflexivity|].
  exists invGasB, gasMu. split_and!; [done..| |done].
  destruct HextB as [_ Hnodes].
  destruct (Hnodes 0 10%float
              [inverseBSample (usRow 0.5 1 2);
               inverseBSample (usRow 0.75 2 2.5)]%float)
    as (pts & Hnode & Hpts); [reflexivity|].
  unfold branch. rewrite Hnode. simpl. by rewrite Hpts by (simpl; lia).
Defined.

(** X5 on the sample input. *)
Lemma sample_positions :
  ∃ invGasB gasMu,
    inverseGasBRvSat_ Sample.finished !! 1 = Some invGasB ∧
    gasMuRvSat_ Sample.finished !! 1 = Some gasMu ∧
    positions invGasB = positions gasMu.
Proof.
  eexists _, _. split; [vm_compute; reflexivity|].
  split; [vm_compute; reflexivity|].
  apply (tables_of_a_family_share_positions Sample.eclState Sample.schedule
           Sample.finished 1 _ _ sample_finished).
  left. split; vm_compute; reflexivity.
Defined.

(** X6 on the sample input. *)
Lemma sample_completes : isOk (initFromState Sample.eclState Sample.schedule).
Proof.
  apply (initFromState_completes_iff Sample.eclState Sample.schedule
           sample_wellFormedDeck).
  split_and!; [discriminate|reflexivity|reflexivity|by left|].
  intros tbl Htbl.
  assert (tbl = Sample.full ∨ tbl = Sample.degenerate) as [-> | ->].
  { destruct Htbl as [Htbl|Htbl]; simpl in Htbl;
      repeat (apply elem_of_cons in Htbl as [->|Htbl]); auto;
      by apply elem_of_nil in Htbl. }
  - split; [vm_compute; lia|].
    exists 2, [Sample.m0; Sample.m1; Sample.m2].
    split_and!; [reflexivity|reflexivity|vm_compute; lia].
  - split; [vm_compute; lia|].
    exists 2, [Sample.m0; Sample.m1; Sample.m2].
    split_and!; [reflexivity|reflexivity|vm_compute; lia].
Defined.

(** X7 on the input whose PVTGW table has a single sample at the last
    node. *)
Lemma sample_runtime_error :
  initFromState Sample.twoDefects Sample.schedule
    = Raise (ExtrapolationImpossible PVTGW) ∧
  ExtrapolationImpossible PVTGW ≠ AssertionFailed ∧
  ExtrapolationImpossible PVTGW ≠ OutOfRange.
Proof.
  assert (initFromState Sample.twoDefects Sample.schedule
            = Raise (ExtrapolationImpossible PVTGW)) as Hrun
    by (vm_compute; reflexivity).
  split; [exact Hrun|].
  apply (well_formed_deck_raises_runtime_errors_only Sample.twoDefects
           Sample.schedule _ sample_wellFormedDeck_twoDefects
           ltac:(discriminate) Hrun).
Defined.

(** X8 on that input: the node 1 of its PVTGW table is masterless. *)
Lemma sample_defect :
  ∃ r pvtgwTable xIdx,
    getPvtgwTables Sample.twoDefects !! r = Some pvtgwTable ∧
    masterless pvtgwTable xIdx.
Proof.
  apply (exceptions_tell_a_defect_of_the_input Sample.twoDefects
           Sample.schedule).
  vm_compute. reflexivity.
Defined.

(** X9 on the input whose PVTG table has a saturated table with one row:
    its PVTGW table has no defect. *)
Lemma sample_order :
  accepted Sample.full.
Proof.
  destruct (proj2 (exceptions_come_in_the_order_of_the_loops
                     SampleMore.shortPvtg Sample.schedule
                     (InsufficientData PVTG) ltac:(vm_compute; reflexivity)))
    as (_ & Hall & _); [by left|].
  by apply (Hall 0).
Defined.

(** X10 on the two inputs whose region 0 has the PVTGW table
    [Sample.full]. *)
Lemma sample_regions :
  inverseGasBRvSat_ Sample.finished !! 0
    = inverseGasBRvSat_ SampleMore.finishedSalt !! 0 ∧
  gasMuRvSat_ Sample.finished !! 0
    = gasMuRvSat_ SampleMore.finishedSalt !! 0 ∧
  saturatedWaterVaporizationFactorTable_ Sample.finished !! 0
    = saturatedWaterVaporizationFactorTable_ SampleMore.finishedSalt !! 0.
Proof.
  apply (proj1 (region_tables_depend_on_the_table_of_the_region
                  Sample.eclState Sample.twoSaltTables
                  Sample.schedule Sample.schedule
                  Sample.finished SampleMore.finishedSalt 0 0 Sample.full
                  sample_finished sample_finished_salt));
    reflexivity.
Defined.

(** X11 on the tables the extrapolation step makes of [Sample.degenerate]. *)
Lemma sample_idempotent :
  ∃ t,
    completeTable PVTGW Sample.degenerate (rawTables Sample.degenerate)
      = Ok t ∧
    completeTable PVTG Sample.full t = Ok t.
Proof.
  eexists. split; [vm_compute; reflexivity|].
  apply (extrapolation_step_is_idempotent PVTGW PVTG Sample.degenerate
           Sample.full (rawTables Sample.degenerate)).
  vm_compute. reflexivity.
Defined.

(** X15 on the tables the extrapolation step has made already. *)
Lemma sample_reused_tables :
  fillFamilyTables PVTGW Sample.full
    {| f_gasMu := (rawTables Sample.full).2;
       f_invGasB := (rawTables Sample.full).1;
       f_invSatGasB := emptyTabulated1D;
       f_invSatGasBMu := emptyTabulated1D;
       f_vaporizationFac := emptyTabulated1D |}
    = Raise AssertionFailed.
Proof.
  apply loop_body_needs_empty_tables; [vm_compute; lia|].
  left. discriminate.
Defined.

(** X13 in [double], on the sample input: the node 1 of the PVTGW table of
    the region 1, whose master is the node 2. *)
Lemma sample_single_sample_node :
  ∃ invGasB gasMu,
    inverseGasBRvSat_ Sample.finished !! 1 = Some invGasB ∧
    gasMuRvSat_ Sample.finished !! 1 = Some gasMu ∧
    branch invGasB 1
      = inverseBSample
          <$> Sample.s1
              :: extrapolatedBranch Sample.s1
                   [Sample.m0; Sample.m1; Sample.m2] ∧
    branch gasMu 1
      = viscositySample
          <$> Sample.s1
              :: extrapolatedBranch Sample.s1
                   [Sample.m0; Sample.m1; Sample.m2].
Proof.
  eexists _, _. split; [vm_compute; reflexivity|].
  split; [vm_compute; reflexivity|].
  apply (single_sample_node_has_the_extrapolated_branch double_add_comm
           Sample.eclState Sample.schedule Sample.finished 1
           Sample.degenerate _ _ 1 2 Sample.s1
           [Sample.m0; Sample.m1; Sample.m2] sample_finished).
  - left. split_and!; vm_compute; reflexivity.
  - reflexivity.
  - split; [vm_compute; lia|]. split; [reflexivity|].
    split; [vm_compute; lia|]. intros j Hj. lia.
Defined.

(** ** The extensions of the restart files *)




Lemma pretty_N_char_ne_0 (d : N) : (0 < d < 10)%N → pretty_N_char d ≠ "0"%char.
Proof.
  intros Hd.
  assert (d = 1 ∨ d = 2 ∨ d = 3 ∨ d = 4 ∨ d = 5 ∨ d = 6
          ∨ d = 7 ∨ d = 8 ∨ d = 9)%N as Hcases by lia.
  repeat (destruct Hcases as [->|Hcases]); try done. by subst.
Qed.

Lemma pretty_N_go_head (x : N) (s : string) :
  (0 < x)%N →
  ∃ d rest, (0 < d < 10)%N ∧ pretty_N_go x s = String (pretty_N_char d) rest.
Proof.
  revert s. induction (N.lt_wf_0 x) as [x _ IH]; intros s Hx.
  rewrite pretty_N_go_step by done.
  destruct (decide (x `div` 10 = 0)%N) as [Hz|Hpos].
  - rewrite Hz, pretty_N_go_0. exists (x `mod` 10)%N, s. split; [|done].
    apply N.div_small_iff in Hz; [|done]. rewrite N.mod_small by done. lia.
  - apply IH; [by apply N.div_lt|by apply N.neq_0_lt_0].
Qed.

Lemma pretty_N_char_ne_U (d : N) : pretty_N_char d ≠ "U"%char.
Proof. unfold pretty_N_char. by repeat case_match. Qed.

Lemma pretty_N_pos (x : N) : (0 < x)%N → pretty x = pretty_N_go x EmptyString.
Proof.
  intros Hx. unfold pretty, pretty_N. by rewrite decide_False by lia.
Qed.

(** The decimal digits of an integer: a minus sign or a digit first, which
    is 0 for 0 only. *)
Lemma pretty_Z_head (z : Z) :
  z = 0%Z ∧ pretty z = "0" ∨
  ∃ c rest, pretty z = String c rest ∧ c ≠ "0"%char ∧ c ≠ "U"%char.
Proof.
  destruct z as [|p|p]; [by left|right..].
  - change (pretty (Z.pos p)) with (pretty (N.pos p)).
    rewrite pretty_N_pos by lia.
    destruct (pretty_N_go_head (N.pos p) EmptyString)
      as (d & rest & Hd & ->); [lia|].
    exists (pretty_N_char d), rest.
    split_and!; [done|by apply pretty_N_char_ne_0|apply pretty_N_char_ne_U].
  - by exists "-"%char, (pretty (N.pos p)).
Qed.



Section Restart.

Import OutputStream.

Lemma length_fill (k : nat) (c : ascii) (s : string) :
  String.length (Nat.iter k (String c) s) = k + String.length s.
Proof. induction k as [|k IH]; simpl; [done|]. by rewrite IH. Qed.


(** The fill characters in front of two strings. *)
Lemma fill_eq (a b : nat) (c : ascii) (p q : string) :
  Nat.iter a (String c) p = Nat.iter b (String c) q →
  a ≤ b → p = Nat.iter (b - a) (String c) q.
Proof.
  revert b. induction a as [|a IH]; intros b Heq Hab.
  - by rewrite Nat.sub_0_r.
  - destruct b as [|b]; [lia|]. simpl in Heq. injection Heq as Heq.
    apply IH in Heq; [done|lia].
Qed.

Lemma setw_setfill_pretty_inj (w : nat) (x y : Z) :
  setw_setfill w "0" (pretty x) = setw_setfill w "0" (pretty y) → x = y.
Proof.
  assert (∀ a b (x y : Z),
    Nat.iter a (String "0"%char) (pretty x)
      = Nat.iter b (String "0"%char) (pretty y) →
    a ≤ b → x = y) as Hle.
  { intros a b x' y' Heq Hab. apply fill_eq in Heq; [|done].
    destruct (b - a) as [|k]; [by apply (inj pretty)|].
    simpl in Heq.
    destruct (pretty_Z_head x') as [[-> Hx]|(c & rest & Hx & Hc & _)].
    - rewrite Hx in Heq. injection Heq as Heq.
      assert (String.length (Nat.iter k (String "0"%char) (pretty y')) = 0)
        as Hlen by by rewrite <- Heq.
      rewrite length_fill in Hlen.
      destruct (pretty_Z_head y') as [[-> _]|(c' & rest' & Hy & _)]; [done|].
      rewrite Hy in Hlen. simpl in Hlen. lia.
    - rewrite Hx in Heq. by injection Heq as -> _. }
  unfold setw_setfill. intros Heq.
  destruct (decide (w - String.length (pretty x) ≤ w - String.length (pretty y))).
  - by eapply Hle.
  - symmetry. eapply (Hle _ _ y x); [done|lia].
Qed.


(** X17. The extensions tell the restart files apart. The extension of a
    unified restart file does not depend on the report step; the extensions
    of the separate restart files of two runs are the same only for the
    same report step and the same formatting, whatever the report steps
    (beyond 9999 and negative ones included); and no extension of a
    separate restart file is the extension of a unified one. *)
Theorem restart_extensions_are_distinct (formatted formatted' : bool)
    (rptStep rptStep' : Z) :
  restart rptStep formatted true = restart rptStep' formatted true ∧
  (restart rptStep formatted false = restart rptStep' formatted' false →
   rptStep = rptStep' ∧ formatted = formatted') ∧
  restart rptStep formatted false ≠ restart rptStep' formatted' true.
Proof.
  split_and!; [done| |].
  - unfold restart. intros [= Hc Hdigits].
    split; [by eapply setw_setfill_pretty_inj|].
    by destruct formatted, formatted'.
  - unfold restart. intros Heq.
    assert (setw_setfill 4 "0" (pretty rptStep) = "UNRST") as Hbody.
    { destruct formatted, formatted'; by simplify_eq. }
    unfold setw_setfill in Hbody.
    destruct (4 - String.length (pretty rptStep)) as [|k]; simpl in Hbody;
      [|done].
    by destruct (pretty_Z_head rptStep)
      as [[_ Hz]|(c & rest & Hz & _ & Hc)]; rewrite Hz in Hbody;
      simplify_eq.
Qed.

End Restart.

